(** * Job registry and batch download pipeline

    A shallow embedding of [api_models.py], [job_manager.py] and
    [download_service.py], and the properties of the job life cycle, the
    validity checker and the track fetcher proved about it.

    Conventions of the embedding.
    - Python [int] is [Z]; Python [float] is IEEE-754 binary64, given by
      [spec_float] with precision 53 and maximal exponent 1024.
    - Python [str] is [string]; only ASCII characters are inspected by the
      code (separators, extensions, the characters replaced in file names),
      so the byte view agrees with the code-point view of Python.
    - A Python exception is [Raise msg]; [except Exception] and a bare
      [except] both catch every [Raise].  [asyncio.CancelledError] is not an
      [Exception] (Python 3.8 and later): it is delivered by the event loop
      when a task is resumed and is modelled at the level of tasks.
    - Job records are Python objects: they live in a store and the registry
      dictionary maps a job id to the address of its record, so that copies
      of the dictionary share the records. *)

From stdpp Require Import gmap strings list fin_maps.
From Stdlib Require Import ZArith Ascii String DecimalString Lia.
From Corelib Require Import SpecFloat.

Open Scope string_scope.
Open Scope Z_scope.

(** ** Results of Python computations *)

Inductive result (A : Type) : Type :=
  | Ok (a : A)
  | Raise (msg : string).
Arguments Ok {A} a.
Arguments Raise {A} msg.

Definition bind {A B : Type} (r : result A) (k : A -> result B) : result B :=
  match r with
  | Ok a => k a
  | Raise msg => Raise msg
  end.

(** ** Python strings *)

Definition ascii_lower (c : ascii) : ascii :=
  let n := nat_of_ascii c in
  if ((65 <=? n)%nat && (n <=? 90)%nat)%bool then ascii_of_nat (n + 32) else c.

(** [str.lower]: on the ASCII letters; the other bytes are kept. *)
Fixpoint lower (s : string) : string :=
  match s with
  | EmptyString => EmptyString
  | String c rest => String (ascii_lower c) (lower rest)
  end.

(** [str.endswith] *)
Definition endswith (s suffix : string) : bool :=
  let n := String.length s in
  let m := String.length suffix in
  ((m <=? n)%nat && String.eqb (substring (n - m) m s) suffix)%bool.

(** [str.startswith] *)
Definition startswith (s pre : string) : bool := String.prefix pre s.

(** [str(n)] for an [int]. *)
Definition str_of_int (n : Z) : string := NilZero.string_of_int (Z.to_int n).

(** The format specification [:02d]: at least two characters, padded with
    a zero on the left. *)
Definition format_02d (n : Z) : string :=
  let s := str_of_int n in
  if (String.length s <? 2)%nat then "0" +:+ s else s.

(** Truthiness of an optional string ([None] and the empty string are
    false). *)
Definition truthy (o : option string) : bool :=
  match o with
  | Some s => negb (String.eqb s "")
  | None => false
  end.

(** ** Python floats *)

Definition prec : Z := 53.
Definition emax : Z := 1024.

Definition float_of_int_exact (n : Z) : spec_float :=
  match n with
  | Z0 => S754_zero false
  | Zpos p => S754_finite false p 0
  | Zneg p => S754_finite true p 0
  end.

Definition is_finite_float (x : spec_float) : bool :=
  match x with
  | S754_zero _ | S754_finite _ _ _ => true
  | _ => false
  end.

(** [a / b] on two [int]s: the correctly rounded quotient.  The sign of a
    zero quotient follows the signs of the operands as far as [int(...)]
    can tell (it cannot). *)
Definition int_truediv (a b : Z) : result spec_float :=
  if b =? 0 then Raise "division by zero"
  else
    let q := SFdiv prec emax (float_of_int_exact a) (float_of_int_exact b) in
    if is_finite_float q then Ok q
    else Raise "integer division result too large for a float".

(** [float(n)] *)
Definition float_of_int (n : Z) : result spec_float :=
  let x := binary_normalize prec emax n 0 false in
  if is_finite_float x then Ok x else Raise "int too large to convert to float".

(** [x * n] for a float [x] and an [int] [n]. *)
Definition float_mul_int (x : spec_float) (n : Z) : result spec_float :=
  bind (float_of_int n) (fun y => Ok (SFmul prec emax x y)).

(** [int(x)]: truncation toward zero. *)
Definition int_of_float (x : spec_float) : result Z :=
  match x with
  | S754_zero _ => Ok 0
  | S754_finite s m e =>
      let a := match e with
               | Zneg k => Z.shiftr (Zpos m) (Zpos k)
               | _ => Z.shiftl (Zpos m) e
               end in
      Ok (if s then - a else a)
  | S754_infinity _ => Raise "cannot convert float infinity to integer"
  | S754_nan => Raise "cannot convert float NaN to integer"
  end.

(** [x > 0] for a float [x]. *)
Definition float_gt_zero (x : spec_float) : bool :=
  SFltb (S754_zero false) x.

(** ** api_models.py *)

Inductive JobStatus : Set := PENDING | RUNNING | COMPLETED | FAILED | SKIPPED.

Global Instance JobStatus_eq_dec : EqDecision JobStatus.
Proof. solve_decision. Defined.

Record JobStatusResponse : Type := {
  job_id : string;
  status : JobStatus;
  progress : Z;
  current_track : option string;
  total_tracks : Z;
  completed_tracks : Z;
  failed_tracks : Z;
  skipped_tracks : Z;
  error_message : option string;
  download_path : option string;
  downloaded_files : list string
}.

Record TrackInfo : Type := {
  id : string;
  title : string;
  artists : string;
  album : string;
  track_number : Z;
  duration_ms : Z;
  isrc : string;
  image_url : string;
  release_date : string
}.

Definition set_status (s : JobStatus) (j : JobStatusResponse) : JobStatusResponse :=
  {| job_id := job_id j; status := s; progress := progress j;
     current_track := current_track j; total_tracks := total_tracks j;
     completed_tracks := completed_tracks j; failed_tracks := failed_tracks j;
     skipped_tracks := skipped_tracks j; error_message := error_message j;
     download_path := download_path j; downloaded_files := downloaded_files j |}.

Definition set_error_message (m : option string) (j : JobStatusResponse) : JobStatusResponse :=
  {| job_id := job_id j; status := status j; progress := progress j;
     current_track := current_track j; total_tracks := total_tracks j;
     completed_tracks := completed_tracks j; failed_tracks := failed_tracks j;
     skipped_tracks := skipped_tracks j; error_message := m;
     download_path := download_path j; downloaded_files := downloaded_files j |}.

Definition set_progress (p : Z) (j : JobStatusResponse) : JobStatusResponse :=
  {| job_id := job_id j; status := status j; progress := p;
     current_track := current_track j; total_tracks := total_tracks j;
     completed_tracks := completed_tracks j; failed_tracks := failed_tracks j;
     skipped_tracks := skipped_tracks j; error_message := error_message j;
     download_path := download_path j; downloaded_files := downloaded_files j |}.

(** The four assignments that precede the computation of [progress] in
    [update_job_progress]. *)
Definition set_counts (label : string) (completed failed skipped : Z)
    (j : JobStatusResponse) : JobStatusResponse :=
  {| job_id := job_id j; status := status j; progress := progress j;
     current_track := Some label; total_tracks := total_tracks j;
     completed_tracks := completed; failed_tracks := failed;
     skipped_tracks := skipped; error_message := error_message j;
     download_path := download_path j; downloaded_files := downloaded_files j |}.

Definition append_file (p : string) (j : JobStatusResponse) : JobStatusResponse :=
  {| job_id := job_id j; status := status j; progress := progress j;
     current_track := current_track j; total_tracks := total_tracks j;
     completed_tracks := completed_tracks j; failed_tracks := failed_tracks j;
     skipped_tracks := skipped_tracks j; error_message := error_message j;
     download_path := download_path j;
     downloaded_files := downloaded_files j ++ [p] |}.

(** ** The asyncio task that runs [download_tracks_batch]

    A task is suspended at an [await] between two steps of the event loop;
    the code between two suspension points runs without interleaving.  The
    suspension points of the batch pipeline are the call of the track
    fetcher and the pacing delay. *)

Record BatchArgs : Type := {
  b_job_id : string;
  b_tracks : list TrackInfo;
  b_outpath : string;
  b_token : string;
  b_prefer_flac : bool;
  b_filename_format : string;
  b_use_track_numbers : bool;
  b_use_artist_subfolders : bool;
  b_use_album_subfolders : bool;
  b_is_playlist : bool
}.

Inductive Coro : Type :=
  | NotStarted
  | AwaitFetch (track : TrackInfo) (track_outpath : string)
      (rest : list TrackInfo) (completed failed skipped : Z)
  | AwaitSleep (rest : list TrackInfo) (completed failed skipped : Z)
  | Returned
  | Crashed (msg : string)
  | Cancelled.

Record Task : Type := {
  args : BatchArgs;
  coro : Coro;
  must_cancel : bool
}.

(** [Task.done] *)
Definition done (t : Task) : bool :=
  match coro t with
  | Returned | Crashed _ | Cancelled => true
  | _ => false
  end.

(** [Task.cancel]: a finished task refuses; a live one is marked and will
    receive [CancelledError] when it is next resumed. *)
Definition task_cancel (t : Task) : Task * bool :=
  if done t then (t, false)
  else ({| args := args t; coro := coro t; must_cancel := true |}, true).

(** ** job_manager.py *)

Definition loc : Set := nat.
Definition tid : Set := nat.

(** The state the registry works on: the store of job records, the two
    dictionaries of [JobManager], and the tasks of the event loop. *)
Record World : Type := {
  objs : gmap loc JobStatusResponse;
  jobs : gmap string loc;
  job_tasks : gmap string tid;
  tasks : gmap tid Task
}.

Definition with_objs (o : gmap loc JobStatusResponse) (w : World) : World :=
  {| objs := o; jobs := jobs w; job_tasks := job_tasks w; tasks := tasks w |}.

Definition with_tasks (t : gmap tid Task) (w : World) : World :=
  {| objs := objs w; jobs := jobs w; job_tasks := job_tasks w; tasks := t |}.

Definition JobManager_init : World :=
  {| objs := ∅; jobs := ∅; job_tasks := ∅; tasks := ∅ |}.

(** [self.jobs[job_id]], read through the store. *)
Definition job_of (w : World) (jid : string) : option JobStatusResponse :=
  l ← jobs w !! jid; objs w !! l.

(** [create_job]; [uuid] is the value drawn by [uuid.uuid4()]. *)
Definition create_job (uuid : string) (total : Z) (path : string) (w : World)
    : World * string :=
  let job_status :=
    {| job_id := uuid; status := PENDING; progress := 0;
       current_track := None; total_tracks := total;
       completed_tracks := 0; failed_tracks := 0; skipped_tracks := 0;
       error_message := None; download_path := Some path;
       downloaded_files := [] |} in
  let l := fresh (dom (objs w)) in
  ({| objs := <[l := job_status]> (objs w);
      jobs := <[uuid := l]> (jobs w);
      job_tasks := job_tasks w;
      tasks := tasks w |}, uuid).

Definition update_job_status (jid : string) (s : JobStatus)
    (error_message : option string) (w : World) : World :=
  match jobs w !! jid with
  | Some l =>
      let w1 := with_objs (alter (set_status s) l (objs w)) w in
      if truthy error_message
      then with_objs (alter (set_error_message error_message) l (objs w1)) w1
      else w1
  | None => w
  end.

(** [int(((completed + failed + skipped) / total) * 100)] *)
Definition progress_percent (completed failed skipped total : Z) : result Z :=
  bind (int_truediv (completed + failed + skipped) total) (fun q =>
  bind (float_mul_int q 100) (fun x =>
  int_of_float x)).

(** [update_job_progress]: the counters are assigned before the percentage
    is computed, so they stay assigned when the division raises. *)
Definition update_job_progress (jid : string) (label : string)
    (completed failed skipped : Z) (w : World) : World * result unit :=
  match jobs w !! jid with
  | Some l =>
      match objs w !! l with
      | Some job =>
          let job1 := set_counts label completed failed skipped job in
          match progress_percent completed failed skipped (total_tracks job) with
          | Ok p => (with_objs (<[l := set_progress p job1]> (objs w)) w, Ok tt)
          | Raise msg => (with_objs (<[l := job1]> (objs w)) w, Raise msg)
          end
      | None => (w, Ok tt)
      end
  | None => (w, Ok tt)
  end.

Definition add_downloaded_file (jid : string) (file_path : string) (w : World)
    : World :=
  match jobs w !! jid with
  | Some l => with_objs (alter (append_file file_path) l (objs w)) w
  | None => w
  end.

Definition get_job_status (jid : string) (w : World) : option loc :=
  jobs w !! jid.

(** [get_all_jobs]: [self.jobs.copy()], a new dictionary with the same
    values, that is, the same addresses. *)
Definition get_all_jobs (w : World) : gmap string loc := jobs w.

Definition register_task (jid : string) (t : tid) (w : World) : World :=
  {| objs := objs w; jobs := jobs w;
     job_tasks := <[jid := t]> (job_tasks w); tasks := tasks w |}.

Definition cancel_job (jid : string) (w : World) : World * bool :=
  match job_tasks w !! jid with
  | Some t =>
      match tasks w !! t with
      | Some task =>
          if done task then (w, false)
          else
            let w1 := with_tasks (<[t := fst (task_cancel task)]> (tasks w)) w in
            (update_job_status jid FAILED (Some "Job cancelled by user") w1, true)
      | None => (w, false)
      end
  | None => (w, false)
  end.

Definition is_terminal (s : JobStatus) : bool :=
  match s with
  | COMPLETED | FAILED => true
  | _ => false
  end.

(** The ids collected in [jobs_to_remove] by [cleanup_finished_jobs]. *)
Definition finished (w : World) (jid : string) : bool :=
  match job_of w jid with
  | Some job => is_terminal (status job)
  | None => false
  end.

(** [cleanup_finished_jobs], as far as the registry goes: the deletion of
    the files of the evicted jobs acts on the file system only. *)
Definition cleanup_finished_jobs (w : World) : World :=
  {| objs := objs w;
     jobs := filter (fun kv => finished w (fst kv) = false) (jobs w);
     job_tasks := filter (fun kv => finished w (fst kv) = false) (job_tasks w);
     tasks := tasks w |}.

(** ** download_service.py: file names *)

Definition dquote : ascii := ascii_of_nat 34.

(** The replacement function of
    [re.sub(r'[<>:"/\\|?*]', lambda m: "'" if m.group() == '"' else '_', _)]. *)
Definition sanitize_char (c : ascii) : ascii :=
  if Ascii.eqb c dquote then "'"%char
  else if existsb (Ascii.eqb c)
            ["<"; ">"; ":"; "/"; "\"; "|"; "?"; "*"]%char
       then "_"%char
       else c.

Fixpoint sanitize (s : string) : string :=
  match s with
  | EmptyString => EmptyString
  | String c rest => String (sanitize_char c) (sanitize rest)
  end.

Definition get_formatted_filename (track : TrackInfo) (extension : string)
    (filename_format : string) : string :=
  let filename :=
    if String.eqb filename_format "artist_title"
    then artists track +:+ " - " +:+ title track +:+ extension
    else if String.eqb filename_format "title_only"
    then title track +:+ extension
    else title track +:+ " - " +:+ artists track +:+ extension in
  sanitize filename.

(** [os.path.join] with two arguments (POSIX). *)
Definition path_join (a b : string) : string :=
  if startswith b "/" then b
  else if (String.eqb a "" || endswith a "/")%bool then a +:+ b
  else a +:+ "/" +:+ b.

(** The path a track is stored at, for a given extension: lines 68-73 and
    166-169 of [download_track_async]. *)
Definition track_filepath (track : TrackInfo) (outpath : string)
    (extension : string) (filename_format : string)
    (use_track_numbers : bool) : string :=
  let filename := get_formatted_filename track extension filename_format in
  let filename :=
    if use_track_numbers
    then format_02d (track_number track) +:+ " - " +:+ filename
    else filename in
  path_join outpath filename.

(** ** download_service.py: the validity checker *)

(** What the checker asks about a path: [os.path.exists],
    [os.path.getsize], and [MP3(path).info.length] (or the exception raised
    by the parser). *)
Record Probe : Type := {
  p_exists : bool;
  p_getsize : result Z;
  p_mp3_length : result spec_float
}.

Definition try_except {A : Type} (body : result A) (handler : string -> result A)
    : result A :=
  match body with
  | Ok a => Ok a
  | Raise msg => handler msg
  end.

(** The inner [try] either returns a value ([Some]) or falls through to the
    [return False] that follows it ([None]). *)
Definition is_valid_existing_file (probe : string -> Probe) (filepath : string)
    : result bool :=
  if negb (p_exists (probe filepath)) then Ok false
  else
    try_except
      (bind (p_getsize (probe filepath)) (fun file_size =>
         if file_size <? 100000 then Ok false
         else
           bind
             (try_except
                (bind (p_mp3_length (probe filepath)) (fun length =>
                   if float_gt_zero length then Ok (Some true) else Ok None))
                (fun _ =>
                   if (endswith (lower filepath) ".flac" && (500000 <? file_size))%bool
                   then Ok (Some true) else Ok None))
             (fun returned =>
                match returned with
                | Some b => Ok b
                | None => Ok false
                end)))
      (fun _ => Ok false).

(** ** The file system and the network *)

(** A regular file, as far as the code looks at it: its size and what the
    MP3 parser makes of it. *)
Record File : Type := {
  size : Z;
  mp3_length : result spec_float
}.

Definition probe_fs (fs : gmap string File) (path : string) : Probe :=
  match fs !! path with
  | Some f => {| p_exists := true; p_getsize := Ok (size f);
                 p_mp3_length := mp3_length f |}
  | None => {| p_exists := false;
               p_getsize := Raise "No such file or directory";
               p_mp3_length := Raise "No such file or directory" |}
  end.

(** The fields of a JSON answer that the code reads.  For [error] and
    [message], [Some] is a key that holds a string and [None] a key that
    is missing; answers that hold null or anything else but a string
    under these two keys are not described.  For [link], [None] is a key
    that is missing or holds null. *)
Record JsonBody : Type := {
  j_success : bool;
  j_error : option string;
  j_message : option string;
  j_link : option string;
  j_flacAvailable : bool
}.

Record Response : Type := {
  status_code : Z;
  text : string;
  json : result JsonBody;
  content : File
}.

Inductive Request : Type :=
  | Post (url : string) (headers : list (string * string))
      (payload_id : string) (lossless : bool)
  | Get (url : string) (headers : list (string * string)).

(** Every effect of a fetch on the outside is recorded, in order. *)
Inductive Event : Type :=
  | EvRequest (r : Request)
  | EvValidate (path : string) (verdict : bool)
  | EvRemove (path : string)
  | EvWrite (path : string) (f : File)
  | EvRename (src dst : string)
  | EvSave (path : string).

Definition is_network (e : Event) : bool :=
  match e with
  | EvRequest _ => true
  | _ => false
  end.

(** What the outside answers: the network, and the failures of the file
    operations ([None]: the operation succeeds). *)
Record Env : Type := {
  net : Request -> result Response;
  remove_error : string -> option string;
  rename_error : string -> string -> option string;
  (** a failing write says what it leaves at the path, if anything *)
  write_error : string -> File -> option (string * option File);
  (** [audio.save()] of the tagged file, which rewrites the file in
      place: the file it leaves at the path, and the exception it raises,
      if it does (the file is then what the interrupted rewriting has
      made of it) *)
  save_result : string -> File -> File * option string;
  mkdir_error : string -> option string
}.

Record St : Type := {
  fs : gmap string File;
  log : list Event
}.

Definition M (A : Type) : Type := St -> St * result A.

Definition ret {A : Type} (a : A) : M A := fun s => (s, Ok a).

Definition raise {A : Type} (msg : string) : M A := fun s => (s, Raise msg).

Definition mbind {A B : Type} (m : M A) (k : A -> M B) : M B :=
  fun s =>
    match m s with
    | (s1, Ok a) => k a s1
    | (s1, Raise msg) => (s1, Raise msg)
    end.

Notation "'let*' x := m 'in' k" := (mbind m (fun x => k))
  (at level 10, x name, m at level 100, k at level 200,
   format "'[v' 'let*'  x  :=  m  'in' '/' k ']'").
Notation "m >> k" := (mbind m (fun _ => k))
  (at level 100, k at level 200, right associativity).

Definition lift {A : Type} (r : result A) : M A := fun s => (s, r).

(** [try: body except Exception: handler] *)
Definition mtry {A : Type} (body : M A) (handler : string -> M A) : M A :=
  fun s =>
    match body s with
    | (s1, Ok a) => (s1, Ok a)
    | (s1, Raise msg) => handler msg s1
    end.

Definition emit (e : Event) : M unit :=
  fun s => ({| fs := fs s; log := log s ++ [e] |}, Ok tt).

Definition set_fs (f : gmap string File -> gmap string File) : M unit :=
  fun s => ({| fs := f (fs s); log := log s |}, Ok tt).

Definition get_fs : M (gmap string File) := fun s => (s, Ok (fs s)).

(** [self.is_valid_existing_file(path)], on the current files. *)
Definition check_valid (path : string) : M bool :=
  let* cur := get_fs in
  let* verdict := lift (is_valid_existing_file (probe_fs cur) path) in
  emit (EvValidate path verdict) >>
  ret verdict.

Definition os_path_exists (path : string) : M bool :=
  let* cur := get_fs in ret (bool_decide (is_Some (cur !! path))).

Definition os_remove (env : Env) (path : string) : M unit :=
  emit (EvRemove path) >>
  match remove_error env path with
  | Some msg => raise msg
  | None =>
      let* cur := get_fs in
      match cur !! path with
      | Some _ => set_fs (delete path)
      | None => raise "No such file or directory"
      end
  end.

Definition os_rename (env : Env) (src dst : string) : M unit :=
  emit (EvRename src dst) >>
  match rename_error env src dst with
  | Some msg => raise msg
  | None =>
      let* cur := get_fs in
      match cur !! src with
      | Some f => set_fs (fun m => <[dst := f]> (delete src m))
      | None => raise "No such file or directory"
      end
  end.

(** [_write_file] *)
Definition write_file (env : Env) (path : string) (data : File) : M unit :=
  emit (EvWrite path data) >>
  match write_error env path data with
  | Some (msg, leftover) =>
      match leftover with
      | Some f => set_fs (insert path f)
      | None => ret tt
      end >>
      raise msg
  | None => set_fs (insert path data)
  end.

Definition request (env : Env) (r : Request) : M Response :=
  emit (EvRequest r) >> lift (net env r).

(** ** download_service.py: the track fetcher *)

Definition api_headers (token : string) : list (string * string) :=
  [("Host", "api.spotidownloader.com");
   ("Referer", "https://spotidownloader.com/");
   ("Origin", "https://spotidownloader.com");
   ("Authorization", "Bearer " +:+ token);
   ("Content-Type", "application/json")].

Definition download_url_api : string := "https://api.spotidownloader.com/download".
Definition flac_url_api : string := "https://api.spotidownloader.com/isFlacAvailable".

(** [url.split('//', 1)[1].split('/', 1)[0]] *)
Definition host_of_url (url : string) : result string :=
  match String.index 0 "//" url with
  | None => Raise "list index out of range"
  | Some i =>
      let rest := substring (i + 2) (String.length url - (i + 2)) url in
      match String.index 0 "/" rest with
      | None => Ok rest
      | Some k => Ok (substring 0 k rest)
      end
  end.

(** [data.get('error', data.get('message', 'Unknown error'))], for an
    answer whose [error] and [message] are strings when they are there. *)
Definition json_error_msg (data : JsonBody) : string :=
  match j_error data with
  | Some e => e
  | None =>
      match j_message data with
      | Some m => m
      | None => "Unknown error"
      end
  end.

(** A stretch of the function either returns from it or goes on with the
    values it has computed. *)
Inductive Flow (A : Type) : Type :=
  | Return (r : bool * string)
  | Continue (a : A).
Arguments Return {A} r.
Arguments Continue {A} a.

(** Lines 79-84: a file that failed the check is removed. *)
Definition remove_corrupted (env : Env) (filepath : string) : M (Flow unit) :=
  let* there := os_path_exists filepath in
  if there then
    mtry (os_remove env filepath >> ret (Continue tt))
         (fun e => ret (Return (false, "Failed to remove corrupted file: " +:+ e)))
  else ret (Continue tt).

(** Lines 129-163: the optional negotiation of the lossless format; any
    exception leaves the primary link in place. *)
Definition negotiate_flac (env : Env) (token : string) (track : TrackInfo)
    (download_url : string) : M (string * string) :=
  mtry
    (let* flac_response :=
       request env (Post flac_url_api (api_headers token) (id track) false) in
     if status_code flac_response =? 200 then
       let* flac_data := lift (json flac_response) in
       if j_flacAvailable flac_data then
         let* flac_download_response :=
           request env (Post download_url_api (api_headers token) (id track) true) in
         if status_code flac_download_response =? 200 then
           let* d := lift (json flac_download_response) in
           if (j_success d && truthy (j_link d))%bool then
             match j_link d with
             | Some link => ret (link, ".flac")
             | None => ret (download_url, ".mp3")
             end
           else ret (download_url, ".mp3")
         else ret (download_url, ".mp3")
       else ret (download_url, ".mp3")
     else ret (download_url, ".mp3"))
    (fun _ => ret (download_url, ".mp3")).

(** [embed_metadata]: tags are written into an MP3 file; every failure is
    logged and swallowed, the one of [audio.save()] included, whatever it
    has done to the file by then. *)
Definition embed_metadata (env : Env) (filepath : string) (track : TrackInfo)
    : M unit :=
  mtry
    (let* cur := get_fs in
     match cur !! filepath with
     | None => raise "No such file or directory"
     | Some f =>
         let* _ := lift (mp3_length f) in
         (if negb (String.eqb (image_url track) "")
          then mtry (request env
                       (Get (image_url track)
                          [("Referer", "https://spotidownloader.com/");
                           ("Origin", "https://spotidownloader.com")]) >>
                     ret tt)
                    (fun _ => ret tt)
          else ret tt) >>
         emit (EvSave filepath) >>
         set_fs (insert filepath (fst (save_result env filepath f))) >>
         match snd (save_result env filepath f) with
         | Some e => raise e
         | None => ret tt
         end
     end)
    (fun _ => ret tt).

(** Lines 188-211: the payload goes to the temporary path, is checked
    there, and only then takes the final name. *)
Definition save_file (env : Env) (filepath file_extension : string)
    (track : TrackInfo) (payload : File) : M (bool * string) :=
  let temp_filepath := filepath +:+ ".tmp" in
  mtry
    (write_file env temp_filepath payload >>
     let* valid := check_valid temp_filepath in
     if valid then
       os_rename env temp_filepath filepath >>
       (if String.eqb file_extension ".mp3"
        then embed_metadata env filepath track
        else ret tt) >>
       ret (true, filepath)
     else
       let* there := os_path_exists temp_filepath in
       (if there then os_remove env temp_filepath else ret tt) >>
       ret (false, "Downloaded file appears to be corrupted"))
    (fun e =>
       let* there := os_path_exists temp_filepath in
       (if there then mtry (os_remove env temp_filepath) (fun _ => ret tt)
        else ret tt) >>
       raise e).

Section Fetcher.

(** The error translator of [error_translator.py] only formats messages;
    its arguments are the status code, the response text, the error
    message and the context. *)
Variable format_error_for_display :
  option Z -> string -> string -> string -> string.

(** Lines 86-123: the request for the primary link. *)
Definition request_link (env : Env) (token : string) (track : TrackInfo)
    : M (Flow string) :=
  let* response :=
    request env (Post download_url_api (api_headers token) (id track) false) in
  if negb (status_code response =? 200) then
    ret (Return (false,
           format_error_for_display (Some (status_code response))
             (text response) "" "Download API Request"))
  else
    let* data := lift (json response) in
    if negb (j_success data) then ret (Return (false, json_error_msg data))
    else
      match j_link data with
      | Some link =>
          if String.eqb link "" then
            ret (Return (false, "No download link provided by API"))
          else ret (Continue link)
      | None => ret (Return (false, "No download link provided by API"))
      end.

(** The body of the outer [try] of [download_track_async]. *)
Definition download_track_body (env : Env) (track : TrackInfo)
    (outpath token : string) (prefer_flac : bool) (filename_format : string)
    (use_track_numbers : bool) : M (bool * string) :=
  let filepath :=
    track_filepath track outpath ".mp3" filename_format use_track_numbers in
  let* valid := check_valid filepath in
  if valid then ret (true, "File already exists - skipped")
  else
    let* removed := remove_corrupted env filepath in
    match removed with
    | Return r => ret r
    | Continue _ =>
        let* linked := request_link env token track in
        match linked with
        | Return r => ret r
        | Continue link =>
            let* asset :=
              (if prefer_flac then negotiate_flac env token track link
               else ret (link, ".mp3")) in
            let download_url := fst asset in
            let file_extension := snd asset in
            let filepath :=
              track_filepath track outpath file_extension filename_format
                use_track_numbers in
            let* host := lift (host_of_url download_url) in
            let* audio_response :=
              request env
                (Get download_url
                   [("Host", host);
                    ("Referer", "https://spotidownloader.com/");
                    ("Origin", "https://spotidownloader.com")]) in
            if negb (status_code audio_response =? 200) then
              ret (false, "Failed to download audio: HTTP " +:+
                            str_of_int (status_code audio_response))
            else
              save_file env filepath file_extension track
                (content audio_response)
        end
    end.

(** [download_track_async], for a call that runs to its end: whatever the
    body raises becomes a failure with a translated message.  A call that
    is cancelled at one of its awaits ends there with [CancelledError],
    which no handler of the function catches; the pipeline then ends as
    well, which [run_task] describes, and the files that such a call
    leaves are not described by this function. *)
Definition download_track_async (env : Env) (track : TrackInfo)
    (outpath token : string) (prefer_flac : bool) (filename_format : string)
    (use_track_numbers : bool) (s : St) : St * (bool * string) :=
  match download_track_body env track outpath token prefer_flac
          filename_format use_track_numbers s with
  | (s1, Ok r) => (s1, r)
  | (s1, Raise e) =>
      (s1, (false, format_error_for_display None "" e "Track Download"))
  end.

(** ** download_service.py: the batch pipeline *)

(** [track.artists.split(', ')[0] if ', ' in track.artists else
    track.artists] *)
Definition first_artist (track : TrackInfo) : string :=
  match String.index 0 ", " (artists track) with
  | Some i => substring 0 i (artists track)
  | None => artists track
  end.

(** Lines 297-307: the directory of a track. *)
Definition track_outpath (a : BatchArgs) (track : TrackInfo) : string :=
  if b_is_playlist a then
    let p :=
      if b_use_artist_subfolders a
      then path_join (b_outpath a) (sanitize (first_artist track))
      else b_outpath a in
    if b_use_album_subfolders a
    then path_join p (sanitize (album track))
    else p
  else b_outpath a.

(** The pipeline from the head of the loop, with [rest] the tracks still
    to visit, up to its next suspension point or its end.  An exception
    inside the loop body counts the track as failed and goes on with the
    next one at once; the final report is outside the [try]. *)
Fixpoint run_loop (env : Env) (a : BatchArgs) (rest : list TrackInfo)
    (completed failed skipped : Z) (w : World) : World * Coro :=
  match rest with
  | [] =>
      match update_job_progress (b_job_id a) "Completed"
              completed failed skipped w with
      | (w1, Ok _) =>
          (update_job_status (b_job_id a) COMPLETED None w1, Returned)
      | (w1, Raise msg) => (w1, Crashed msg)
      end
  | track :: rest' =>
      match (if b_is_playlist a then mkdir_error env (track_outpath a track)
             else None) with
      | Some _ => run_loop env a rest' completed (failed + 1) skipped w
      | None =>
          match update_job_progress (b_job_id a)
                  (title track +:+ " - " +:+ artists track)
                  completed failed skipped w with
          | (w1, Ok _) =>
              (w1, AwaitFetch track (track_outpath a track) rest'
                     completed failed skipped)
          | (w1, Raise _) =>
              run_loop env a rest' completed (failed + 1) skipped w1
          end
      end
  end.

(** One step of the coroutine of [download_tracks_batch], from the
    suspension point it waits at to the next one.  [files] is the file
    system the fetch of the current track ran against. *)
Definition resume (env : Env) (files : gmap string File) (t : Task)
    (w : World) : World * Coro :=
  let a := args t in
  match coro t with
  | NotStarted =>
      match mkdir_error env (b_outpath a) with
      | Some msg => (w, Crashed msg)
      | None =>
          run_loop env a (b_tracks a) 0 0 0
            (update_job_status (b_job_id a) RUNNING None w)
      end
  | AwaitFetch track dir rest completed failed skipped =>
      let '(success, result) :=
        snd (download_track_async env track dir (b_token a)
               (b_prefer_flac a) (b_filename_format a)
               (b_use_track_numbers a) {| fs := files; log := [] |}) in
      if success then
        if String.eqb result "File already exists - skipped"
        then (w, AwaitSleep rest completed failed (skipped + 1))
        else (add_downloaded_file (b_job_id a) result w,
              AwaitSleep rest (completed + 1) failed skipped)
      else (w, AwaitSleep rest completed (failed + 1) skipped)
  | AwaitSleep rest completed failed skipped =>
      run_loop env a rest completed failed skipped w
  | Returned => (w, Returned)
  | Crashed msg => (w, Crashed msg)
  | Cancelled => (w, Cancelled)
  end.

(** The event loop resumes task [t]: a finished task is left alone, a
    task whose cancellation was requested receives [CancelledError] at
    its suspension point (no handler of the pipeline catches it) and
    ends, any other task runs to its next suspension point. *)
Definition run_task (env : Env) (files : gmap string File) (t : tid)
    (w : World) : World :=
  match tasks w !! t with
  | Some task =>
      if done task then w
      else if must_cancel task then
        with_tasks
          (<[t := {| args := args task; coro := Cancelled;
                     must_cancel := false |}]> (tasks w)) w
      else
        let '(w1, c) := resume env files task w in
        with_tasks
          (<[t := {| args := args task; coro := c;
                     must_cancel := false |}]> (tasks w1)) w1
  | None => w
  end.

(** ** server_spotidownloader.py: the submission of a batch

    [start_download] refuses an empty track list; otherwise it creates
    the job with the number of tracks, creates the task that runs the
    pipeline on these tracks, and registers it, without suspending in
    between. *)
Definition start_download (uuid : string) (a : BatchArgs) (w : World)
    : World :=
  match b_tracks a with
  | [] => w
  | _ :: _ =>
      let '(w1, jid) :=
        create_job uuid (Z.of_nat (List.length (b_tracks a))) (b_outpath a) w in
      let t := fresh (dom (tasks w1)) in
      let task :=
        {| args :=
             {| b_job_id := jid; b_tracks := b_tracks a;
                b_outpath := b_outpath a; b_token := b_token a;
                b_prefer_flac := b_prefer_flac a;
                b_filename_format := b_filename_format a;
                b_use_track_numbers := b_use_track_numbers a;
                b_use_artist_subfolders := b_use_artist_subfolders a;
                b_use_album_subfolders := b_use_album_subfolders a;
                b_is_playlist := b_is_playlist a |};
           coro := NotStarted; must_cancel := false |} in
      register_task jid t (with_tasks (<[t := task]> (tasks w1)) w1)
  end.

(** ** The running system

    What can happen to the registry: a batch is submitted, the event loop
    resumes a task, a caller cancels a job, the finished jobs are swept.
    The identifier drawn for a new job has never been used. *)
Inductive Label : Type :=
  | Submit (uuid : string) (a : BatchArgs)
  | Resume (t : tid) (env : Env) (files : gmap string File)
  | Cancel (jid : string)
  | Sweep.

Definition unused (w : World) (uuid : string) : Prop :=
  jobs w !! uuid = None /\ job_tasks w !! uuid = None /\
  forall t task, tasks w !! t = Some task -> b_job_id (args task) <> uuid.

Inductive step : World -> Label -> World -> Prop :=
  | step_submit w uuid a :
      unused w uuid ->
      step w (Submit uuid a) (start_download uuid a w)
  | step_resume w t env files :
      step w (Resume t env files) (run_task env files t w)
  | step_cancel w jid :
      step w (Cancel jid) (fst (cancel_job jid w))
  | step_sweep w :
      step w Sweep (cleanup_finished_jobs w).

Inductive reachable : World -> Prop :=
  | reachable_init : reachable JobManager_init
  | reachable_step w l w' : reachable w -> step w l w' -> reachable w'.

End Fetcher.

(** ** Definitions used to state the properties *)

(** The validity rule in the words of its contract: a missing path and a
    file under 100,000 bytes are invalid; a file that parses as MP3 is
    valid when its duration is positive; a file that does not parse is
    valid only with the [.flac] extension and more than 500,000 bytes; an
    exception means invalid. *)
Definition validity_rule (probe : string -> Probe) (path : string) : bool :=
  if p_exists (probe path) then
    match p_getsize (probe path) with
    | Raise _ => false
    | Ok sz =>
        if sz <? 100000 then false
        else
          match p_mp3_length (probe path) with
          | Ok duration => float_gt_zero duration
          | Raise _ => (endswith (lower path) ".flac" && (500000 <? sz))%bool
          end
    end
  else false.

(** Reading a job through a dictionary obtained earlier, in the current
    store. *)
Definition observe (snapshot : gmap string loc) (w : World) (jid : string)
    : option JobStatusResponse :=
  l ← snapshot !! jid; objs w !! l.

(** Every record referred to by the registry is in the store, and two ids
    never share a record. *)
Definition well_formed (w : World) : Prop :=
  (forall jid l, jobs w !! jid = Some l -> is_Some (objs w !! l)) /\
  (forall j1 j2 l, jobs w !! j1 = Some l -> jobs w !! j2 = Some l -> j1 = j2).

Definition counted (job : JobStatusResponse) : Z :=
  completed_tracks job + failed_tracks job + skipped_tracks job.

(** The effect of [update_job_status] on the record of the job. *)
Definition status_update (s : JobStatus) (msg : option string)
    (job : JobStatusResponse) : JobStatusResponse :=
  if truthy msg then set_error_message msg (set_status s job)
  else set_status s job.

(** The effect of [update_job_progress] on the record of the job. *)
Definition progress_update (label : string) (completed failed skipped : Z)
    (job : JobStatusResponse) : JobStatusResponse :=
  match progress_percent completed failed skipped (total_tracks job) with
  | Ok p => set_progress p (set_counts label completed failed skipped job)
  | Raise _ => set_counts label completed failed skipped job
  end.

(** An in-place change of the record of job [jid]. *)
Definition touch (F : JobStatusResponse -> JobStatusResponse) (jid : string)
    (w : World) : World :=
  match jobs w !! jid with
  | Some l => with_objs (alter F l (objs w)) w
  | None => w
  end.

(** Some batch with one track, for the examples. *)
Definition sample_track : TrackInfo :=
  {| id := "1LguH2WiuSossO7VztfTAl"; title := "Song"; artists := "Ann, Bob";
     album := "Album"; track_number := 3; duration_ms := 215000;
     isrc := ""; image_url := ""; release_date := "2020" |}.

Definition sample_batch (tracks : list TrackInfo) : BatchArgs :=
  {| b_job_id := ""; b_tracks := tracks; b_outpath := "downloads";
     b_token := "tok"; b_prefer_flac := false;
     b_filename_format := "title_artist"; b_use_track_numbers := true;
     b_use_artist_subfolders := false; b_use_album_subfolders := false;
     b_is_playlist := false |}.

(** A registry holding one job of a hundred tracks. *)
Definition hundred_tracks_job : World :=
  fst (create_job "job-1" 100 "downloads" JobManager_init).

(** A registry holding one job of two tracks. *)
Definition two_tracks_job : World :=
  fst (create_job "job-1" 2 "downloads" JobManager_init).

(** The events that put data under a name: writes and renames. *)
Definition is_promotion (e : Event) : bool :=
  match e with
  | EvWrite _ _ | EvRename _ _ => true
  | _ => false
  end.

Definition quiet (evs : list Event) : Prop :=
  Forall (fun e => is_promotion e = false) evs.



Definition corrupted_msg : string := "Downloaded file appears to be corrupted".

(** An MP3 file of 1.2 MB with a duration of four seconds. *)
Definition good_mp3 : File :=
  {| size := 1200000; mp3_length := Ok (S754_finite false 1 2) |}.

(** A file cut short. *)
Definition truncated_file : File :=
  {| size := 2048; mp3_length := Raise "can't sync to MPEG frame" |}.

Definition plain_translator (code : option Z) (response_text error_message
    context : string) : string :=
  context +:+ ": " +:+ response_text +:+ error_message.

(** A provider that answers every request with success, a link and the
    given payload. *)
Definition serving (payload : File) : Env :=
  {| net := fun r =>
       Ok {| status_code := 200; text := "";
             json := Ok {| j_success := true; j_error := None;
                           j_message := None;
                           j_link := Some "https://cdn.example.com/a";
                           j_flacAvailable := false |};
             content := payload |};
     remove_error := fun _ => None;
     rename_error := fun _ _ => None;
     write_error := fun _ _ => None;
     save_result := fun _ f => (f, None);
     mkdir_error := fun _ => None |}.

(** A later state whose log extends the one of an earlier state without
    writes and renames. *)
Definition quiet_ext (s s' : St) : Prop :=
  exists evs, log s' = (log s ++ evs)%list /\ quiet evs.


(** ** The invariant of the running system *)

Definition n_tracks (task : Task) : Z :=
  Z.of_nat (List.length (b_tracks (args task))).

(** The record of the job of a task that has not been cancelled, by the
    point the task is at: [n] tracks in all, of which the counters of the
    pipeline and the tracks still to visit account for every one. *)
Definition live_ok (n : Z) (co : Coro) (job : JobStatusResponse) : Prop :=
  total_tracks job = n /\
  match co with
  | NotStarted => status job = PENDING
  | AwaitFetch _ _ rest c f s =>
      status job = RUNNING /\ c + f + s + 1 + Z.of_nat (List.length rest) = n
  | AwaitSleep rest c f s =>
      status job = RUNNING /\ c + f + s + Z.of_nat (List.length rest) = n
  | Returned =>
      status job = COMPLETED /\ counted job = n /\
      current_track job = Some "Completed" /\ progress job = 100
  | Crashed _ => status job = PENDING
  | Cancelled => False
  end.

Definition task_ok (w : World) (task : Task) : Prop :=
  0 < n_tracks task /\
  match coro task with
  | Returned =>
      forall job, job_of w (b_job_id (args task)) = Some job ->
                  status job = COMPLETED
  | Cancelled =>
      forall job, job_of w (b_job_id (args task)) = Some job ->
                  status job = FAILED
  | Crashed _ => True
  | co =>
      if must_cancel task then
        forall job, job_of w (b_job_id (args task)) = Some job ->
                    status job = FAILED
      else
        exists job, job_of w (b_job_id (args task)) = Some job /\
                    live_ok (n_tracks task) co job
  end.

Record Inv (w : World) : Prop := {
  inv_wf : well_formed w;
  inv_tasks : forall t task, tasks w !! t = Some task -> task_ok w task;
  inv_job_tasks : forall jid t,
    job_tasks w !! jid = Some t ->
    exists task, tasks w !! t = Some task /\ b_job_id (args task) = jid;
  inv_unique : forall t1 t2 task1 task2,
    tasks w !! t1 = Some task1 -> tasks w !! t2 = Some task2 ->
    b_job_id (args task1) = b_job_id (args task2) -> t1 = t2;
  inv_owner : forall jid l,
    jobs w !! jid = Some l ->
    exists t task, tasks w !! t = Some task /\ b_job_id (args task) = jid;
  inv_counts : forall jid job,
    job_of w jid = Some job ->
    counted job <= total_tracks job /\
    (status job = COMPLETED -> counted job = total_tracks job)
}.

(** The order of the life cycle: Pending, then Running, then Completed or
    Failed. *)
Definition forward (s s' : JobStatus) : bool :=
  match s, s' with
  | PENDING, (PENDING | RUNNING | COMPLETED | FAILED) => true
  | RUNNING, (RUNNING | COMPLETED | FAILED) => true
  | COMPLETED, COMPLETED => true
  | FAILED, FAILED => true
  | SKIPPED, SKIPPED => true
  | _, _ => false
  end.

Section Runs.

Variable format_error_for_display :
  option Z -> string -> string -> string -> string.

(** Any number of steps of the system. *)
Inductive steps : World -> World -> Prop :=
  | steps_refl w : steps w w
  | steps_cons w l w1 w2 :
      step format_error_for_display w l w1 -> steps w1 w2 -> steps w w2.

End Runs.

(** A provider that is down: every request fails. *)
Definition unreachable_provider : Env :=
  {| net := fun _ => Raise "connection refused";
     remove_error := fun _ => None;
     rename_error := fun _ _ => None;
     write_error := fun _ _ => None;
     save_result := fun _ f => (f, None);
     mkdir_error := fun _ => None |}.

(** The record and the task that [start_download] creates. *)
Definition new_job (uuid : string) (a : BatchArgs) : JobStatusResponse :=
  {| job_id := uuid; status := PENDING; progress := 0;
     current_track := None;
     total_tracks := Z.of_nat (List.length (b_tracks a));
     completed_tracks := 0; failed_tracks := 0; skipped_tracks := 0;
     error_message := None; download_path := Some (b_outpath a);
     downloaded_files := [] |}.

Definition new_task (uuid : string) (a : BatchArgs) : Task :=
  {| args :=
       {| b_job_id := uuid; b_tracks := b_tracks a;
          b_outpath := b_outpath a; b_token := b_token a;
          b_prefer_flac := b_prefer_flac a;
          b_filename_format := b_filename_format a;
          b_use_track_numbers := b_use_track_numbers a;
          b_use_artist_subfolders := b_use_artist_subfolders a;
          b_use_album_subfolders := b_use_album_subfolders a;
          b_is_playlist := b_is_playlist a |};
     coro := NotStarted; must_cancel := false |}.


(** An id is used when some task of the event loop carries it. *)
Definition used (w : World) (jid : string) : Prop :=
  exists t task, tasks w !! t = Some task /\ b_job_id (args task) = jid.

(** ** Sample runs *)

(** A batch of two tracks is submitted, the first track is downloaded and
    reported, and the job is cancelled while the second one is fetched. *)
Definition submitted_two : World :=
  start_download "job-1" (sample_batch [sample_track; sample_track])
    JobManager_init.

Definition fetching_second : World :=
  run_task plain_translator (serving good_mp3) ∅ 0%nat
    (run_task plain_translator (serving good_mp3) ∅ 0%nat
       (run_task plain_translator (serving good_mp3) ∅ 0%nat submitted_two)).

Definition cancelled_midway : World := fst (cancel_job "job-1" fetching_second).

(** A batch of one track whose fetch has failed, the provider being down;
    the task waits in the pacing delay. *)
Definition submitted_one : World :=
  start_download "job-1" (sample_batch [sample_track]) JobManager_init.

Definition failed_one : World :=
  run_task plain_translator unreachable_provider ∅ 0%nat
    (run_task plain_translator unreachable_provider ∅ 0%nat submitted_one).

(** * Further definitions

    ** The percentage on every job up to a given size *)

(** [P] holds on the [n] integers from [a] on. *)
Fixpoint forall_range (P : Z -> bool) (n : nat) (a : Z) : bool :=
  match n with
  | O => true
  | S k => P a && forall_range P k (a + 1)
  end.

(** The percentage stored for [count] tracks out of [total], or -1 when
    the computation raises. *)
Definition stored_percent (count total : Z) : Z :=
  match progress_percent count 0 0 total with
  | Ok p => p
  | Raise _ => -1
  end.

(** The stored percentage [p] is the floor of the exact one or one below
    it, and lies between 0 and 100. *)
Definition percent_ok (total count p : Z) : bool :=
  (100 * count / total - 1 <=? p) && (p <=? 100 * count / total) &&
  (0 <=? p) && (p <=? 100).

(** The percentages stored for the [n] counts from [count] on are right
    and do not decrease, starting above [prev]. *)
Fixpoint percent_chain (total : Z) (n : nat) (count prev : Z) : bool :=
  match n with
  | O => true
  | S k =>
      let p := stored_percent count total in
      percent_ok total count p && (prev <=? p) &&
      percent_chain total k (count + 1) p
  end.

Definition percent_ok_upto (bound : nat) : bool :=
  forall_range
    (fun total => percent_chain total (Z.to_nat total + 1) 0 0)
    bound 1.

(** ** Further operations of the registry *)

(** [add_downloaded_file] called once for each path, in order. *)
Definition add_downloaded_files (jid : string) (paths : list string)
    (w : World) : World :=
  fold_left (fun w1 p => add_downloaded_file jid p w1) paths w.

(** The record [create_job] stores. *)
Definition created_job (uuid : string) (total : Z) (path : string)
    : JobStatusResponse :=
  {| job_id := uuid; status := PENDING; progress := 0;
     current_track := None; total_tracks := total;
     completed_tracks := 0; failed_tracks := 0; skipped_tracks := 0;
     error_message := None; download_path := Some path;
     downloaded_files := [] |}.

(** Two records agree on every field but the status and the message. *)
Definition same_but_status (j j' : JobStatusResponse) : Prop :=
  job_id j' = job_id j /\ progress j' = progress j /\
  current_track j' = current_track j /\ total_tracks j' = total_tracks j /\
  completed_tracks j' = completed_tracks j /\
  failed_tracks j' = failed_tracks j /\
  skipped_tracks j' = skipped_tracks j /\
  download_path j' = download_path j /\
  downloaded_files j' = downloaded_files j.

(** Two records agree on every field but the file list. *)
Definition same_but_files (j j' : JobStatusResponse) : Prop :=
  job_id j' = job_id j /\ status j' = status j /\ progress j' = progress j /\
  current_track j' = current_track j /\ total_tracks j' = total_tracks j /\
  completed_tracks j' = completed_tracks j /\
  failed_tracks j' = failed_tracks j /\
  skipped_tracks j' = skipped_tracks j /\
  error_message j' = error_message j /\
  download_path j' = download_path j.

(** [cleanup_job_files], lines 84 to 90: the loop over the recorded
    files; a file that is there is removed, and a failure is logged and
    the loop goes on. *)
Fixpoint cleanup_files (env : Env) (paths : list string) : M unit :=
  match paths with
  | [] => ret tt
  | file_path :: rest =>
      mtry (let* there := os_path_exists file_path in
            if there then os_remove env file_path else ret tt)
           (fun _ => ret tt) >>
      cleanup_files env rest
  end.

(** The files part of [cleanup_job_files] for a job of the registry: an
    unknown id does nothing. *)
Definition cleanup_job_files (env : Env) (jid : string) (w : World) : M unit :=
  match job_of w jid with
  | Some job => cleanup_files env (downloaded_files job)
  | None => ret tt
  end.

(** ** server_spotidownloader.py: serving the files of a job *)

(** What an endpoint hands back: a value, an [HTTPException] with its
    status code and detail, or an exception that no handler catches. *)
Inductive Reply (A : Type) : Type :=
  | Served (a : A)
  | HTTPException (code : Z) (detail : string)
  | Unhandled (msg : string).
Arguments Served {A} a.
Arguments HTTPException {A} code detail.
Arguments Unhandled {A} msg.

(** [l[i]] on a list: a negative index counts from the end. *)
Definition py_index {A : Type} (l : list A) (i : Z) : result A :=
  let n := Z.of_nat (List.length l) in
  let k := if i <? 0 then n + i else i in
  if ((0 <=? k) && (k <? n))%bool then
    match nth_error l (Z.to_nat k) with
    | Some x => Ok x
    | None => Raise "list index out of range"
    end
  else Raise "list index out of range".

(** [os.path.basename] (POSIX): what follows the last separator. *)
Fixpoint basename_from (acc s : string) : string :=
  match s with
  | EmptyString => acc
  | String c rest =>
      if Ascii.eqb c "/" then basename_from "" rest
      else basename_from (acc +:+ String c "") rest
  end.

Definition basename (p : string) : string := basename_from "" p.

Record FileResponse : Type := {
  fr_path : string;
  fr_filename : string;
  fr_media_type : string
}.

(** [download_single_file]; [files] is the file system at the time of the
    request. *)
Definition download_single_file (w : World) (files : gmap string File)
    (jid : string) (file_index : Z) : Reply FileResponse :=
  match job_of w jid with
  | None => HTTPException 404 "Job not found"
  | Some job_status =>
      if (match downloaded_files job_status with [] => true | _ => false end
          || (Z.of_nat (List.length (downloaded_files job_status)) <=? file_index))%bool
      then HTTPException 404 "File not found"
      else
        match py_index (downloaded_files job_status) file_index with
        | Raise msg => Unhandled msg
        | Ok file_path =>
            if negb (bool_decide (is_Some (files !! file_path)))
            then HTTPException 404 "File no longer exists"
            else
              Served {| fr_path := file_path;
                        fr_filename := basename file_path;
                        fr_media_type :=
                          if endswith file_path ".mp3" then "audio/mpeg"
                          else "audio/flac" |}
        end
  end.

(** The archive written by [download_job_files]: its members, in order,
    under their base names. *)
Fixpoint zip_members (files : gmap string File) (paths : list string)
    : list (string * File) :=
  match paths with
  | [] => []
  | file_path :: rest =>
      match files !! file_path with
      | Some f => (basename file_path, f) :: zip_members files rest
      | None => zip_members files rest
      end
  end.

Record ZipResponse : Type := {
  zr_filename : string;
  zr_members : list (string * File)
}.

(** [download_job_files]; [zip_error] is what the writing of the archive
    raises, if it does. *)
Definition download_job_files (zip_error : option string) (w : World)
    (files : gmap string File) (jid : string) : Reply ZipResponse :=
  match job_of w jid with
  | None => HTTPException 404 "Job not found"
  | Some job_status =>
      if negb (bool_decide (status job_status = COMPLETED))
      then HTTPException 400 "Job not completed yet"
      else
        match downloaded_files job_status with
        | [] => HTTPException 404 "No files to download"
        | _ :: _ =>
            match zip_error with
            | Some e => HTTPException 500 ("Failed to create download: " +:+ e)
            | None =>
                Served {| zr_filename :=
                            "spotify_download_" +:+ substring 0 8 jid +:+ ".zip";
                          zr_members :=
                            zip_members files (downloaded_files job_status) |}
            end
        end
  end.

(** ** Further definitions on file names and fetches *)

(** The character [c] occurs in [s]. *)
Fixpoint occurs (c : ascii) (s : string) : bool :=
  match s with
  | EmptyString => false
  | String d rest => (Ascii.eqb c d || occurs c rest)%bool
  end.

(** The characters matched by the pattern of the file names. *)
Definition forbidden_chars : list ascii :=
  ["<"; ">"; ":"; dquote; "/"; "\"; "|"; "?"; "*"]%char.

(** The name of the file of a track inside its directory. *)
Definition track_filename (track : TrackInfo) (extension filename_format : string)
    (use_track_numbers : bool) : string :=
  if use_track_numbers
  then format_02d (track_number track) +:+ " - " +:+
       get_formatted_filename track extension filename_format
  else get_formatted_filename track extension filename_format.

(** The link carried by the answer of the provider to the request for the
    primary link, if it carries one. *)
Definition link_of (answer : result Response) : option string :=
  match answer with
  | Raise _ => None
  | Ok response =>
      if status_code response =? 200 then
        match json response with
        | Raise _ => None
        | Ok data =>
            if j_success data then
              match j_link data with
              | Some link => if String.eqb link "" then None else Some link
              | None => None
              end
            else None
        end
      else None
  end.

(** The request for the primary link of a track. *)
Definition link_request (token : string) (track : TrackInfo) : Request :=
  Post download_url_api (api_headers token) (id track) false.

(** ** A batch run from its start to its end *)

(** What the pipeline makes of the result of a fetch. *)
Inductive Outcome : Type :=
  | TrackDone (path : string)
  | TrackSkipped
  | TrackFailed.

Definition outcome_of (r : bool * string) : Outcome :=
  let '(success, result) := r in
  if success then
    if String.eqb result "File already exists - skipped" then TrackSkipped
    else TrackDone result
  else TrackFailed.

Definition done_paths (outcomes : list Outcome) : list string :=
  omap (fun o => match o with TrackDone p => Some p | _ => None end) outcomes.

Definition is_skipped (o : Outcome) : bool :=
  match o with TrackSkipped => true | _ => false end.

Definition is_failed (o : Outcome) : bool :=
  match o with TrackFailed => true | _ => false end.

Definition count_skipped (outcomes : list Outcome) : Z :=
  Z.of_nat (List.length (List.filter is_skipped outcomes)).

Definition count_failed (outcomes : list Outcome) : Z :=
  Z.of_nat (List.length (List.filter is_failed outcomes)).

Section Batch.

Variable format_error_for_display :
  option Z -> string -> string -> string -> string.

(** The outcome of the fetch of [track] in the batch [a], against the
    provider and the files of [ef]. *)
Definition fetch_outcome (a : BatchArgs) (track : TrackInfo)
    (ef : Env * gmap string File) : Outcome :=
  outcome_of
    (snd (download_track_async format_error_for_display (fst ef) track
            (track_outpath a track) (b_token a) (b_prefer_flac a)
            (b_filename_format a) (b_use_track_numbers a)
            {| fs := snd ef; log := [] |})).

(** The coroutine of a batch resumed once for each entry of [sched], with
    no cancellation in between. *)
Fixpoint run_coro (sched : list (Env * gmap string File)) (a : BatchArgs)
    (co : Coro) (w : World) : World * Coro :=
  match sched with
  | [] => (w, co)
  | (env, files) :: sched' =>
      let '(w1, co1) :=
        resume format_error_for_display env files
          {| args := a; coro := co; must_cancel := false |} w in
      run_coro sched' a co1 w1
  end.

End Batch.

(** The resumptions of a batch whose directories can all be created: the
    start, and for each track the return of its fetch, against the
    provider and the files of that moment, and the end of the pacing
    delay. *)
Definition schedule (env0 : Env) (fetches : list (Env * gmap string File))
    : list (Env * gmap string File) :=
  (env0, ∅) :: flat_map (fun ef => [ef; (env0, ∅)]) fetches.

(** Two records agree on the fields that a batch never assigns. *)
Definition same_static (j j' : JobStatusResponse) : Prop :=
  job_id j' = job_id j /\ total_tracks j' = total_tracks j /\
  error_message j' = error_message j /\ download_path j' = download_path j.

(** ** The files of a job and its counters *)

(** The list of files of the job of a task against the counters, by the
    point the task is at: between the return of a fetch and the next
    report the list can be one file ahead of the counter of the record. *)
Definition files_ok (co : Coro) (job : JobStatusResponse) : Prop :=
  let n := Z.of_nat (List.length (downloaded_files job)) in
  0 <= completed_tracks job /\ 0 <= failed_tracks job /\
  0 <= skipped_tracks job /\
  match co with
  | NotStarted => n = 0 /\ completed_tracks job = 0
  | AwaitFetch _ _ _ c f s =>
      0 <= f /\ 0 <= s /\ n = c /\ completed_tracks job = c /\
      failed_tracks job = f /\ skipped_tracks job = s
  | AwaitSleep _ c f s =>
      0 <= f /\ 0 <= s /\ n = c /\
      completed_tracks job <= c <= completed_tracks job + 1
  | Returned => n = completed_tracks job
  | Crashed _ =>
      completed_tracks job <= n <= completed_tracks job + 1 /\
      is_terminal (status job) = false
  | Cancelled => completed_tracks job <= n <= completed_tracks job + 1
  end.

Definition Acc (w : World) : Prop :=
  forall t task job,
    tasks w !! t = Some task ->
    job_of w (b_job_id (args task)) = Some job ->
    files_ok (coro task) job.

(** ** The paths a fetch works on *)

(** From state [s] to state [s1] only paths in [P] have changed. *)
Definition frame (P : string -> Prop) (s s1 : St) : Prop :=
  forall p, ~ P p -> fs s1 !! p = fs s !! p.

(** A computation that changes paths in [P] only. *)
Definition keeps {A : Type} (P : string -> Prop) (m : M A) : Prop :=
  forall s, frame P s (fst (m s)).

(** The destination of a track and its temporary sibling, for the primary
    format and, when the lossless format is preferred, for that one too. *)
Definition fetch_paths (track : TrackInfo) (outpath filename_format : string)
    (use_track_numbers prefer_flac : bool) (p : string) : Prop :=
  let mp3 :=
    track_filepath track outpath ".mp3" filename_format use_track_numbers in
  let flac :=
    track_filepath track outpath ".flac" filename_format use_track_numbers in
  p = mp3 \/ p = mp3 +:+ ".tmp" \/
  (prefer_flac = true /\ (p = flac \/ p = flac +:+ ".tmp")).

(** ** The end of the loop, the lossless format, and a cancelled write *)

(** The directory of [track] cannot be created: line 309 raises, and the
    loop counts the track as failed and goes on, without a fetch. *)
Definition mkdir_fails (env : Env) (a : BatchArgs) (track : TrackInfo)
    : Prop :=
  b_is_playlist a = true /\ mkdir_error env (track_outpath a track) <> None.

(** A FLAC file of 30 MB, which the MP3 parser rejects. *)
Definition good_flac : File :=
  {| size := 30000000; mp3_length := Raise "can't sync to MPEG frame" |}.

(** A provider that has every track in the lossless format and serves
    the given payload. *)
Definition lossless_provider (payload : File) : Env :=
  {| net := fun r =>
       match r with
       | Post _ _ _ lossless =>
           Ok {| status_code := 200; text := "";
                 json := Ok {| j_success := true; j_error := None;
                               j_message := None;
                               j_link :=
                                 Some (if lossless
                                       then "https://cdn.example.com/a.flac"
                                       else "https://cdn.example.com/a");
                               j_flacAvailable := true |};
                 content := payload |}
       | Get _ _ =>
           Ok {| status_code := 200; text := ""; json := Raise "not JSON";
                 content := payload |}
       end;
     remove_error := fun _ => None;
     rename_error := fun _ _ => None;
     write_error := fun _ _ => None;
     save_result := fun _ f => (f, None);
     mkdir_error := fun _ => None |}.

(** A disk that fills up while the tags are saved: [audio.save()] raises
    and leaves a file cut short. *)
Definition failing_save : Env :=
  {| net := net (serving good_mp3);
     remove_error := fun _ => None;
     rename_error := fun _ _ => None;
     write_error := fun _ _ => None;
     save_result := fun _ _ => (truncated_file, Some "No space left on device");
     mkdir_error := fun _ => None |}.



(** * Properties *)

(** ** The embedding on sample inputs *)

Example filepath_numbered :
  track_filepath sample_track "downloads" ".mp3" "title_artist" true
  = "downloads/03 - Song - Ann, Bob.mp3".
Proof. reflexivity. Qed.

Example filepath_sanitized :
  get_formatted_filename
    {| id := "x"; title := "AC/DC: Live?"; artists := "A"; album := "";
       track_number := 1; duration_ms := 0; isrc := ""; image_url := "";
       release_date := "" |} ".flac" "artist_title"
  = "A - AC_DC_ Live_.flac".
Proof. reflexivity. Qed.

Example format_02d_samples :
  format_02d 7 = "07" /\ format_02d 12 = "12" /\ format_02d 123 = "123".
Proof. repeat split. Qed.

Example host_of_url_sample :
  host_of_url "https://cdn.example.com/a/b.mp3" = Ok "cdn.example.com" /\
  host_of_url "no-scheme" = Raise "list index out of range".
Proof. split; reflexivity. Qed.

Example progress_percent_samples :
  progress_percent 1 0 0 3 = Ok 33 /\ progress_percent 1 1 0 3 = Ok 66 /\
  progress_percent 1 1 1 3 = Ok 100 /\
  progress_percent 0 0 0 0 = Raise "division by zero".
Proof. vm_compute. repeat split. Qed.

Example checker_samples :
  is_valid_existing_file (probe_fs {["a.mp3" := good_mp3]}) "a.mp3" = Ok true /\
  is_valid_existing_file (probe_fs {["a.mp3" := truncated_file]}) "a.mp3"
  = Ok false /\
  is_valid_existing_file (probe_fs ∅) "a.mp3" = Ok false.
Proof. vm_compute. repeat split. Qed.

(** ** The validity checker *)

(** C8: the checker never raises, and its verdict is the one of the
    validity rule: false for a missing path or a size under 100,000 bytes;
    otherwise true for a file that parses as MP3 with a positive duration;
    when the parse fails, true exactly for a [.flac] path of more than
    500,000 bytes; false in every other case, exceptions included. *)
Theorem is_valid_existing_file_rule (probe : string -> Probe) (path : string) :
  is_valid_existing_file probe path = Ok (validity_rule probe path).
Proof.
  unfold is_valid_existing_file, validity_rule.
  destruct (p_exists (probe path)); simpl; [|reflexivity].
  destruct (p_getsize (probe path)) as [sz|msg]; simpl; [|reflexivity].
  destruct (sz <? 100000); [reflexivity|].
  destruct (p_mp3_length (probe path)) as [len|msg]; simpl.
  - destruct (float_gt_zero len); reflexivity.
  - destruct (endswith (lower path) ".flac" && (500000 <? sz))%bool; reflexivity.
Qed.

(** Two consequences of the shape of the checker, for the fetcher. *)
Lemma checker_never_raises (probe : string -> Probe) (path : string) :
  exists b, is_valid_existing_file probe path = Ok b.
Proof.
  unfold is_valid_existing_file.
  destruct (p_exists (probe path)); simpl; [|eauto].
  destruct (p_getsize (probe path)) as [sz|msg]; simpl; [|eauto].
  destruct (sz <? 100000); [eauto|].
  destruct (p_mp3_length (probe path)) as [len|msg]; simpl.
  - destruct (float_gt_zero len); eauto.
  - destruct (endswith (lower path) ".flac" && (500000 <? sz))%bool; eauto.
Qed.

Lemma checker_accepts (probe : string -> Probe) (path : string) :
  is_valid_existing_file probe path = Ok true <->
  p_exists (probe path) = true /\
  exists sz, p_getsize (probe path) = Ok sz /\ (sz <? 100000) = false /\
    ((exists len, p_mp3_length (probe path) = Ok len /\
                  float_gt_zero len = true) \/
     (exists msg, p_mp3_length (probe path) = Raise msg /\
                  endswith (lower path) ".flac" = true /\
                  (500000 <? sz) = true)).
Proof.
  unfold is_valid_existing_file.
  destruct (p_exists (probe path)); simpl.
  2:{ split; [discriminate|]. intros [H _]. discriminate. }
  destruct (p_getsize (probe path)) as [sz|msg]; simpl.
  2:{ split; [discriminate|]. intros (_ & sz & H & _). discriminate. }
  destruct (sz <? 100000) eqn:Hsz.
  { split; [discriminate|]. intros (_ & sz' & H & Hlt & _).
    injection H as <-. congruence. }
  destruct (p_mp3_length (probe path)) as [len|msg]; simpl.
  - destruct (float_gt_zero len) eqn:Hlen; simpl.
    + split; [|reflexivity]. intros _. split; [reflexivity|].
      exists sz. split; [reflexivity|]. split; [assumption|]. left. eauto.
    + split; [discriminate|].
      intros (_ & sz' & _ & _ & [(len' & H & Hgt)|(msg & H & _)]);
        [injection H as <-; congruence|discriminate].
  - destruct (endswith (lower path) ".flac") eqn:Hext;
      destruct (500000 <? sz) eqn:Hbig; simpl;
      try (split; [discriminate|];
           intros (_ & sz' & H & _ & [(len' & H' & _)|(msg' & _ & He & Hb)]);
           [discriminate|injection H as <-; congruence]).
    split; [|reflexivity]. intros _. split; [reflexivity|].
    exists sz. split; [reflexivity|]. split; [assumption|]. right. eauto.
Qed.

(** ** The registry on unknown ids *)

(** C10: with a job id that is not in the registry, [update_job_status],
    [update_job_progress] and [add_downloaded_file] return normally and
    leave the whole state as it was. *)
Theorem unknown_job_is_noop (w : World) (jid : string) :
  jobs w !! jid = None ->
  (forall s msg, update_job_status jid s msg w = w) /\
  (forall label c f s, update_job_progress jid label c f s w = (w, Ok tt)) /\
  (forall path, add_downloaded_file jid path w = w).
Proof.
  intros Hnone.
  unfold update_job_status, update_job_progress, add_downloaded_file.
  rewrite Hnone. auto.
Qed.

Lemma unknown_job_is_noop_witness :
  jobs JobManager_init !! "4f1c" = None /\
  update_job_status "4f1c" RUNNING None JobManager_init = JobManager_init.
Proof.
  split; [reflexivity|].
  apply (unknown_job_is_noop JobManager_init "4f1c"). reflexivity.
Defined.

(** ** The registry operations as in-place changes of one record *)

Lemma with_objs_same (w : World) : with_objs (objs w) w = w.
Proof. destruct w; reflexivity. Qed.

Lemma update_job_status_touch jid s msg w :
  update_job_status jid s msg w = touch (status_update s msg) jid w.
Proof.
  unfold update_job_status, touch, status_update.
  destruct (jobs w !! jid) as [l|]; [|reflexivity].
  destruct (truthy msg); [|reflexivity].
  unfold with_objs; simpl. f_equal.
  rewrite alter_alter_eq. reflexivity.
Qed.

Lemma update_job_progress_touch jid label c f s w :
  fst (update_job_progress jid label c f s w)
  = touch (progress_update label c f s) jid w.
Proof.
  unfold update_job_progress, touch.
  destruct (jobs w !! jid) as [l|]; [|reflexivity].
  destruct (objs w !! l) as [job|] eqn:Hl.
  - assert (Hal : alter (progress_update label c f s) l (objs w)
                  = <[l := progress_update label c f s job]> (objs w)).
    { apply map_eq; intros k. destruct (decide (l = k)) as [->|Hne].
      - rewrite lookup_alter_eq, lookup_insert_eq, Hl. reflexivity.
      - rewrite lookup_alter_ne, lookup_insert_ne by done. reflexivity. }
    rewrite Hal. unfold progress_update.
    destruct (progress_percent c f s (total_tracks job)); reflexivity.
  - simpl. rewrite alter_id' by done.
    symmetry; apply with_objs_same.
Qed.

Lemma update_job_progress_raise jid label c f s w msg :
  snd (update_job_progress jid label c f s w) = Raise msg ->
  exists job, job_of w jid = Some job /\
    progress_percent c f s (total_tracks job) = Raise msg.
Proof.
  unfold update_job_progress, job_of.
  destruct (jobs w !! jid) as [l|]; simpl; [|discriminate].
  destruct (objs w !! l) as [job|]; simpl; [|discriminate].
  destruct (progress_percent c f s (total_tracks job)) eqn:E; simpl; [discriminate|].
  intros [= ->]. eauto.
Qed.

Lemma add_downloaded_file_touch jid path w :
  add_downloaded_file jid path w = touch (append_file path) jid w.
Proof. reflexivity. Qed.

Lemma touch_jobs F jid w : jobs (touch F jid w) = jobs w.
Proof. unfold touch. destruct (jobs w !! jid); reflexivity. Qed.

Lemma touch_job_tasks F jid w : job_tasks (touch F jid w) = job_tasks w.
Proof. unfold touch. destruct (jobs w !! jid); reflexivity. Qed.

Lemma touch_tasks F jid w : tasks (touch F jid w) = tasks w.
Proof. unfold touch. destruct (jobs w !! jid); reflexivity. Qed.

Lemma touch_job_of_same F jid w :
  job_of (touch F jid w) jid = F <$> job_of w jid.
Proof.
  unfold touch, job_of.
  destruct (jobs w !! jid) as [l|] eqn:Hj; simpl; rewrite Hj; simpl; [|reflexivity].
  rewrite lookup_alter_eq. reflexivity.
Qed.

Lemma touch_job_of_other F jid w k :
  well_formed w -> k <> jid -> job_of (touch F jid w) k = job_of w k.
Proof.
  intros [_ Hinj] Hne. unfold touch, job_of.
  destruct (jobs w !! jid) as [l|] eqn:Hj; simpl; [|reflexivity].
  destruct (jobs w !! k) as [l'|] eqn:Hk; simpl; [|reflexivity].
  rewrite lookup_alter_ne; [reflexivity|].
  intros ->. apply Hne. eapply Hinj; eauto.
Qed.

Lemma touch_well_formed F jid w : well_formed w -> well_formed (touch F jid w).
Proof.
  intros [Hdom Hinj]. unfold touch.
  destruct (jobs w !! jid) as [l|] eqn:Hj; [|split; assumption].
  split; simpl.
  - intros k l' Hk. destruct (decide (l = l')) as [->|Hne].
    + rewrite lookup_alter_eq. destruct (Hdom _ _ Hk) as [x ->]. eauto.
    + rewrite lookup_alter_ne by done. eauto.
  - exact Hinj.
Qed.

(** ** Cancellation *)

(** C5: cancelling a job whose registered task has finished returns false
    and changes nothing; cancelling a job whose registered task is live
    marks the task for cancellation, sets the status of the job to Failed
    with the message of a user cancellation at once, while the task has
    not stopped yet, and returns true. *)
Theorem cancel_job_spec (w : World) (jid : string) (t : tid) (task : Task) :
  job_tasks w !! jid = Some t ->
  tasks w !! t = Some task ->
  (done task = true -> cancel_job jid w = (w, false)) /\
  (done task = false ->
     snd (cancel_job jid w) = true /\
     (exists task', tasks (fst (cancel_job jid w)) !! t = Some task' /\
        coro task' = coro task /\ args task' = args task /\
        must_cancel task' = true /\ done task' = false) /\
     (forall t', t' <> t ->
        tasks (fst (cancel_job jid w)) !! t' = tasks w !! t') /\
     jobs (fst (cancel_job jid w)) = jobs w /\
     job_tasks (fst (cancel_job jid w)) = job_tasks w /\
     job_of (fst (cancel_job jid w)) jid
     = (fun job =>
          set_error_message (Some "Job cancelled by user") (set_status FAILED job))
       <$> job_of w jid /\
     (well_formed w -> forall k, k <> jid ->
        job_of (fst (cancel_job jid w)) k = job_of w k)).
Proof.
  intros Hjt Ht. unfold cancel_job. rewrite Hjt, Ht. split.
  - intros ->. reflexivity.
  - intros Hlive. rewrite Hlive. simpl.
    rewrite update_job_status_touch.
    rewrite touch_tasks, touch_jobs, touch_job_tasks. simpl.
    split; [reflexivity|]. split.
    { unfold task_cancel. rewrite Hlive. simpl.
      rewrite lookup_insert_eq. eexists. split; [reflexivity|].
      simpl. repeat split; try reflexivity.
      unfold done in *. simpl. exact Hlive. }
    split.
    { intros t' Hne. rewrite lookup_insert_ne by done. reflexivity. }
    split; [reflexivity|]. split; [reflexivity|]. split.
    { rewrite touch_job_of_same. reflexivity. }
    intros Hwf k Hne. rewrite touch_job_of_other; [reflexivity| |assumption].
    exact Hwf.
Qed.

Lemma cancel_job_spec_witness :
  let w := start_download "job-1" (sample_batch [sample_track]) JobManager_init in
  snd (cancel_job "job-1" w) = true /\
  (status <$> job_of (fst (cancel_job "job-1" w)) "job-1") = Some FAILED.
Proof.
  intros w.
  assert (Hjt : job_tasks w !! "job-1" = Some 0%nat) by (vm_compute; reflexivity).
  assert (Ht : exists task, tasks w !! 0%nat = Some task /\ done task = false).
  { eexists. split; vm_compute; reflexivity. }
  destruct Ht as [task [Ht Hlive]].
  destruct (cancel_job_spec w "job-1" 0%nat task Hjt Ht) as [_ H].
  destruct (H Hlive) as (Hret & _ & _ & _ & _ & Hjob & _).
  split; [exact Hret|].
  rewrite Hjob. vm_compute. reflexivity.
Defined.

(** ** The percentage *)

(** C6: evaluation of [update_job_progress] on a job of 100 tracks after
    29 of them: the quotient 29/100 is the double just below 0.29, its
    product with 100 rounds to 28.999999999999996, and the truncation
    stores 28, whereas the floor of 100 * 29 / 100 is 29. *)
Theorem progress_of_29_in_100 :
  (total_tracks <$> job_of hundred_tracks_job "job-1") = Some 100 /\
  (progress <$>
     job_of (fst (update_job_progress "job-1" "Song - Ann" 29 0 0
                    hundred_tracks_job)) "job-1") = Some 28 /\
  snd (update_job_progress "job-1" "Song - Ann" 29 0 0 hundred_tracks_job)
  = Ok tt /\
  100 * (29 + 0 + 0) / 100 = 29.
Proof. vm_compute. repeat split; reflexivity. Qed.

(** When every track is accounted for, the division is exact. *)
Lemma int_truediv_diag (n : Z) :
  0 < n -> int_truediv n n = Ok (S754_finite false 4503599627370496 (-52)).
Proof.
  intros Hn. unfold int_truediv.
  destruct n as [|p|p]; try lia.
  replace (Z.pos p =? 0) with false by reflexivity.
  cbn [float_of_int_exact SFdiv].
  unfold SFdiv_core_binary.
  replace (Zdigits2 (Z.pos p) + 0 - (Zdigits2 (Z.pos p) + 0)) with 0 by lia.
  replace (Z.min (fexp prec emax 0) (0 - 0)) with (-53) by reflexivity.
  replace (0 - 0 - -53) with 53 by reflexivity.
  assert (Hdiv : Z.div_eucl (Z.shiftl (Z.pos p) 53) (Z.pos p)
                 = (9007199254740992, 0)).
  { rewrite Z.shiftl_mul_pow2 by lia.
    pose proof (Z.div_mul (2 ^ 53) (Z.pos p) ltac:(lia)) as Hq.
    pose proof (Z.mod_mul (2 ^ 53) (Z.pos p) ltac:(lia)) as Hr.
    rewrite Z.mul_comm.
    unfold Z.div in Hq. unfold Z.modulo in Hr.
    destruct (Z.div_eucl (2 ^ 53 * Z.pos p) (Z.pos p)) as [q r].
    simpl in Hq, Hr. subst. reflexivity. }
  rewrite Hdiv.
  assert (Hloc : new_location (Z.pos p) 0 = loc_Exact).
  { unfold new_location, new_location_even, new_location_odd.
    destruct (Z.even (Z.pos p)); reflexivity. }
  rewrite Hloc. vm_compute. reflexivity.
Qed.

Lemma progress_percent_full (c f s total : Z) :
  0 < total -> c + f + s = total -> progress_percent c f s total = Ok 100.
Proof.
  intros Hpos Hsum. unfold progress_percent. rewrite Hsum.
  rewrite int_truediv_diag by assumption. vm_compute. reflexivity.
Qed.

(** ** Copies of the registry dictionary *)

Lemma observe_get_all_jobs (w w' : World) (k : string) :
  jobs w' = jobs w -> observe (get_all_jobs w) w' k = job_of w' k.
Proof. intros H. unfold observe, get_all_jobs, job_of. rewrite H. reflexivity. Qed.

Lemma fresh_loc_unused (w : World) (k : string) (l : loc) :
  well_formed w -> jobs w !! k = Some l -> l <> fresh (dom (objs w)).
Proof.
  intros [Hdom _] Hk Heq.
  destruct (Hdom _ _ Hk) as [job Hjob].
  apply (is_fresh (dom (objs w))). rewrite <- Heq.
  apply elem_of_dom. eauto.
Qed.

(** C9, as the code has it: the dictionary returned by [get_all_jobs] is a
    copy, so a job created or the finished jobs swept afterwards do not
    change what is read through it; the records in it are the ones of the
    registry, so an update of the status, of the progress and counts, or of
    the file list of a job afterwards is read through it as well. *)
Theorem get_all_jobs_shares_records (w : World) :
  well_formed w ->
  (forall uuid total path k,
     observe (get_all_jobs w) (fst (create_job uuid total path w)) k
     = observe (get_all_jobs w) w k) /\
  (forall uuid total path,
     get_all_jobs w !! uuid = None ->
     get_all_jobs (fst (create_job uuid total path w)) !! uuid <> None) /\
  (forall k,
     observe (get_all_jobs w) (cleanup_finished_jobs w) k
     = observe (get_all_jobs w) w k) /\
  (forall jid s msg,
     observe (get_all_jobs w) (update_job_status jid s msg w) jid
     = status_update s msg <$> observe (get_all_jobs w) w jid) /\
  (forall jid label c f s,
     observe (get_all_jobs w) (fst (update_job_progress jid label c f s w)) jid
     = progress_update label c f s <$> observe (get_all_jobs w) w jid) /\
  (forall jid path,
     observe (get_all_jobs w) (add_downloaded_file jid path w) jid
     = append_file path <$> observe (get_all_jobs w) w jid).
Proof.
  intros Hwf. repeat match goal with |- _ /\ _ => split end.
  - intros uuid total path k. unfold observe, get_all_jobs, create_job. simpl.
    destruct (jobs w !! k) as [l|] eqn:Hk; simpl; [|reflexivity].
    rewrite lookup_insert_ne; [reflexivity|].
    intros Heq. symmetry in Heq. revert Heq. eapply fresh_loc_unused; eauto.
  - intros uuid total path _. unfold get_all_jobs, create_job. simpl.
    rewrite lookup_insert_eq. discriminate.
  - intros k. reflexivity.
  - intros jid s msg. rewrite update_job_status_touch.
    rewrite observe_get_all_jobs by apply touch_jobs.
    rewrite touch_job_of_same. reflexivity.
  - intros jid label c f s. rewrite update_job_progress_touch.
    rewrite observe_get_all_jobs by apply touch_jobs.
    rewrite touch_job_of_same. reflexivity.
  - intros jid path. rewrite add_downloaded_file_touch.
    rewrite observe_get_all_jobs by apply touch_jobs.
    rewrite touch_job_of_same. reflexivity.
Qed.

Lemma two_tracks_job_well_formed : well_formed two_tracks_job.
Proof.
  split.
  - intros jid l. unfold two_tracks_job, create_job. simpl.
    intros H. apply lookup_insert_Some in H as [[_ <-]|[_ H]].
    + rewrite lookup_insert_eq. eauto.
    + rewrite lookup_empty in H. discriminate.
  - intros j1 j2 l. unfold two_tracks_job, create_job. simpl.
    intros H1 H2.
    apply lookup_insert_Some in H1 as [[<- _]|[_ H1]];
      [|rewrite lookup_empty in H1; discriminate].
    apply lookup_insert_Some in H2 as [[<- _]|[_ H2]];
      [|rewrite lookup_empty in H2; discriminate].
    reflexivity.
Qed.

Lemma get_all_jobs_shares_records_witness :
  (status <$>
     observe (get_all_jobs two_tracks_job)
       (update_job_status "job-1" RUNNING None two_tracks_job) "job-1")
  = Some RUNNING.
Proof.
  destruct (get_all_jobs_shares_records two_tracks_job
              two_tracks_job_well_formed) as (_ & _ & _ & H & _).
  rewrite H. vm_compute. reflexivity.
Defined.

(** C9, as stated, fails: a status update made after [get_all_jobs] is
    read through the dictionary it returned. *)
Lemma get_all_jobs_is_not_a_deep_copy :
  observe (get_all_jobs two_tracks_job)
    (update_job_status "job-1" RUNNING None two_tracks_job) "job-1"
  <> observe (get_all_jobs two_tracks_job) two_tracks_job "job-1".
Proof. vm_compute. discriminate. Qed.

(** ** The track fetcher *)

(** C4: when the path computed for the track (with the primary extension)
    holds a file that the validity checker accepts, the fetch returns the
    skip result, leaves the files as they are, and records no network
    request: its only event is the check itself. *)
Theorem valid_file_is_skipped (fmt : option Z -> string -> string -> string -> string)
    (env : Env) (track : TrackInfo) (outpath token : string)
    (prefer_flac : bool) (filename_format : string) (use_track_numbers : bool)
    (files : gmap string File) :
  is_valid_existing_file (probe_fs files)
    (track_filepath track outpath ".mp3" filename_format use_track_numbers)
  = Ok true ->
  download_track_async fmt env track outpath token prefer_flac filename_format
    use_track_numbers {| fs := files; log := [] |}
  = ({| fs := files;
        log := [EvValidate
                  (track_filepath track outpath ".mp3" filename_format
                     use_track_numbers) true] |},
     (true, "File already exists - skipped")) /\
  filter (fun e => is_network e = true)
    (log (fst (download_track_async fmt env track outpath token prefer_flac
                 filename_format use_track_numbers
                 {| fs := files; log := [] |}))) = [].
Proof.
  intros Hvalid.
  assert (Hrun :
    download_track_async fmt env track outpath token prefer_flac
      filename_format use_track_numbers {| fs := files; log := [] |}
    = ({| fs := files;
          log := [EvValidate
                    (track_filepath track outpath ".mp3" filename_format
                       use_track_numbers) true] |},
       (true, "File already exists - skipped"))).
  { unfold download_track_async, download_track_body, check_valid, mbind,
      get_fs, lift, emit, ret. simpl. rewrite Hvalid. reflexivity. }
  split; [exact Hrun|]. rewrite Hrun. reflexivity.
Qed.

Lemma valid_file_is_skipped_witness :
  snd (download_track_async plain_translator (serving good_mp3) sample_track
         "downloads" "tok" false "title_artist" true
         {| fs := {["downloads/03 - Song - Ann, Bob.mp3" := good_mp3]};
            log := [] |})
  = (true, "File already exists - skipped").
Proof.
  destruct (valid_file_is_skipped plain_translator (serving good_mp3)
              sample_track "downloads" "tok" false "title_artist" true
              {["downloads/03 - Song - Ann, Bob.mp3" := good_mp3]})
    as [H _].
  - vm_compute. reflexivity.
  - rewrite H. reflexivity.
Defined.

(** ** Atomic promotion of downloaded files *)


(** ** Strings *)

Lemma lower_app (a b : string) : lower (a +:+ b) = lower a +:+ lower b.
Proof. induction a as [|c a IH]; simpl; [reflexivity|]. rewrite IH. reflexivity. Qed.

Lemma length_app (a b : string) :
  String.length (a +:+ b) = (String.length a + String.length b)%nat.
Proof. induction a as [|c a IH]; simpl; [reflexivity|]. rewrite IH. reflexivity. Qed.

Lemma substring_whole (s : string) : substring 0 (String.length s) s = s.
Proof. induction s as [|c s IH]; simpl; [reflexivity|]. rewrite IH. reflexivity. Qed.

Lemma substring_suffix (s : string) (k : nat) :
  (k <= String.length s)%nat ->
  exists pre, s = pre +:+ substring k (String.length s - k) s /\
              String.length pre = k.
Proof.
  revert s. induction k as [|k IH]; intros s Hk.
  - exists "". rewrite Nat.sub_0_r, substring_whole. split; reflexivity.
  - destruct s as [|c s]; simpl in Hk; [lia|].
    destruct (IH s ltac:(lia)) as [pre [Hs Hlen]].
    exists (String c pre). split; [|simpl; lia].
    change (String c s = String c (pre +:+ substring k (String.length s - k) s)).
    f_equal. exact Hs.
Qed.

Lemma endswith_app (s suffix : string) :
  endswith s suffix = true -> exists pre, s = pre +:+ suffix.
Proof.
  unfold endswith. intros H. apply andb_true_iff in H as [Hle Heq].
  apply Nat.leb_le in Hle. apply String.eqb_eq in Heq.
  destruct (substring_suffix s (String.length s - String.length suffix) ltac:(lia))
    as [pre [Hs _]].
  replace (String.length s - (String.length s - String.length suffix))%nat
    with (String.length suffix) in Hs by lia.
  rewrite Heq in Hs. eauto.
Qed.

Lemma get_app_right (a b : string) (n : nat) :
  String.get (String.length a + n) (a +:+ b) = String.get n b.
Proof. induction a as [|c a IH]; simpl; [reflexivity|]. exact IH. Qed.

Lemma tmp_is_not_flac (p : string) : endswith (lower (p +:+ ".tmp")) ".flac" = false.
Proof.
  destruct (endswith (lower (p +:+ ".tmp")) ".flac") eqn:E; [|reflexivity].
  apply endswith_app in E as [pre Hpre].
  rewrite lower_app in Hpre.
  change (lower ".tmp") with ".tmp" in Hpre.
  pose proof (f_equal String.length Hpre) as Hlen.
  rewrite !length_app in Hlen. simpl in Hlen.
  pose proof (get_app_right (lower p) ".tmp" 3) as H1.
  pose proof (get_app_right pre ".flac" 4) as H2.
  rewrite Hpre in H1.
  replace (String.length (lower p) + 3)%nat with (String.length pre + 4)%nat in H1 by lia.
  rewrite H2 in H1. simpl in H1. discriminate.
Qed.




Ltac run_m :=
  unfold mbind, mtry, ret, raise, lift, emit, set_fs, get_fs; simpl.

Lemma quiet_nil : quiet [].
Proof. constructor. Qed.

Lemma quiet_cons e evs : is_promotion e = false -> quiet evs -> quiet (e :: evs).
Proof. intros. constructor; assumption. Qed.

Lemma quiet_app evs1 evs2 : quiet evs1 -> quiet evs2 -> quiet (evs1 ++ evs2)%list.
Proof. intros. apply Forall_app. split; assumption. Qed.

Create HintDb quiet.
#[local] Hint Resolve quiet_nil quiet_cons quiet_app : quiet.

Lemma embed_metadata_effect env path track s :
  exists evs,
    snd (embed_metadata env path track s) = Ok tt /\
    log (fst (embed_metadata env path track s)) = (log s ++ evs)%list /\
    quiet evs /\
    (fs (fst (embed_metadata env path track s)) = fs s \/
     exists f,
       fs s !! path = Some f /\
       fs (fst (embed_metadata env path track s))
       = <[path := fst (save_result env path f)]> (fs s)).
Proof.
  unfold embed_metadata. run_m.
  destruct (fs s !! path) as [f|] eqn:Hf; simpl.
  2:{ exists []. rewrite app_nil_r. auto with quiet. }
  destruct (mp3_length f) as [len|msg]; simpl.
  2:{ exists []. rewrite app_nil_r. auto with quiet. }
  destruct (negb (String.eqb (image_url track) "")); simpl.
  - destruct (net env _) as [resp|msg]; simpl;
      destruct (snd (save_result env path f)) as [e|]; simpl;
      (eexists; rewrite <- !app_assoc; simpl;
       split; [reflexivity|]; split; [reflexivity|];
       split; [auto with quiet|]; right; eauto).
  - destruct (snd (save_result env path f)) as [e|]; simpl;
      (eexists; split; [reflexivity|]; split; [reflexivity|];
       split; [auto with quiet|]; right; eauto).
Qed.



(** *** Computations that neither write nor rename *)

















(** *** The stages of a fetch *)


Lemma quiet_ext_refl s : quiet_ext s s.
Proof. exists []. rewrite app_nil_r. auto with quiet. Qed.



Lemma mbind_inv {A B} (m : M A) (k : A -> M B) s s1 r :
  mbind m k s = (s1, r) ->
  (exists sm a, m s = (sm, Ok a) /\ k a sm = (s1, r)) \/
  (exists msg, m s = (s1, Raise msg) /\ r = Raise msg).
Proof.
  unfold mbind. destruct (m s) as [sm [a|msg]]; intros H.
  - left. eauto.
  - right. injection H as <- <-. eauto.
Qed.





(** A payload cut short is rejected and its temporary file removed. *)
Example fetch_of_truncated_payload :
  let run :=
    download_track_async plain_translator (serving truncated_file) sample_track
      "downloads" "tok" false "title_artist" true {| fs := ∅; log := [] |} in
  snd run = (false, corrupted_msg) /\ fs (fst run) = ∅.
Proof. vm_compute. split; reflexivity. Qed.

(** ** The pipeline step by step *)

Lemma touch_touch F G jid w :
  touch F jid (touch G jid w) = touch (F ∘ G) jid w.
Proof.
  unfold touch. destruct (jobs w !! jid) as [l|] eqn:Hj; simpl.
  - rewrite Hj. unfold with_objs; simpl. f_equal. apply alter_alter_eq.
  - rewrite Hj. reflexivity.
Qed.

Lemma touch_id jid w : touch (fun job => job) jid w = w.
Proof.
  unfold touch. destruct (jobs w !! jid) as [l|]; [|reflexivity].
  rewrite alter_id by reflexivity. apply with_objs_same.
Qed.

Lemma update_job_progress_ok jid label c f s w job :
  job_of w jid = Some job ->
  progress_percent c f s (total_tracks job) = Ok 100 ->
  update_job_progress jid label c f s w
  = (touch (progress_update label c f s) jid w, Ok tt).
Proof.
  intros Hjob Hp.
  rewrite <- update_job_progress_touch.
  destruct (update_job_progress jid label c f s w) as [w1 [[]|msg]] eqn:E;
    [reflexivity|].
  destruct (update_job_progress_raise jid label c f s w msg) as (job' & Hj & Hr).
  { rewrite E. reflexivity. }
  rewrite Hjob in Hj. injection Hj as <-. rewrite Hp in Hr. discriminate.
Qed.

Lemma progress_update_fields label c f s job :
  total_tracks (progress_update label c f s job) = total_tracks job /\
  status (progress_update label c f s job) = status job /\
  counted (progress_update label c f s job) = c + f + s /\
  current_track (progress_update label c f s job) = Some label.
Proof.
  unfold progress_update, counted.
  destruct (progress_percent c f s (total_tracks job)); simpl; auto.
Qed.

Lemma progress_update_full label c f s job :
  0 < total_tracks job -> c + f + s = total_tracks job ->
  progress (progress_update label c f s job) = 100.
Proof.
  intros Hpos Hsum. unfold progress_update.
  rewrite progress_percent_full by assumption. reflexivity.
Qed.

Lemma status_update_fields s job :
  total_tracks (status_update s None job) = total_tracks job /\
  status (status_update s None job) = s /\
  counted (status_update s None job) = counted job /\
  current_track (status_update s None job) = current_track job /\
  progress (status_update s None job) = progress job.
Proof. unfold status_update, counted. simpl. auto. Qed.

(** The loop, from its head: the job stays Running with all its tracks
    accounted for at the next suspension point, or it is Completed with
    every track counted. *)
Lemma run_loop_spec env a rest : forall c f s w job,
  job_of w (b_job_id a) = Some job ->
  0 < total_tracks job ->
  status job = RUNNING ->
  counted job <= total_tracks job ->
  c + f + s + Z.of_nat (List.length rest) = total_tracks job ->
  exists F,
    fst (run_loop env a rest c f s w) = touch F (b_job_id a) w /\
    counted (F job) <= total_tracks job /\
    live_ok (total_tracks job) (snd (run_loop env a rest c f s w)) (F job) /\
    (snd (run_loop env a rest c f s w) = Returned \/
     exists track dir rest' c' f' s',
       snd (run_loop env a rest c f s w)
       = AwaitFetch track dir rest' c' f' s').
Proof.
  induction rest as [|track rest IH]; intros c f s w job Hjob Hpos Hst Hcnt Hsum.
  - simpl in Hsum. simpl.
    rewrite (update_job_progress_ok _ _ _ _ _ _ job Hjob)
      by (apply progress_percent_full; lia).
    simpl. rewrite update_job_status_touch, touch_touch.
    eexists. split; [reflexivity|].
    destruct (progress_update_fields "Completed" c f s job) as (Ht & Hs & Hc & Hl).
    destruct (status_update_fields COMPLETED
                (progress_update "Completed" c f s job)) as (Ht' & Hs' & Hc' & Hl' & Hp').
    unfold compose. rewrite Hc', Hc.
    split; [lia|]. split; [|left; reflexivity].
    split; [congruence|].
    rewrite Hs', Hc', Hc, Hl', Hl, Hp'.
    rewrite progress_update_full by lia.
    split; [reflexivity|]. split; [lia|]. split; reflexivity.
  - simpl in Hsum. simpl.
    destruct (if b_is_playlist a then mkdir_error env (track_outpath a track)
              else None) as [msg|].
    + apply IH; try assumption. lia.
    + pose proof (update_job_progress_touch (b_job_id a)
                    (title track +:+ " - " +:+ artists track) c f s w) as Hw1.
      destruct (progress_update_fields (title track +:+ " - " +:+ artists track)
                  c f s job) as (Ht & Hs & Hc & Hl).
      destruct (update_job_progress (b_job_id a)
                  (title track +:+ " - " +:+ artists track) c f s w)
        as [w1 [[]|msg]]; simpl in Hw1; subst w1.
      * simpl. eexists. split; [reflexivity|].
        rewrite Hc. split; [lia|]. split; [|right; eauto 10].
        split; [exact Ht|]. simpl. rewrite Hs. split; [exact Hst|lia].
      * destruct (IH c (f + 1) s
                    (touch (progress_update (title track +:+ " - " +:+ artists track)
                              c f s) (b_job_id a) w)
                    (progress_update (title track +:+ " - " +:+ artists track)
                       c f s job))
          as (F & HF & HFc & HFl & HFr).
        { rewrite touch_job_of_same, Hjob. reflexivity. }
        { rewrite Ht. exact Hpos. }
        { rewrite Hs. exact Hst. }
        { rewrite Hc, Ht. lia. }
        { rewrite Ht. lia. }
        rewrite Ht in *. rewrite touch_touch in HF.
        exists (F ∘ progress_update (title track +:+ " - " +:+ artists track) c f s).
        auto.
Qed.

Lemma run_loop_touch env a rest : forall c f s w,
  exists F, fst (run_loop env a rest c f s w) = touch F (b_job_id a) w.
Proof.
  induction rest as [|track rest IH]; intros c f s w; simpl.
  - pose proof (update_job_progress_touch (b_job_id a) "Completed" c f s w) as H.
    destruct (update_job_progress (b_job_id a) "Completed" c f s w)
      as [w1 [[]|msg]]; simpl in *; subst w1.
    + rewrite update_job_status_touch, touch_touch. eauto.
    + eauto.
  - destruct (if b_is_playlist a then mkdir_error env (track_outpath a track)
              else None) as [msg|]; [apply IH|].
    pose proof (update_job_progress_touch (b_job_id a)
                  (title track +:+ " - " +:+ artists track) c f s w) as H.
    destruct (update_job_progress (b_job_id a)
                (title track +:+ " - " +:+ artists track) c f s w)
      as [w1 [[]|msg]]; simpl in *; subst w1.
    + eauto.
    + destruct (IH c (f + 1) s
                  (touch (progress_update (title track +:+ " - " +:+ artists track)
                            c f s) (b_job_id a) w)) as [F HF].
      rewrite touch_touch in HF. eauto.
Qed.

Lemma resume_tasks fmt env files task w :
  exists F, fst (resume fmt env files task w) = touch F (b_job_id (args task)) w.
Proof.
  unfold resume. destruct (coro task) as [|track dir rest c f s|rest c f s| |msg|].
  - destruct (mkdir_error env (b_outpath (args task))).
    + exists (fun j => j). rewrite touch_id. reflexivity.
    + rewrite update_job_status_touch.
      destruct (run_loop_touch env (args task) (b_tracks (args task)) 0 0 0
                  (touch (status_update RUNNING None) (b_job_id (args task)) w))
        as [F HF].
      rewrite touch_touch in HF. eauto.
  - destruct (download_track_async fmt env track dir (b_token (args task))
                (b_prefer_flac (args task)) (b_filename_format (args task))
                (b_use_track_numbers (args task)) {| fs := files; log := [] |})
      as [s1 [success result]]; simpl.
    destruct success; [destruct (String.eqb result _)|]; simpl.
    + exists (fun j => j). rewrite touch_id. reflexivity.
    + exists (append_file result). reflexivity.
    + exists (fun j => j). rewrite touch_id. reflexivity.
  - apply run_loop_touch.
  - exists (fun j => j). rewrite touch_id. reflexivity.
  - exists (fun j => j). rewrite touch_id. reflexivity.
  - exists (fun j => j). rewrite touch_id. reflexivity.
Qed.

Lemma live_ok_status n co job :
  live_ok n co job ->
  status job <> FAILED /\ status job <> SKIPPED /\
  (status job = COMPLETED -> counted job = n) /\
  (is_terminal (status job) = true -> co = Returned).
Proof.
  intros [Ht Hco].
  destruct co; simpl in Hco; try contradiction;
    repeat match goal with H : _ /\ _ |- _ => destruct H end;
    match goal with H : status job = _ |- _ => rewrite H end;
    simpl;
    (split; [discriminate|]); (split; [discriminate|]);
    (split; [intros; first [discriminate | assumption]
            |intros; first [discriminate | reflexivity]]).
Qed.

Lemma run_loop_status n co job :
  live_ok n co job ->
  (co = Returned \/
   exists track dir rest c f s, co = AwaitFetch track dir rest c f s) ->
  status job = COMPLETED \/ status job = RUNNING.
Proof.
  intros [_ Hco] [->|(? & ? & ? & ? & ? & ? & ->)]; simpl in Hco.
  - left. apply Hco.
  - right. apply Hco.
Qed.

(** One step of the coroutine of a live task keeps its job consistent with
    the point it reaches, and changes no other record. *)
Lemma resume_spec fmt env files task w job :
  job_of w (b_job_id (args task)) = Some job ->
  live_ok (n_tracks task) (coro task) job ->
  0 < n_tracks task ->
  counted job <= total_tracks job ->
  done task = false ->
  exists F,
    fst (resume fmt env files task w) = touch F (b_job_id (args task)) w /\
    counted (F job) <= n_tracks task /\
    live_ok (n_tracks task) (snd (resume fmt env files task w)) (F job) /\
    forward (status job) (status (F job)) = true.
Proof.
  intros Hjob [Htot Hlive] Hpos Hcnt Hdone.
  unfold resume. unfold done in Hdone.
  destruct (coro task) as [|track dir rest c f s|rest c f s| |msg|] eqn:Hco;
    try discriminate; simpl in Hlive.
  - (* the task starts *)
    destruct (mkdir_error env (b_outpath (args task))) as [msg|].
    + exists (fun j => j). rewrite touch_id. simpl.
      split; [reflexivity|]. split; [lia|]. split; [split; assumption|].
      rewrite Hlive. reflexivity.
    + rewrite update_job_status_touch.
      destruct (status_update_fields RUNNING job) as (Ht & Hs & Hc & _).
      destruct (run_loop_spec env (args task) (b_tracks (args task)) 0 0 0
                  (touch (status_update RUNNING None) (b_job_id (args task)) w)
                  (status_update RUNNING None job))
        as (F & HF & HFc & HFl & HFr).
      { rewrite touch_job_of_same, Hjob. reflexivity. }
      { rewrite Ht. lia. }
      { exact Hs. }
      { rewrite Hc, Ht. exact Hcnt. }
      { rewrite Ht, Htot. unfold n_tracks. lia. }
      rewrite Ht, Htot in *. rewrite touch_touch in HF.
      exists (F ∘ status_update RUNNING None).
      split; [exact HF|]. split; [exact HFc|]. split; [exact HFl|].
      rewrite Hlive. unfold compose.
      destruct (run_loop_status _ _ _ HFl HFr) as [-> | ->]; reflexivity.
  - (* the fetch of the current track has returned *)
    destruct Hlive as [Hst Hsum].
    destruct (download_track_async fmt env track dir (b_token (args task))
                (b_prefer_flac (args task)) (b_filename_format (args task))
                (b_use_track_numbers (args task)) {| fs := files; log := [] |})
      as [s1 [success result]]; simpl.
    destruct success; [destruct (String.eqb result _)|].
    + exists (fun j => j). rewrite touch_id. simpl.
      split; [reflexivity|]. split; [lia|].
      split; [split; [assumption|]; simpl; split; [assumption|lia]|].
      rewrite Hst. reflexivity.
    + exists (append_file result). simpl.
      split; [reflexivity|]. split; [unfold counted in *; simpl; lia|].
      split; [split; [assumption|]; simpl; split; [assumption|lia]|].
      rewrite Hst. reflexivity.
    + exists (fun j => j). rewrite touch_id. simpl.
      split; [reflexivity|]. split; [lia|].
      split; [split; [assumption|]; simpl; split; [assumption|lia]|].
      rewrite Hst. reflexivity.
  - (* the pacing delay is over *)
    destruct Hlive as [Hst Hsum].
    destruct (run_loop_spec env (args task) rest c f s w job)
      as (F & HF & HFc & HFl & HFr); try assumption; try lia.
    rewrite Htot in *. exists F.
    split; [exact HF|]. split; [exact HFc|]. split; [exact HFl|].
    rewrite Hst.
    destruct (run_loop_status _ _ _ HFl HFr) as [-> | ->]; reflexivity.
Qed.

(** ** The invariant is kept by every step *)

Lemma task_ok_ext w w' task :
  job_of w' (b_job_id (args task)) = job_of w (b_job_id (args task)) ->
  task_ok w task -> task_ok w' task.
Proof. intros H. unfold task_ok. rewrite H. trivial. Qed.

Lemma Inv_init : Inv JobManager_init.
Proof.
  split; unfold well_formed, job_of, JobManager_init; simpl;
    repeat match goal with |- _ /\ _ => split end;
    intros *; rewrite ?lookup_empty; simpl; discriminate.
Qed.

(** *** Sweeping *)

Lemma sweep_job_of w k :
  job_of (cleanup_finished_jobs w) k
  = if finished w k then None else job_of w k.
Proof.
  unfold job_of at 1. simpl. rewrite map_lookup_filter.
  unfold job_of. destruct (jobs w !! k) as [l|] eqn:Hk; simpl.
  - destruct (finished w k) eqn:Hfin.
    + rewrite option_guard_False by discriminate. reflexivity.
    + rewrite option_guard_True by reflexivity. reflexivity.
  - destruct (finished w k); reflexivity.
Qed.

Lemma sweep_job_of_Some w k job :
  job_of (cleanup_finished_jobs w) k = Some job ->
  job_of w k = Some job /\ is_terminal (status job) = false.
Proof.
  rewrite sweep_job_of. destruct (finished w k) eqn:Hfin; [discriminate|].
  intros H. split; [exact H|].
  unfold finished in Hfin. rewrite H in Hfin. exact Hfin.
Qed.

Lemma Inv_sweep w : Inv w -> Inv (cleanup_finished_jobs w).
Proof.
  intros [[Hdom Hinj] Htasks Hjt Huniq Hown Hcnt].
  split.
  - split; simpl.
    + intros jid l H. apply map_lookup_filter_Some in H as [H _]. eauto.
    + intros j1 j2 l H1 H2.
      apply map_lookup_filter_Some in H1 as [H1 _].
      apply map_lookup_filter_Some in H2 as [H2 _]. eauto.
  - intros t task Ht. simpl in Ht. specialize (Htasks t task Ht).
    unfold task_ok in *. destruct Htasks as [Hpos Hco]. split; [exact Hpos|].
    assert (Hclosed : forall s,
              (forall job, job_of w (b_job_id (args task)) = Some job ->
                           status job = s) ->
              forall job, job_of (cleanup_finished_jobs w) (b_job_id (args task))
                          = Some job -> status job = s).
    { intros s H job Hjob. apply sweep_job_of_Some in Hjob as [Hjob _]. eauto. }
    assert (Hlive : forall co,
              (exists job, job_of w (b_job_id (args task)) = Some job /\
                           live_ok (n_tracks task) co job) ->
              co <> Returned ->
              exists job, job_of (cleanup_finished_jobs w) (b_job_id (args task))
                          = Some job /\ live_ok (n_tracks task) co job).
    { intros co (job & Hjob & Hl) Hne. exists job. split; [|exact Hl].
      rewrite sweep_job_of. unfold finished. rewrite Hjob.
      destruct (is_terminal (status job)) eqn:Hterm; [|reflexivity].
      destruct (live_ok_status _ _ _ Hl) as (_ & _ & _ & Hret).
      contradiction (Hne (Hret Hterm)). }
    destruct (coro task); try (destruct (must_cancel task)); eauto;
      apply Hlive; try assumption; discriminate.
  - intros jid t H. simpl in H. apply map_lookup_filter_Some in H as [H _].
    simpl. eauto.
  - exact Huniq.
  - intros jid l H. simpl in H. apply map_lookup_filter_Some in H as [H _].
    simpl. eauto.
  - intros jid job H. apply sweep_job_of_Some in H as [H _]. eauto.
Qed.

(** *** A task moves and the record of its job changes in place *)

Lemma touch_with_tasks F jid ts w :
  touch F jid (with_tasks ts w) = with_tasks ts (touch F jid w).
Proof. unfold touch. simpl. destruct (jobs w !! jid); reflexivity. Qed.

Lemma Inv_update w t task task' F :
  Inv w ->
  tasks w !! t = Some task ->
  args task' = args task ->
  task_ok (with_tasks (<[t := task']> (tasks w))
             (touch F (b_job_id (args task)) w)) task' ->
  (forall job, job_of w (b_job_id (args task)) = Some job ->
     counted (F job) <= total_tracks (F job) /\
     (status (F job) = COMPLETED -> counted (F job) = total_tracks (F job))) ->
  Inv (with_tasks (<[t := task']> (tasks w)) (touch F (b_job_id (args task)) w)).
Proof.
  intros HI Ht Hargs Hok Hcount.
  pose proof HI as [Hwf Htasks Hjt Huniq Hown Hcnt].
  set (jid := b_job_id (args task)) in *.
  assert (Hother : forall k, k <> jid ->
            job_of (with_tasks (<[t := task']> (tasks w)) (touch F jid w)) k
            = job_of w k).
  { intros k Hk. apply (touch_job_of_other F jid w k Hwf Hk). }
  assert (Hsame :
            job_of (with_tasks (<[t := task']> (tasks w)) (touch F jid w)) jid
            = F <$> job_of w jid).
  { apply touch_job_of_same. }
  assert (Hlook : forall t2 task2,
            <[t := task']> (tasks w) !! t2 = Some task2 ->
            exists task0, tasks w !! t2 = Some task0 /\ args task2 = args task0 /\
                          (t2 <> t -> task2 = task0)).
  { intros t2 task2 H. destruct (decide (t = t2)) as [<-|Hne].
    - rewrite lookup_insert_eq in H. injection H as <-.
      exists task. split; [exact Ht|]. split; [exact Hargs|]. contradiction.
    - rewrite lookup_insert_ne in H by done. eauto. }
  split.
  - apply (touch_well_formed F jid w Hwf).
  - intros t2 task2 H2. simpl in H2. rewrite ?touch_tasks in H2.
    destruct (decide (t = t2)) as [<-|Hne].
    + rewrite lookup_insert_eq in H2. injection H2 as <-. exact Hok.
    + rewrite lookup_insert_ne in H2 by done.
      apply (task_ok_ext w); [|eauto].
      apply Hother. intros Heq. apply Hne.
      eapply Huniq; [exact Ht|exact H2|]. symmetry. exact Heq.
  - intros k t0 H. simpl in H. rewrite ?touch_job_tasks in H.
    destruct (Hjt k t0 H) as (task0 & H0 & Hk). simpl. rewrite ?touch_tasks.
    destruct (decide (t = t0)) as [<-|Hne].
    + rewrite lookup_insert_eq. exists task'. split; [reflexivity|].
      rewrite Ht in H0. injection H0 as <-. rewrite Hargs. exact Hk.
    + rewrite lookup_insert_ne by done. eauto.
  - intros t1 t2 task1 task2 H1 H2 Heq. simpl in H1, H2.
    rewrite ?touch_tasks in H1, H2.
    destruct (Hlook _ _ H1) as (u1 & Hu1 & Ha1 & _).
    destruct (Hlook _ _ H2) as (u2 & Hu2 & Ha2 & _).
    eapply Huniq; [exact Hu1|exact Hu2|]. rewrite <- Ha1, <- Ha2. exact Heq.
  - intros k l H. simpl in H. rewrite ?touch_jobs in H.
    destruct (Hown k l H) as (t0 & task0 & H0 & Hk). simpl. rewrite ?touch_tasks.
    destruct (decide (t = t0)) as [<-|Hne].
    + exists t, task'. rewrite lookup_insert_eq. split; [reflexivity|].
      rewrite Ht in H0. injection H0 as <-. rewrite Hargs. exact Hk.
    + exists t0, task0. rewrite lookup_insert_ne by done. auto.
  - intros k job H. destruct (decide (k = jid)) as [->|Hne].
    + rewrite Hsame in H. destruct (job_of w jid) as [job0|] eqn:Hj0;
        [|discriminate]. injection H as <-. apply Hcount. reflexivity.
    + rewrite Hother in H by assumption. eauto.
Qed.

(** *** Cancellation *)

Lemma not_done_cases task :
  done task = false ->
  coro task = NotStarted \/
  (exists track dir rest c f s, coro task = AwaitFetch track dir rest c f s) \/
  (exists rest c f s, coro task = AwaitSleep rest c f s).
Proof.
  unfold done. destruct (coro task); try discriminate; eauto 10.
Qed.

Lemma cancel_job_live w jid t task :
  job_tasks w !! jid = Some t -> tasks w !! t = Some task -> done task = false ->
  fst (cancel_job jid w)
  = with_tasks (<[t := {| args := args task; coro := coro task;
                          must_cancel := true |}]> (tasks w))
      (touch (status_update FAILED (Some "Job cancelled by user")) jid w).
Proof.
  intros Hjt Ht Hlive. unfold cancel_job. rewrite Hjt, Ht, Hlive. simpl.
  rewrite update_job_status_touch, touch_with_tasks.
  unfold task_cancel. rewrite Hlive. reflexivity.
Qed.

Lemma cancel_job_idle w jid :
  (forall t task, job_tasks w !! jid = Some t -> tasks w !! t = Some task ->
                  done task = true) ->
  fst (cancel_job jid w) = w.
Proof.
  intros H. unfold cancel_job.
  destruct (job_tasks w !! jid) as [t|]; [|reflexivity].
  destruct (tasks w !! t) as [task|] eqn:Ht; [|reflexivity].
  rewrite (H t task eq_refl Ht). reflexivity.
Qed.

Lemma Inv_cancel w jid : Inv w -> Inv (fst (cancel_job jid w)).
Proof.
  intros HI.
  destruct (job_tasks w !! jid) as [t|] eqn:Hjt;
    [|rewrite cancel_job_idle; [exact HI|intros; congruence]].
  destruct (tasks w !! t) as [task|] eqn:Ht;
    [|rewrite cancel_job_idle; [exact HI|intros; congruence]].
  destruct (done task) eqn:Hdone;
    [rewrite cancel_job_idle; [exact HI|intros; congruence]|].
  rewrite (cancel_job_live w jid t task Hjt Ht Hdone).
  destruct (inv_job_tasks w HI jid t Hjt) as (task0 & Ht0 & Hjid).
  rewrite Ht in Ht0. injection Ht0 as <-. subst jid.
  apply Inv_update; try assumption; try reflexivity.
  - destruct (inv_tasks w HI t task Ht) as [Hpos _].
    split; [exact Hpos|]. simpl.
    assert (Hfailed : forall job,
              job_of (with_tasks
                        (<[t := {| args := args task; coro := coro task;
                                   must_cancel := true |}]> (tasks w))
                        (touch (status_update FAILED (Some "Job cancelled by user"))
                           (b_job_id (args task)) w)) (b_job_id (args task))
              = Some job -> status job = FAILED).
    { intros job Hjob.
      change (job_of (touch (status_update FAILED (Some "Job cancelled by user"))
                        (b_job_id (args task)) w) (b_job_id (args task))
              = Some job) in Hjob.
      rewrite touch_job_of_same in Hjob.
      destruct (job_of w (b_job_id (args task))); [|discriminate].
      injection Hjob as <-. reflexivity. }
    destruct (not_done_cases task Hdone)
      as [->|[(? & ? & ? & ? & ? & ? & ->)|(? & ? & ? & ? & ->)]]; exact Hfailed.
  - intros job Hjob. unfold status_update, counted. simpl.
    destruct (inv_counts w HI _ _ Hjob) as [Hle _].
    split; [exact Hle|discriminate].
Qed.

(** *** A task is resumed *)

Lemma run_task_idle fmt env files t w :
  (forall task, tasks w !! t = Some task -> done task = true) ->
  run_task fmt env files t w = w.
Proof.
  intros H. unfold run_task. destruct (tasks w !! t) as [task|]; [|reflexivity].
  rewrite (H task eq_refl). reflexivity.
Qed.

Lemma run_task_cancelled fmt env files t w task :
  tasks w !! t = Some task -> done task = false -> must_cancel task = true ->
  run_task fmt env files t w
  = with_tasks (<[t := {| args := args task; coro := Cancelled;
                          must_cancel := false |}]> (tasks w))
      (touch (fun job => job) (b_job_id (args task)) w).
Proof.
  intros Ht Hlive Hc. unfold run_task. rewrite Ht, Hlive, Hc, touch_id.
  reflexivity.
Qed.

Lemma run_task_live fmt env files t w task job :
  Inv w ->
  tasks w !! t = Some task -> done task = false -> must_cancel task = false ->
  job_of w (b_job_id (args task)) = Some job ->
  exists F co,
    run_task fmt env files t w
    = with_tasks (<[t := {| args := args task; coro := co;
                            must_cancel := false |}]> (tasks w))
        (touch F (b_job_id (args task)) w) /\
    snd (resume fmt env files task w) = co /\
    live_ok (n_tracks task) (coro task) job /\
    live_ok (n_tracks task) co (F job) /\
    counted (F job) <= n_tracks task /\
    forward (status job) (status (F job)) = true.
Proof.
  intros HI Ht Hlive Hc Hjob.
  destruct (inv_tasks w HI t task Ht) as [Hpos Hok].
  assert (Hl : live_ok (n_tracks task) (coro task) job).
  { rewrite Hc in Hok.
    destruct (not_done_cases task Hlive)
      as [Hco|[(? & ? & ? & ? & ? & ? & Hco)|(? & ? & ? & ? & Hco)]];
      rewrite Hco in *; destruct Hok as (job' & Hjob' & Hl');
      rewrite Hjob in Hjob'; injection Hjob' as <-; exact Hl'. }
  destruct (resume_spec fmt env files task w job Hjob Hl Hpos)
    as (F & HF & HFc & HFl & HFf).
  { apply (inv_counts w HI _ _ Hjob). }
  { exact Hlive. }
  exists F, (snd (resume fmt env files task w)).
  split; [|auto].
  unfold run_task. rewrite Ht, Hlive, Hc.
  destruct (resume fmt env files task w) as [w1 co]. simpl in *. subst w1.
  rewrite touch_tasks. reflexivity.
Qed.

Lemma live_job_exists w t task :
  Inv w -> tasks w !! t = Some task -> done task = false ->
  must_cancel task = false ->
  exists job, job_of w (b_job_id (args task)) = Some job /\
              live_ok (n_tracks task) (coro task) job.
Proof.
  intros HI Ht Hlive Hc.
  destruct (inv_tasks w HI t task Ht) as [_ Hok]. rewrite Hc in Hok.
  destruct (not_done_cases task Hlive)
    as [Hco|[(? & ? & ? & ? & ? & ? & Hco)|(? & ? & ? & ? & Hco)]];
    rewrite Hco in *; exact Hok.
Qed.

Lemma Inv_run_task fmt env files t w : Inv w -> Inv (run_task fmt env files t w).
Proof.
  intros HI.
  destruct (tasks w !! t) as [task|] eqn:Ht;
    [|rewrite run_task_idle; [exact HI|intros; congruence]].
  destruct (done task) eqn:Hdone;
    [rewrite run_task_idle; [exact HI|intros; congruence]|].
  destruct (inv_tasks w HI t task Ht) as [Hpos Hok].
  destruct (must_cancel task) eqn:Hc.
  - rewrite (run_task_cancelled fmt env files t w task Ht Hdone Hc).
    apply Inv_update; try assumption; try reflexivity.
    + split; [exact Hpos|]. simpl. rewrite touch_id.
      change (forall job, job_of w (b_job_id (args task)) = Some job ->
                          status job = FAILED).
      destruct (not_done_cases task Hdone)
        as [Hco|[(? & ? & ? & ? & ? & ? & Hco)|(? & ? & ? & ? & Hco)]];
        rewrite Hco in Hok; exact Hok.
    + intros job Hjob. apply (inv_counts w HI _ _ Hjob).
  - destruct (live_job_exists w t task HI Ht Hdone Hc) as (job & Hjob & _).
    destruct (run_task_live fmt env files t w task job HI Ht Hdone Hc Hjob)
      as (F & co & -> & _ & Hl & HFl & HFc & _).
    pose proof (live_ok_status _ _ _ HFl) as (_ & _ & Hcomp & _).
    assert (Htot : total_tracks (F job) = n_tracks task) by apply HFl.
    apply Inv_update; try assumption; try reflexivity.
    + split; [exact Hpos|]. simpl.
      assert (Hnow : job_of
                (with_tasks (<[t := {| args := args task; coro := co;
                                       must_cancel := false |}]> (tasks w))
                   (touch F (b_job_id (args task)) w)) (b_job_id (args task))
              = Some (F job)).
      { change (job_of (touch F (b_job_id (args task)) w) (b_job_id (args task))
                = Some (F job)).
        rewrite touch_job_of_same, Hjob. reflexivity. }
      destruct co; try (exists (F job); split; [exact Hnow|exact HFl]).
      * intros job' Hjob'. rewrite Hnow in Hjob'. injection Hjob' as <-.
        apply HFl.
      * trivial.
      * destruct HFl as [_ []].
    + intros job' Hjob'. rewrite Hjob in Hjob'. injection Hjob' as <-.
      rewrite Htot. split; [exact HFc|exact Hcomp].
Qed.

(** *** A batch is submitted *)

Lemma start_download_empty uuid a w :
  b_tracks a = [] -> start_download uuid a w = w.
Proof. intros H. unfold start_download. rewrite H. reflexivity. Qed.

Lemma start_download_fields uuid a w :
  b_tracks a <> [] ->
  start_download uuid a w
  = {| objs := <[fresh (dom (objs w)) := new_job uuid a]> (objs w);
       jobs := <[uuid := fresh (dom (objs w))]> (jobs w);
       job_tasks := <[uuid := fresh (dom (tasks w))]> (job_tasks w);
       tasks := <[fresh (dom (tasks w)) := new_task uuid a]> (tasks w) |}.
Proof.
  intros Hne. unfold start_download.
  destruct (b_tracks a) as [|x xs] eqn:Htr; [contradiction|].
  unfold create_job, register_task, with_tasks, new_job, new_task. simpl.
  rewrite Htr. reflexivity.
Qed.

Lemma start_download_job_of_new uuid a w :
  b_tracks a <> [] ->
  job_of (start_download uuid a w) uuid = Some (new_job uuid a).
Proof.
  intros Hne. rewrite start_download_fields by assumption.
  unfold job_of. simpl. rewrite lookup_insert_eq. simpl.
  apply lookup_insert_eq.
Qed.

Lemma start_download_job_of_other uuid a w k :
  well_formed w -> k <> uuid ->
  job_of (start_download uuid a w) k = job_of w k.
Proof.
  intros Hwf Hk.
  destruct (b_tracks a) as [|x xs] eqn:Htr.
  { rewrite start_download_empty by assumption. reflexivity. }
  rewrite start_download_fields by (rewrite Htr; discriminate).
  unfold job_of. simpl. rewrite lookup_insert_ne by done.
  destruct (jobs w !! k) as [l|] eqn:Hl; simpl; [|reflexivity].
  rewrite lookup_insert_ne; [reflexivity|].
  intros Heq. symmetry in Heq. revert Heq. eapply fresh_loc_unused; eauto.
Qed.

Lemma fresh_tid_unused (w : World) (t : tid) (task : Task) :
  tasks w !! t = Some task -> t <> fresh (dom (tasks w)).
Proof.
  intros Ht Heq. apply (is_fresh (dom (tasks w))). rewrite <- Heq.
  apply elem_of_dom. eauto.
Qed.

Lemma Inv_start_download uuid a w :
  Inv w -> unused w uuid -> Inv (start_download uuid a w).
Proof.
  intros HI (Hnojob & Hnojt & Hnotask).
  destruct (b_tracks a) as [|x xs] eqn:Htr.
  { rewrite start_download_empty by assumption. exact HI. }
  assert (Hne : b_tracks a <> []) by (rewrite Htr; discriminate).
  pose proof (start_download_job_of_new uuid a w Hne) as Hnew.
  pose proof (fun k => start_download_job_of_other uuid a w k (inv_wf w HI)) as Hold.
  pose proof HI as [[Hdom Hinj] Htasks Hjt Huniq Hown Hcnt].
  rewrite start_download_fields in * by assumption.
  split; simpl.
  - split; simpl.
    + intros k l H. apply lookup_insert_Some in H as [[_ <-]|[_ H]].
      * rewrite lookup_insert_eq. eauto.
      * destruct (Hdom _ _ H) as [job Hjob].
        rewrite lookup_insert_ne; [eauto|].
        intros Heq. symmetry in Heq. revert Heq.
        eapply fresh_loc_unused; [split|]; eauto.
    + intros j1 j2 l H1 H2.
      destruct (decide (j1 = uuid)) as [->|Hn1];
        destruct (decide (j2 = uuid)) as [->|Hn2]; [reflexivity| | |].
      * rewrite lookup_insert_eq in H1. rewrite lookup_insert_ne in H2 by done.
        injection H1 as <-. exfalso.
        eapply (fresh_loc_unused w j2); [split|exact H2|]; eauto.
      * rewrite lookup_insert_eq in H2. rewrite lookup_insert_ne in H1 by done.
        injection H2 as <-. exfalso.
        eapply (fresh_loc_unused w j1); [split|exact H1|]; eauto.
      * rewrite lookup_insert_ne in H1, H2 by done. eauto.
  - intros t task H. apply lookup_insert_Some in H as [[_ <-]|[_ H]].
    + split.
      * unfold n_tracks, new_task. simpl. rewrite Htr. simpl. lia.
      * simpl. exists (new_job uuid a). split; [exact Hnew|].
        split; reflexivity.
    + apply (task_ok_ext w); [|eauto]. apply Hold. eauto.
  - intros k t H. apply lookup_insert_Some in H as [[<- <-]|[Hk H]].
    + rewrite lookup_insert_eq. eexists. split; reflexivity.
    + destruct (Hjt _ _ H) as (task & Ht & Hjid).
      exists task. split; [|exact Hjid].
      rewrite lookup_insert_ne; [exact Ht|].
      intros Heq. symmetry in Heq. revert Heq. eapply fresh_tid_unused; eauto.
  - intros t1 t2 task1 task2 H1 H2 Heq.
    apply lookup_insert_Some in H1 as [[<- <-]|[Hn1 H1]];
      apply lookup_insert_Some in H2 as [[<- <-]|[Hn2 H2]]; try reflexivity.
    + exfalso. simpl in Heq. eapply Hnotask; eauto.
    + exfalso. simpl in Heq. eapply Hnotask; eauto.
    + eauto.
  - intros k l H. apply lookup_insert_Some in H as [[<- <-]|[Hk H]].
    + exists (fresh (dom (tasks w))), (new_task uuid a).
      rewrite lookup_insert_eq. split; reflexivity.
    + destruct (Hown _ _ H) as (t & task & Ht & Hjid).
      exists t, task. split; [|exact Hjid].
      rewrite lookup_insert_ne; [exact Ht|].
      intros Heq. symmetry in Heq. revert Heq. eapply fresh_tid_unused; eauto.
  - intros k job H. destruct (decide (k = uuid)) as [->|Hk].
    + rewrite Hnew in H. injection H as <-. unfold counted. simpl.
      split; [lia|discriminate].
    + rewrite Hold in H by assumption. eauto.
Qed.

Lemma Inv_step fmt w l w' : Inv w -> step fmt w l w' -> Inv w'.
Proof.
  intros HI Hstep. destruct Hstep.
  - apply Inv_start_download; assumption.
  - apply Inv_run_task; assumption.
  - apply Inv_cancel; assumption.
  - apply Inv_sweep; assumption.
Qed.

Lemma reachable_Inv fmt w : reachable fmt w -> Inv w.
Proof.
  induction 1 as [|w l w' _ IH Hstep]; [apply Inv_init|].
  eapply Inv_step; eauto.
Qed.

(** ** What a step does to the status of a job *)

Lemma forward_refl s : forward s s = true.
Proof. destruct s; reflexivity. Qed.

Lemma forward_trans s1 s2 s3 :
  forward s1 s2 = true -> forward s2 s3 = true -> forward s1 s3 = true.
Proof. destruct s1, s2, s3; simpl; congruence. Qed.

Lemma forward_terminal s s' :
  forward s s' = true -> is_terminal s = true -> s' = s.
Proof. destruct s, s'; simpl; congruence. Qed.

Lemma forward_running s' : forward RUNNING s' = true -> s' <> PENDING.
Proof. destruct s'; simpl; congruence. Qed.

(** A job of the next state was there before, with a status that the step
    moved forward, to Failed only by a cancellation of this job; or it has
    just been created, Pending, under an id that no task carried. *)
Lemma step_status fmt w l w' jid job' :
  Inv w -> step fmt w l w' -> job_of w' jid = Some job' ->
  (exists job, job_of w jid = Some job /\
     forward (status job) (status job') = true /\
     (status job' = FAILED -> status job = FAILED \/ l = Cancel jid)) \/
  (job_of w jid = None /\ status job' = PENDING /\
   forall t task, tasks w !! t = Some task -> b_job_id (args task) <> jid).
Proof.
  intros HI Hstep Hjob'.
  assert (Hkeep : job_of w jid = Some job' ->
            exists job, job_of w jid = Some job /\
              forward (status job) (status job') = true /\
              (status job' = FAILED -> status job = FAILED \/ l = Cancel jid)).
  { intros H. exists job'. split; [exact H|]. split; [apply forward_refl|auto]. }
  destruct Hstep as [w uuid a Hun|w t env files|w jid0|w].
  - (* a batch is submitted *)
    destruct (b_tracks a) as [|x xs] eqn:Htr.
    { rewrite start_download_empty in Hjob' by assumption. left. auto. }
    destruct (decide (jid = uuid)) as [->|Hne].
    + rewrite start_download_job_of_new in Hjob' by (rewrite Htr; discriminate).
      injection Hjob' as <-. right.
      destruct Hun as (Hnojob & _ & Hnotask).
      split; [unfold job_of; rewrite Hnojob; reflexivity|]. split; [reflexivity|].
      exact Hnotask.
    + rewrite start_download_job_of_other in Hjob'
        by (try apply (inv_wf w HI); assumption).
      left. auto.
  - (* a task is resumed *)
    left.
    destruct (tasks w !! t) as [task|] eqn:Ht;
      [|rewrite run_task_idle in Hjob' by (intros; congruence); auto].
    destruct (done task) eqn:Hdone;
      [rewrite run_task_idle in Hjob' by (intros; congruence); auto|].
    destruct (must_cancel task) eqn:Hc.
    { rewrite (run_task_cancelled fmt env files t w task Ht Hdone Hc), touch_id
        in Hjob'. auto. }
    destruct (live_job_exists w t task HI Ht Hdone Hc) as (job & Hjob & _).
    destruct (run_task_live fmt env files t w task job HI Ht Hdone Hc Hjob)
      as (F & co & Hrun & _ & Hl & HFl & _ & Hfwd).
    rewrite Hrun in Hjob'.
    change (job_of (touch F (b_job_id (args task)) w) jid = Some job') in Hjob'.
    destruct (decide (jid = b_job_id (args task))) as [->|Hne].
    + rewrite touch_job_of_same, Hjob in Hjob'. injection Hjob' as <-.
      exists job. split; [exact Hjob|]. split; [exact Hfwd|].
      intros Hfailed. destruct (live_ok_status _ _ _ HFl) as [Hnf _].
      contradiction.
    + rewrite touch_job_of_other in Hjob'
        by (try apply (inv_wf w HI); assumption).
      auto.
  - (* a job is cancelled *)
    left.
    destruct (job_tasks w !! jid0) as [t|] eqn:Hjt;
      [|rewrite cancel_job_idle in Hjob' by (intros; congruence); auto].
    destruct (tasks w !! t) as [task|] eqn:Ht;
      [|rewrite cancel_job_idle in Hjob' by (intros; congruence); auto].
    destruct (done task) eqn:Hdone;
      [rewrite cancel_job_idle in Hjob' by (intros; congruence); auto|].
    rewrite (cancel_job_live w jid0 t task Hjt Ht Hdone) in Hjob'.
    change (job_of (touch (status_update FAILED (Some "Job cancelled by user"))
                      jid0 w) jid = Some job') in Hjob'.
    destruct (decide (jid = jid0)) as [->|Hne].
    + rewrite touch_job_of_same in Hjob'.
      destruct (job_of w jid0) as [job|] eqn:Hjob; [|discriminate].
      injection Hjob' as <-. exists job. split; [reflexivity|].
      split; [|auto].
      change (forward (status job) FAILED = true).
      destruct (inv_job_tasks w HI jid0 t Hjt) as (task0 & Ht0 & Hjid).
      rewrite Ht in Ht0. injection Ht0 as <-. subst jid0.
      destruct (must_cancel task) eqn:Hc.
      * destruct (inv_tasks w HI t task Ht) as [_ Hok]. rewrite Hc in Hok.
        assert (Hf : status job = FAILED).
        { destruct (not_done_cases task Hdone)
            as [Hco|[(? & ? & ? & ? & ? & ? & Hco)|(? & ? & ? & ? & Hco)]];
            rewrite Hco in Hok; apply Hok; exact Hjob. }
        rewrite Hf. reflexivity.
      * destruct (live_job_exists w t task HI Ht Hdone Hc) as (job0 & Hjob0 & Hl).
        rewrite Hjob in Hjob0. injection Hjob0 as <-.
        destruct (live_ok_status _ _ _ Hl) as (_ & Hns & _ & Hret).
        destruct (status job) eqn:Hst; try reflexivity.
        -- specialize (Hret eq_refl). unfold done in Hdone.
           rewrite Hret in Hdone. discriminate.
        -- congruence.
    + rewrite touch_job_of_other in Hjob'
        by (try apply (inv_wf w HI); assumption).
      auto.
  - (* the finished jobs are swept *)
    left. apply sweep_job_of_Some in Hjob' as [Hjob' _]. auto.
Qed.

Lemma used_step fmt w l w' jid : step fmt w l w' -> used w jid -> used w' jid.
Proof.
  intros Hstep (t & task & Ht & Hjid).
  destruct Hstep as [w uuid a Hun|w t0 env files|w jid0|w].
  - destruct (b_tracks a) as [|x xs] eqn:Htr.
    { rewrite start_download_empty by assumption. exists t, task. auto. }
    rewrite start_download_fields by (rewrite Htr; discriminate).
    exists t, task. simpl. split; [|exact Hjid].
    rewrite lookup_insert_ne; [exact Ht|].
    intros Heq. symmetry in Heq. revert Heq. eapply fresh_tid_unused; eauto.
  - unfold run_task. destruct (tasks w !! t0) as [task0|] eqn:Ht0;
      [|exists t, task; auto].
    destruct (done task0); [exists t, task; auto|].
    destruct (must_cancel task0).
    + destruct (decide (t0 = t)) as [->|Hne].
      * eexists t, _. simpl. rewrite lookup_insert_eq. split; [reflexivity|].
        simpl. congruence.
      * exists t, task. simpl. rewrite lookup_insert_ne by done. auto.
    + destruct (resume fmt env files task0 w) as [w1 co] eqn:Hres.
      assert (Htasks : tasks w1 = tasks w).
      { destruct (resume_tasks fmt env files task0 w) as [F HF].
        rewrite Hres in HF. simpl in HF. rewrite HF. apply touch_tasks. }
      destruct (decide (t0 = t)) as [->|Hne].
      * eexists t, _. simpl. rewrite lookup_insert_eq. split; [reflexivity|].
        simpl. congruence.
      * exists t, task. simpl. rewrite lookup_insert_ne by done.
        rewrite Htasks. auto.
  - destruct (job_tasks w !! jid0) as [t0|] eqn:Hjt;
      [|rewrite cancel_job_idle by (intros; congruence); exists t, task; auto].
    destruct (tasks w !! t0) as [task0|] eqn:Ht0;
      [|rewrite cancel_job_idle by (intros; congruence); exists t, task; auto].
    destruct (done task0) eqn:Hd;
      [rewrite cancel_job_idle by (intros; congruence); exists t, task; auto|].
    rewrite (cancel_job_live w jid0 t0 task0 Hjt Ht0 Hd). unfold used. simpl.
    destruct (decide (t0 = t)) as [->|Hne].
    + eexists t, _. rewrite lookup_insert_eq. split; [reflexivity|].
      simpl. congruence.
    + exists t, task. rewrite lookup_insert_ne by done. auto.
  - exists t, task. auto.
Qed.

(** ** The life cycle of a job *)

(** C1, as the code has it: in every state the system can reach, the
    completed, failed and skipped counts of a job add up to at most its
    total, and to exactly its total once its status is Completed. *)
Theorem counts_within_total
    (fmt : option Z -> string -> string -> string -> string)
    (w : World) (jid : string) (job : JobStatusResponse) :
  reachable fmt w ->
  job_of w jid = Some job ->
  counted job <= total_tracks job /\
  (status job = COMPLETED -> counted job = total_tracks job).
Proof.
  intros Hreach Hjob.
  apply (inv_counts w (reachable_Inv fmt w Hreach) jid job Hjob).
Qed.

Lemma unused_init (uuid : string) : unused JobManager_init uuid.
Proof.
  unfold unused, JobManager_init. simpl.
  repeat split; intros *; rewrite ?lookup_empty; try reflexivity; discriminate.
Qed.

Lemma reachable_fetching_second : reachable plain_translator fetching_second.
Proof.
  unfold fetching_second.
  do 3 (eapply reachable_step; [|apply step_resume]).
  eapply reachable_step; [apply reachable_init|].
  apply step_submit. apply unused_init.
Qed.

Lemma reachable_cancelled_midway : reachable plain_translator cancelled_midway.
Proof.
  eapply reachable_step; [apply reachable_fetching_second|].
  apply step_cancel.
Qed.

Lemma counts_within_total_witness :
  exists job, job_of cancelled_midway "job-1" = Some job /\
              counted job <= total_tracks job.
Proof.
  eexists. split; [vm_compute; reflexivity|].
  eapply (counts_within_total plain_translator cancelled_midway "job-1").
  - apply reachable_cancelled_midway.
  - vm_compute. reflexivity.
Defined.

(** C1, as stated, fails: a job cancelled after one of its two tracks is
    Failed, a terminal status, with counts that add up to 1. *)
Lemma cancelled_job_counts_below_total :
  reachable plain_translator cancelled_midway /\
  exists job, job_of cancelled_midway "job-1" = Some job /\
              is_terminal (status job) = true /\
              counted job = 1 /\ total_tracks job = 2.
Proof.
  split; [apply reachable_cancelled_midway|].
  eexists. split; [vm_compute; reflexivity|].
  vm_compute. auto.
Qed.

Lemma progress_update_static label c f s job :
  same_static job (progress_update label c f s job) /\
  status (progress_update label c f s job) = status job /\
  downloaded_files (progress_update label c f s job) = downloaded_files job /\
  completed_tracks (progress_update label c f s job) = c /\
  failed_tracks (progress_update label c f s job) = f /\
  skipped_tracks (progress_update label c f s job) = s.
Proof.
  unfold progress_update, same_static.
  destruct (progress_percent c f s (total_tracks job)); simpl; tauto.
Qed.

(** The final report of a batch. *)
Lemma run_loop_end env a c f s w job :
  job_of w (b_job_id a) = Some job ->
  0 < total_tracks job -> c + f + s = total_tracks job ->
  run_loop env a [] c f s w
  = (touch (status_update COMPLETED None ∘ progress_update "Completed" c f s)
       (b_job_id a) w, Returned).
Proof.
  intros Hjob Hpos Hsum. simpl.
  rewrite (update_job_progress_ok _ _ _ _ _ _ job Hjob)
    by (apply progress_percent_full; lia).
  rewrite update_job_status_touch, touch_touch. reflexivity.
Qed.

(** The loop passes over the tracks whose directory cannot be created
    and counts each of them as failed. *)
Lemma run_loop_skips env a rest : forall c f s w,
  Forall (mkdir_fails env a) rest ->
  run_loop env a rest c f s w
  = run_loop env a [] c (f + Z.of_nat (List.length rest)) s w.
Proof.
  induction rest as [|track rest IH]; intros c f s w Hall.
  - replace (f + Z.of_nat (List.length (@nil TrackInfo))) with f
      by (simpl; lia).
    reflexivity.
  - inversion Hall as [|? ? [Hp Hm] Hrest]; subst.
    change (run_loop env a (track :: rest) c f s w)
      with (match (if b_is_playlist a
                   then mkdir_error env (track_outpath a track)
                   else None) with
            | Some _ => run_loop env a rest c (f + 1) s w
            | None =>
                match update_job_progress (b_job_id a)
                        (title track +:+ " - " +:+ artists track)
                        c f s w with
                | (w1, Ok _) =>
                    (w1, AwaitFetch track (track_outpath a track) rest c f s)
                | (w1, Raise _) => run_loop env a rest c (f + 1) s w1
                end
            end).
    rewrite Hp. destruct (mkdir_error env (track_outpath a track));
      [|contradiction].
    rewrite (IH c (f + 1) s w Hrest). f_equal.
    rewrite length_cons. lia.
Qed.

(** When the loop ends, the final report has put the counters of the loop
    into the record, a track that was passed over being counted as
    failed. *)
Lemma run_loop_returned env a rest : forall c f s w job,
  job_of w (b_job_id a) = Some job ->
  snd (run_loop env a rest c f s w) = Returned ->
  exists job',
    job_of (fst (run_loop env a rest c f s w)) (b_job_id a) = Some job' /\
    status job' = COMPLETED /\ current_track job' = Some "Completed" /\
    completed_tracks job' = c /\
    failed_tracks job' = f + Z.of_nat (List.length rest) /\
    skipped_tracks job' = s.
Proof.
  induction rest as [|track rest IH]; intros c f s w job Hjob.
  - simpl.
    pose proof (update_job_progress_touch (b_job_id a) "Completed" c f s w)
      as Hw1.
    destruct (update_job_progress (b_job_id a) "Completed" c f s w)
      as [w1 [[]|msg]]; simpl in Hw1; subst w1; [|discriminate].
    intros _. simpl. rewrite update_job_status_touch, touch_touch.
    rewrite touch_job_of_same, Hjob. simpl.
    eexists. split; [reflexivity|]. unfold compose.
    destruct (progress_update_fields "Completed" c f s job)
      as (_ & _ & _ & Hl).
    destruct (progress_update_static "Completed" c f s job)
      as (_ & _ & _ & Hc & Hf & Hs).
    unfold status_update. simpl.
    rewrite Hl, Hc, Hf, Hs. repeat split. lia.
  - change (run_loop env a (track :: rest) c f s w)
      with (match (if b_is_playlist a
                   then mkdir_error env (track_outpath a track)
                   else None) with
            | Some _ => run_loop env a rest c (f + 1) s w
            | None =>
                match update_job_progress (b_job_id a)
                        (title track +:+ " - " +:+ artists track)
                        c f s w with
                | (w1, Ok _) =>
                    (w1, AwaitFetch track (track_outpath a track) rest c f s)
                | (w1, Raise _) => run_loop env a rest c (f + 1) s w1
                end
            end).
    assert (Hlen : f + 1 + Z.of_nat (List.length rest)
                   = f + Z.of_nat (List.length (track :: rest)))
      by (rewrite length_cons; lia).
    destruct (if b_is_playlist a then mkdir_error env (track_outpath a track)
              else None) as [msg|].
    + intros Hret. destruct (IH c (f + 1) s w job Hjob Hret)
        as (job' & Hj & Hst & Hl & Hc & Hf & Hs).
      exists job'. rewrite <- Hlen. auto 10.
    + pose proof (update_job_progress_touch (b_job_id a)
                    (title track +:+ " - " +:+ artists track) c f s w) as Hw1.
      destruct (update_job_progress (b_job_id a)
                  (title track +:+ " - " +:+ artists track) c f s w)
        as [w1 [[]|msg]]; simpl in Hw1; subst w1; [discriminate|].
      intros Hret.
      assert (Hjob1 : job_of
                (touch (progress_update
                          (title track +:+ " - " +:+ artists track) c f s)
                   (b_job_id a) w) (b_job_id a)
              = Some (progress_update
                        (title track +:+ " - " +:+ artists track) c f s job)).
      { rewrite touch_job_of_same, Hjob. reflexivity. }
      destruct (IH c (f + 1) s _ _ Hjob1 Hret)
        as (job' & Hj & Hst & Hl & Hc & Hf & Hs).
      exists job'. rewrite <- Hlen. auto 10.
Qed.

(** A resumption ends the pipeline only out of the pacing delay, or at
    the start when no track gets as far as its fetch. *)
Lemma resume_returned fmt env files task w job :
  job_of w (b_job_id (args task)) = Some job ->
  done task = false ->
  snd (resume fmt env files task w) = Returned ->
  exists rest c f s job',
    (coro task = AwaitSleep rest c f s \/
     (coro task = NotStarted /\ rest = b_tracks (args task) /\
      c = 0 /\ f = 0 /\ s = 0)) /\
    job_of (fst (resume fmt env files task w)) (b_job_id (args task))
    = Some job' /\
    status job' = COMPLETED /\ current_track job' = Some "Completed" /\
    completed_tracks job' = c /\
    failed_tracks job' = f + Z.of_nat (List.length rest) /\
    skipped_tracks job' = s.
Proof.
  intros Hjob Hdone. unfold resume.
  destruct (not_done_cases task Hdone)
    as [Hco|[(track & dir & rest & c & f & s & Hco)|(rest & c & f & s & Hco)]];
    rewrite Hco.
  - destruct (mkdir_error env (b_outpath (args task))); [discriminate|].
    intros Hret.
    assert (Hjob1 : job_of
              (update_job_status (b_job_id (args task)) RUNNING None w)
              (b_job_id (args task))
            = Some (status_update RUNNING None job)).
    { rewrite update_job_status_touch, touch_job_of_same, Hjob. reflexivity. }
    destruct (run_loop_returned env (args task) (b_tracks (args task)) 0 0 0
                _ _ Hjob1 Hret) as (job' & Hj).
    exists (b_tracks (args task)), 0, 0, 0, job'. split; [|exact Hj].
    right. auto.
  - destruct (snd (download_track_async fmt env track dir (b_token (args task))
                     (b_prefer_flac (args task))
                     (b_filename_format (args task))
                     (b_use_track_numbers (args task))
                     {| fs := files; log := [] |})) as [[|] result];
      [destruct (String.eqb result "File already exists - skipped")|];
      discriminate.
  - intros Hret.
    destruct (run_loop_returned env (args task) rest c f s w job Hjob Hret)
      as (job' & Hj).
    exists rest, c, f, s, job'. split; [left; reflexivity|exact Hj].
Qed.

(** C2: a pipeline that is not cancelled and comes out of the pacing delay
    with no track left to fetch (none at all, or only tracks whose
    directory cannot be created) ends; and whenever a step ends a
    pipeline, the record of the job holds the final report: the status
    Completed, the label Completed, the three counters of the loop as
    they are at its end, every track that was passed over being counted
    as failed, which together account for every track, and a progress of
    100, whatever the outcome of the tracks.  A step makes a job Failed
    only when it is the cancellation of this job. *)
Theorem finished_batch_is_completed
    (fmt : option Z -> string -> string -> string -> string) (w : World) :
  reachable fmt w ->
  (forall t task env files rest c f s,
     tasks w !! t = Some task -> must_cancel task = false ->
     coro task = AwaitSleep rest c f s ->
     Forall (mkdir_fails env (args task)) rest ->
     tasks (run_task fmt env files t w) !! t
     = Some {| args := args task; coro := Returned;
               must_cancel := false |}) /\
  (forall t task env files task',
     tasks w !! t = Some task -> done task = false ->
     tasks (run_task fmt env files t w) !! t = Some task' ->
     coro task' = Returned ->
     exists rest c f s job,
       (coro task = AwaitSleep rest c f s \/
        (coro task = NotStarted /\ rest = b_tracks (args task) /\
         c = 0 /\ f = 0 /\ s = 0)) /\
       job_of (run_task fmt env files t w) (b_job_id (args task)) = Some job /\
       status job = COMPLETED /\ current_track job = Some "Completed" /\
       completed_tracks job = c /\
       failed_tracks job = f + Z.of_nat (List.length rest) /\
       skipped_tracks job = s /\
       counted job = total_tracks job /\ total_tracks job = n_tracks task /\
       progress job = 100) /\
  (forall l w' jid job',
     step fmt w l w' -> job_of w' jid = Some job' -> status job' = FAILED ->
     l = Cancel jid \/
     exists job, job_of w jid = Some job /\ status job = FAILED).
Proof.
  intros Hreach. pose proof (reachable_Inv fmt w Hreach) as HI.
  split; [|split].
  - intros t task env files rest c f s Ht Hc Hco Hall.
    assert (Hdone : done task = false)
      by (unfold done; rewrite Hco; reflexivity).
    destruct (live_job_exists w t task HI Ht Hdone Hc) as (job & Hjob & Hlive).
    destruct (inv_tasks w HI t task Ht) as [Hpos _].
    rewrite Hco in Hlive. destruct Hlive as (Htot & Hst & Hsum).
    unfold run_task. rewrite Ht, Hdone, Hc. unfold resume. rewrite Hco.
    rewrite (run_loop_skips env (args task) rest c f s w Hall).
    rewrite (run_loop_end env (args task) c
               (f + Z.of_nat (List.length rest)) s w job Hjob) by lia.
    simpl. apply lookup_insert_eq.
  - intros t task env files task' Ht Hdone Ht' Hret.
    destruct (must_cancel task) eqn:Hc.
    { rewrite (run_task_cancelled fmt env files t w task Ht Hdone Hc) in Ht'.
      simpl in Ht'. rewrite lookup_insert_eq in Ht'. injection Ht' as <-.
      discriminate. }
    destruct (live_job_exists w t task HI Ht Hdone Hc) as (job & Hjob & _).
    destruct (run_task_live fmt env files t w task job HI Ht Hdone Hc Hjob)
      as (F & co & Hrun & Hco & _ & HFl & _ & _).
    rewrite Hrun in Ht'.
    simpl in Ht'. rewrite lookup_insert_eq in Ht'. injection Ht' as <-.
    simpl in Hret. rewrite Hret in Hco, HFl. clear Hret.
    destruct (resume_returned fmt env files task w job Hjob Hdone Hco)
      as (rest & c & f & s & job' & Hfrom & Hjob' & _ & _ & Hcs & Hfs & Hss).
    assert (Hsame : job_of (run_task fmt env files t w) (b_job_id (args task))
                    = Some job').
    { rewrite <- Hjob'. unfold run_task. rewrite Ht, Hdone, Hc.
      destruct (resume fmt env files task w) as [w1 co1]. reflexivity. }
    assert (HF : job' = F job).
    { rewrite Hrun in Hsame.
      change (job_of (touch F (b_job_id (args task)) w) (b_job_id (args task))
              = Some job') in Hsame.
      rewrite touch_job_of_same, Hjob in Hsame. simpl in Hsame.
      congruence. }
    subst job'.
    exists rest, c, f, s, (F job). split; [exact Hfrom|].
    split; [exact Hsame|].
    destruct HFl as (Htot & Hst & Hcnt & Hlab & Hprog).
    repeat match goal with |- _ /\ _ => split end; congruence.
  - intros l w' jid job' Hstep Hjob' Hfailed.
    destruct (step_status fmt w l w' jid job' HI Hstep Hjob')
      as [(job & Hjob & _ & Hwhy)|(_ & Hpending & _)].
    + destruct (Hwhy Hfailed) as [Hold|Hcancel]; [right; eauto|left; exact Hcancel].
    + congruence.
Qed.

Lemma reachable_failed_one : reachable plain_translator failed_one.
Proof.
  unfold failed_one.
  do 2 (eapply reachable_step; [|apply step_resume]).
  eapply reachable_step; [apply reachable_init|].
  apply step_submit. apply unused_init.
Qed.

(** The only track of the batch has failed, the pipeline ends and its job
    is Completed, with one failed track. *)
Lemma finished_batch_is_completed_witness :
  exists job,
    job_of (run_task plain_translator unreachable_provider ∅ 0%nat failed_one)
      "job-1" = Some job /\
    status job = COMPLETED /\ completed_tracks job = 0 /\
    failed_tracks job = 1 /\ skipped_tracks job = 0.
Proof.
  destruct (finished_batch_is_completed plain_translator failed_one
              reachable_failed_one) as (Hends & Hreport & _).
  pose (task := {| args := args (new_task "job-1" (sample_batch [sample_track]));
                   coro := AwaitSleep [] 0 1 0; must_cancel := false |}).
  assert (Ht : tasks failed_one !! 0%nat = Some task)
    by (vm_compute; reflexivity).
  pose proof (Hends 0%nat task unreachable_provider ∅ [] 0 1 0 Ht eq_refl
                eq_refl (List.Forall_nil _)) as Ht'.
  destruct (Hreport 0%nat task unreachable_provider ∅ _ Ht eq_refl Ht' eq_refl)
    as (rest & c & f & s & job & Hfrom & Hjob & Hst & _ & Hc & Hf & Hs & _).
  destruct Hfrom as [Hco|[Hco _]]; [|discriminate].
  injection Hco as <- <- <- <-.
  exists job. split; [exact Hjob|]. simpl in Hf. auto.
Defined.

(** An evicted job does not come back: its id stays used. *)
Lemma gone_stays_gone fmt w w' jid :
  steps fmt w w' -> Inv w -> used w jid -> job_of w jid = None ->
  job_of w' jid = None.
Proof.
  induction 1 as [w|w l w1 w2 Hstep Hrest IH]; intros HI Hused Hnone;
    [exact Hnone|].
  apply IH.
  - eapply Inv_step; eauto.
  - eapply used_step; eauto.
  - destruct (job_of w1 jid) as [job1|] eqn:Hjob1; [|reflexivity].
    exfalso.
    destruct (step_status fmt w l w1 jid job1 HI Hstep Hjob1)
      as [(job0 & Hjob0 & _)|(_ & _ & Hfresh)]; [congruence|].
    destruct Hused as (t & task & Ht & Hjid). exact (Hfresh t task Ht Hjid).
Qed.

(** C7: along any run of the system from a state it can reach, the status
    of a job only moves forward in the order Pending, Running, then
    Completed or Failed: once Completed or Failed it does not change any
    more, and once Running it is never Pending again. *)
Theorem status_moves_forward
    (fmt : option Z -> string -> string -> string -> string)
    (w w' : World) (jid : string) (job job' : JobStatusResponse) :
  reachable fmt w ->
  steps fmt w w' ->
  job_of w jid = Some job ->
  job_of w' jid = Some job' ->
  forward (status job) (status job') = true /\
  (is_terminal (status job) = true -> status job' = status job) /\
  (status job = RUNNING -> status job' <> PENDING).
Proof.
  intros Hreach Hsteps Hjob Hjob'.
  pose proof (reachable_Inv fmt w Hreach) as HI.
  assert (Hused : used w jid).
  { unfold job_of in Hjob. destruct (jobs w !! jid) as [l|] eqn:Hl; [|discriminate].
    apply (inv_owner w HI jid l Hl). }
  assert (Hfwd : forward (status job) (status job') = true).
  { clear Hreach. revert job job' Hjob Hjob' HI Hused.
    induction Hsteps as [w|w l w1 w2 Hstep Hrest IH];
      intros job job' Hjob Hjob' HI Hused.
    - rewrite Hjob in Hjob'. injection Hjob' as <-. apply forward_refl.
    - pose proof (Inv_step fmt w l w1 HI Hstep) as HI1.
      pose proof (used_step fmt w l w1 jid Hstep Hused) as Hused1.
      destruct (job_of w1 jid) as [job1|] eqn:Hjob1.
      + specialize (IH job1 job' eq_refl Hjob' HI1 Hused1).
        destruct (step_status fmt w l w1 jid job1 HI Hstep Hjob1)
          as [(job0 & Hjob0 & Hf & _)|(Hnone & _)]; [|congruence].
        rewrite Hjob in Hjob0. injection Hjob0 as <-.
        eapply forward_trans; eauto.
      + rewrite (gone_stays_gone fmt w1 w2 jid Hrest HI1 Hused1 Hjob1) in Hjob'.
        discriminate. }
  split; [exact Hfwd|]. split.
  - intros Hterm. eapply forward_terminal; eauto.
  - intros Hrun. rewrite Hrun in Hfwd. apply forward_running. exact Hfwd.
Qed.

(** The cancelled job stays Failed while its task is resumed and ends. *)
Lemma status_moves_forward_witness :
  exists job',
    job_of (run_task plain_translator (serving good_mp3) ∅ 0%nat cancelled_midway)
      "job-1" = Some job' /\
    status job' = FAILED.
Proof.
  assert (Hjob : exists job, job_of cancelled_midway "job-1" = Some job /\
                             status job = FAILED).
  { eexists. split; vm_compute; reflexivity. }
  destruct Hjob as (job & Hjob & Hst).
  assert (Hjob' : exists job',
            job_of (run_task plain_translator (serving good_mp3) ∅ 0%nat
                      cancelled_midway) "job-1" = Some job').
  { eexists. vm_compute. reflexivity. }
  destruct Hjob' as (job' & Hjob').
  exists job'. split; [exact Hjob'|].
  destruct (status_moves_forward plain_translator cancelled_midway
              (run_task plain_translator (serving good_mp3) ∅ 0%nat
                 cancelled_midway) "job-1" job job') as (_ & Hterm & _).
  - apply reachable_cancelled_midway.
  - eapply steps_cons; [apply step_resume|apply steps_refl].
  - exact Hjob.
  - exact Hjob'.
  - rewrite Hterm, Hst; [reflexivity|]. rewrite Hst. reflexivity.
Defined.

(** ** Rounding to binary64 stays finite on bounded values *)

Lemma digits2_pos_size (p : positive) : digits2_pos p = Pos.size p.
Proof. induction p as [p IH|p IH|]; simpl; congruence. Qed.

Lemma Zdigits2_nonneg (m : Z) : 0 <= Zdigits2 m.
Proof. destruct m; simpl; lia. Qed.

Lemma Zdigits2_log2 (m : Z) : 0 < m -> Zdigits2 m = Z.log2 m + 1.
Proof.
  destruct m as [|p|p]; try lia. intros _. simpl.
  rewrite digits2_pos_size. destruct p; simpl; lia.
Qed.

Lemma Zdigits2_le (m k : Z) : 0 <= m -> 0 <= k -> m < 2 ^ k -> Zdigits2 m <= k.
Proof.
  intros Hm Hk Hlt. destruct (Z.eq_dec m 0) as [->|Hne]; [simpl; lia|].
  rewrite Zdigits2_log2 by lia.
  apply Z.log2_lt_pow2 in Hlt; lia.
Qed.

Lemma Zdigits2_gt (m : Z) : 0 <= m -> m < 2 ^ Zdigits2 m.
Proof.
  intros Hm. destruct (Z.eq_dec m 0) as [->|Hne]; [simpl; lia|].
  rewrite Zdigits2_log2 by lia.
  apply Z.log2_lt_pow2; lia.
Qed.

Lemma shr_1_m (mrs : shr_record) :
  0 <= shr_m mrs -> shr_m (shr_1 mrs) = Z.div2 (shr_m mrs).
Proof.
  destruct mrs as [m r s]. simpl. intros Hm.
  destruct m as [|p|p]; try lia; [reflexivity|].
  destruct p; reflexivity.
Qed.

Lemma iter_shr_1_m (p : positive) : forall mrs,
  0 <= shr_m mrs ->
  shr_m (iter_pos shr_1 p mrs) = Z.shiftr (shr_m mrs) (Z.pos p).
Proof.
  assert (Hd : forall x, 0 <= x -> Z.div2 x = Z.shiftr x 1).
  { intros x _. rewrite Z.div2_spec. reflexivity. }
  assert (Hnn : forall x n, 0 <= x -> 0 <= Z.shiftr x n).
  { intros x n Hx. apply Z.shiftr_nonneg. exact Hx. }
  induction p as [p IH|p IH|]; intros mrs Hm; simpl.
  - rewrite IH, IH, shr_1_m, Hd by
      (try rewrite IH; try rewrite shr_1_m; try rewrite Hd; auto).
    rewrite !Z.shiftr_shiftr by lia. f_equal. lia.
  - rewrite IH, IH by (try rewrite IH; auto).
    rewrite !Z.shiftr_shiftr by lia. f_equal. lia.
  - rewrite shr_1_m, Hd by assumption. reflexivity.
Qed.

Lemma shr_record_of_loc_m (m : Z) (l : location) : shr_m (shr_record_of_loc m l) = m.
Proof. destruct l as [|[| |]]; reflexivity. Qed.

Lemma Zdigits2_shiftr (m n : Z) :
  0 <= m -> 0 < n -> Zdigits2 (Z.shiftr m n) <= Z.max 0 (Zdigits2 m - n).
Proof.
  intros Hm Hn.
  assert (Hs : 0 <= Z.shiftr m n) by (apply Z.shiftr_nonneg; exact Hm).
  destruct (Z.eq_dec (Z.shiftr m n) 0) as [->|Hne]; [simpl; lia|].
  assert (Hpos : 0 < m).
  { destruct (Z.eq_dec m 0) as [->|]; [rewrite Z.shiftr_0_l in Hne|]; lia. }
  rewrite (Zdigits2_log2 (Z.shiftr m n)) by lia.
  rewrite Z.log2_shiftr by lia. rewrite (Zdigits2_log2 m) by lia.
  assert (Hle : n <= Z.log2 m).
  { destruct (Z_lt_le_dec (Z.log2 m) n) as [Hlt|]; [|assumption].
    exfalso. apply Hne. apply Z.shiftr_eq_0_iff. right. lia. }
  lia.
Qed.

(** The bound kept by the alignment to the exponent of the format. *)
Lemma shr_fexp_bound (m e K : Z) (l : location) :
  0 <= m -> Zdigits2 m + e <= K -> emin prec emax <= K ->
  0 <= shr_m (fst (shr_fexp prec emax m e l)) /\
  Zdigits2 (shr_m (fst (shr_fexp prec emax m e l)))
  + snd (shr_fexp prec emax m e l) <= K.
Proof.
  intros Hm HK Hmin. unfold shr_fexp, shr.
  pose proof (Zdigits2_nonneg m) as Hd.
  destruct (fexp prec emax (Zdigits2 m + e) - e) as [|n|n] eqn:Hn; simpl;
    rewrite ?shr_record_of_loc_m; try (split; [assumption|lia]).
  rewrite iter_shr_1_m by (rewrite shr_record_of_loc_m; assumption).
  rewrite shr_record_of_loc_m.
  split; [apply Z.shiftr_nonneg; assumption|].
  pose proof (Zdigits2_shiftr m (Z.pos n) Hm ltac:(lia)) as Hs.
  unfold fexp in Hn. unfold emin, prec, emax in *. lia.
Qed.

Lemma round_nearest_even_bound (m : Z) (l : location) :
  0 <= m ->
  0 <= round_nearest_even m l /\
  Zdigits2 (round_nearest_even m l) <= Zdigits2 m + 1.
Proof.
  intros Hm.
  assert (Hsucc : Zdigits2 (m + 1) <= Zdigits2 m + 1).
  { apply Zdigits2_le; [lia|pose proof (Zdigits2_nonneg m); lia|].
    pose proof (Zdigits2_gt m Hm) as Hg.
    rewrite Z.pow_add_r by (try apply Zdigits2_nonneg; lia). lia. }
  unfold round_nearest_even.
  destruct l as [|[| |]]; try destruct (Z.even m); split; lia.
Qed.

Lemma binary_round_aux_finite (sx : bool) (mx ex K : Z) (lx : location) :
  0 <= mx -> Zdigits2 mx + ex <= K -> emin prec emax <= K -> K <= 970 ->
  binary_round_aux prec emax sx mx ex lx = S754_zero sx \/
  exists m e,
    binary_round_aux prec emax sx mx ex lx = S754_finite sx m e /\
    Zdigits2 (Z.pos m) + e <= K + 1.
Proof.
  intros Hm HK Hmin Hmax. unfold binary_round_aux.
  destruct (shr_fexp_bound mx ex K lx Hm HK Hmin) as [H1 H2].
  destruct (shr_fexp prec emax mx ex lx) as [mrs1 e1]. simpl in H1, H2.
  destruct (round_nearest_even_bound (shr_m mrs1) (loc_of_shr_record mrs1) H1)
    as [H3 H4].
  destruct (shr_fexp_bound
              (round_nearest_even (shr_m mrs1) (loc_of_shr_record mrs1))
              e1 (K + 1) loc_Exact H3 ltac:(lia) ltac:(lia)) as [H5 H6].
  destruct (shr_fexp prec emax
              (round_nearest_even (shr_m mrs1) (loc_of_shr_record mrs1))
              e1 loc_Exact) as [mrs2 e2]. simpl in H5, H6.
  destruct (shr_m mrs2) as [|p|p] eqn:Hp; [left; reflexivity| |lia].
  right. exists p, e2.
  assert (He : (e2 <=? emax - prec) = true).
  { apply Z.leb_le. unfold emax, prec.
    assert (1 <= Zdigits2 (Z.pos p)) by (simpl; lia). lia. }
  rewrite He. split; [reflexivity|exact H6].
Qed.

Lemma div_eucl_pair (a b : Z) : Z.div_eucl a b = (a / b, a mod b).
Proof. unfold Z.div, Z.modulo. destruct (Z.div_eucl a b); reflexivity. Qed.

(** [a / b] for [0 < a <= b]: a float below 2. *)
Lemma int_truediv_fraction (a b : positive) :
  (a <= b)%positive ->
  exists q, int_truediv (Z.pos a) (Z.pos b) = Ok q /\
    (q = S754_zero false \/
     exists m e, q = S754_finite false m e /\ Zdigits2 (Z.pos m) + e <= 2).
Proof.
  intros Hab. unfold int_truediv.
  replace (Z.pos b =? 0) with false by reflexivity.
  cbn [float_of_int_exact SFdiv]. unfold SFdiv_core_binary.
  set (e' := Z.min (fexp prec emax (Zdigits2 (Z.pos a) + 0 - (Zdigits2 (Z.pos b) + 0)))
               (0 - 0)).
  assert (He' : e' <= 0) by (unfold e'; lia).
  assert (Hmin : emin prec emax <= e').
  { unfold e', fexp, emin, prec, emax. lia. }
  set (m' := match 0 - 0 - e' with
             | 0 => Z.pos a
             | Z.pos _ => Z.shiftl (Z.pos a) (0 - 0 - e')
             | Z.neg _ => 0
             end).
  assert (Hm' : m' = Z.pos a * 2 ^ (- e')).
  { unfold m'. destruct (0 - 0 - e') as [|p|p] eqn:Hs; try lia.
    - replace (- e') with 0 by lia. lia.
    - rewrite Z.shiftl_mul_pow2 by lia. f_equal. f_equal. lia. }
  rewrite div_eucl_pair.
  assert (Hpow : 0 < 2 ^ (- e')) by (apply Z.pow_pos_nonneg; lia).
  assert (Hq0 : 0 <= m' / Z.pos b) by (apply Z.div_pos; nia).
  assert (Hq1 : m' / Z.pos b <= 2 ^ (- e')).
  { apply Z.div_le_upper_bound; [lia|]. rewrite Hm'. nia. }
  assert (HD : Zdigits2 (m' / Z.pos b) + e' <= 1).
  { assert (Zdigits2 (m' / Z.pos b) <= - e' + 1); [|lia].
    apply Zdigits2_le; [assumption|lia|].
    rewrite Z.pow_add_r by lia. lia. }
  destruct (binary_round_aux_finite (xorb false false) (m' / Z.pos b) e' 1
              (new_location (Z.pos b) (m' mod Z.pos b)) Hq0 HD)
    as [Hz|(m & e & Hf & Hb)];
    [unfold emin, prec, emax in *; lia|lia| |].
  - rewrite Hz. simpl. eauto.
  - rewrite Hf. simpl. eexists. split; [reflexivity|]. right. eauto.
Qed.

Lemma Zdigits2_mul (x y : positive) :
  Zdigits2 (Z.pos (x * y)) <= Zdigits2 (Z.pos x) + Zdigits2 (Z.pos y).
Proof.
  apply Zdigits2_le; [lia| |].
  - pose proof (Zdigits2_nonneg (Z.pos x)). pose proof (Zdigits2_nonneg (Z.pos y)). lia.
  - rewrite Z.pow_add_r by apply Zdigits2_nonneg.
    pose proof (Zdigits2_gt (Z.pos x) ltac:(lia)).
    pose proof (Zdigits2_gt (Z.pos y) ltac:(lia)).
    rewrite Pos2Z.inj_mul. nia.
Qed.

(** The percentage is computed without an exception whenever the counts
    are within a positive total. *)
Lemma progress_percent_returns (c f s total : Z) :
  0 <= c + f + s -> c + f + s <= total -> 0 < total ->
  exists p, progress_percent c f s total = Ok p.
Proof.
  intros H0 Hle Hpos. unfold progress_percent.
  destruct total as [|b|b]; try lia.
  destruct (c + f + s) as [|a|a] eqn:Hsum; try lia.
  - exists 0. vm_compute. reflexivity.
  - destruct (int_truediv_fraction a b ltac:(lia)) as (q & -> & Hq).
    unfold bind at 1. unfold float_mul_int.
    replace (float_of_int 100)
      with (Ok (S754_finite false 7036874417766400 (-46)))
      by (vm_compute; reflexivity).
    unfold bind at 2.
    destruct Hq as [->|(m & e & -> & Hb)]; [exists 0; reflexivity|].
    cbn [bind SFmul].
    pose proof (Zdigits2_mul m 7036874417766400) as Hmul.
    replace (Zdigits2 (Z.pos 7036874417766400)) with 53 in Hmul by reflexivity.
    destruct (binary_round_aux_finite (xorb false false)
                (Z.pos (m * 7036874417766400)) (e + -46) 9 loc_Exact)
      as [Hz|(m2 & e2 & Hf & _)];
      try (unfold emin, prec, emax; lia).
    + rewrite Hz. eexists. reflexivity.
    + rewrite Hf. eexists. reflexivity.
Qed.

(** ** The percentage of [update_job_progress] *)

Lemma update_job_progress_in_range jid label c f s w job :
  job_of w jid = Some job ->
  0 <= c + f + s -> c + f + s <= total_tracks job -> 0 < total_tracks job ->
  update_job_progress jid label c f s w
  = (touch (progress_update label c f s) jid w, Ok tt).
Proof.
  intros Hjob H0 Hle Hpos.
  rewrite <- update_job_progress_touch.
  destruct (update_job_progress jid label c f s w) as [w1 [[]|msg]] eqn:E;
    [reflexivity|].
  destruct (update_job_progress_raise jid label c f s w msg) as (job' & Hj & Hr).
  { rewrite E. reflexivity. }
  rewrite Hjob in Hj. injection Hj as <-.
  destruct (progress_percent_returns c f s (total_tracks job) H0 Hle Hpos)
    as [p Hp].
  rewrite Hp in Hr. discriminate.
Qed.

(** X1: for a job in the registry with a positive total, a progress report
    whose counts add up to a number between 0 and the total returns
    normally, whatever the size of the numbers, and stores the label, the
    three counts and the computed percentage, leaving the other fields. *)
Theorem update_job_progress_returns (w : World) (jid label : string)
    (c f s : Z) (job : JobStatusResponse) :
  job_of w jid = Some job ->
  0 <= c + f + s -> c + f + s <= total_tracks job -> 0 < total_tracks job ->
  exists p,
    progress_percent c f s (total_tracks job) = Ok p /\
    snd (update_job_progress jid label c f s w) = Ok tt /\
    job_of (fst (update_job_progress jid label c f s w)) jid
    = Some (set_progress p (set_counts label c f s job)).
Proof.
  intros Hjob H0 Hle Hpos.
  destruct (progress_percent_returns c f s (total_tracks job) H0 Hle Hpos)
    as [p Hp].
  exists p. split; [exact Hp|].
  unfold update_job_progress. unfold job_of in *.
  destruct (jobs w !! jid) as [l|] eqn:Hl; simpl in Hjob; [|discriminate].
  rewrite Hjob, Hp. simpl. split; [reflexivity|].
  rewrite Hl. simpl. apply lookup_insert_eq.
Qed.

Lemma update_job_progress_returns_witness :
  exists p,
    progress_percent 1 1 0 2 = Ok p /\
    snd (update_job_progress "job-1" "Song - Ann, Bob" 1 1 0 two_tracks_job)
    = Ok tt.
Proof.
  assert (Hjob : exists job, job_of two_tracks_job "job-1" = Some job /\
                             total_tracks job = 2).
  { eexists. split; vm_compute; reflexivity. }
  destruct Hjob as (job & Hjob & Htot).
  destruct (update_job_progress_returns two_tracks_job "job-1"
              "Song - Ann, Bob" 1 1 0 job Hjob ltac:(lia)
              ltac:(rewrite Htot; lia) ltac:(rewrite Htot; lia))
    as (p & Hp & Hret & _).
  exists p. rewrite Htot in Hp. auto.
Defined.

(** X2: on a job whose total is 0 a progress report raises the division
    error, after the label and the three counts have been stored: the
    record keeps them, with the percentage it had. *)
Theorem update_job_progress_zero_total (w : World) (jid label : string)
    (c f s : Z) (job : JobStatusResponse) :
  job_of w jid = Some job ->
  total_tracks job = 0 ->
  snd (update_job_progress jid label c f s w) = Raise "division by zero" /\
  job_of (fst (update_job_progress jid label c f s w)) jid
  = Some (set_counts label c f s job) /\
  progress (set_counts label c f s job) = progress job.
Proof.
  intros Hjob Htot.
  unfold update_job_progress. unfold job_of in *.
  destruct (jobs w !! jid) as [l|] eqn:Hl; simpl in Hjob; [|discriminate].
  rewrite Hjob, Htot.
  assert (Hp : progress_percent c f s 0 = Raise "division by zero")
    by reflexivity.
  rewrite Hp. simpl. split; [reflexivity|]. split; [|reflexivity].
  rewrite Hl. simpl. apply lookup_insert_eq.
Qed.

Lemma update_job_progress_zero_total_witness :
  snd (update_job_progress "job-0" "Song" 0 0 0
         (fst (create_job "job-0" 0 "downloads" JobManager_init)))
  = Raise "division by zero".
Proof.
  eapply (update_job_progress_zero_total
            (fst (create_job "job-0" 0 "downloads" JobManager_init)) "job-0").
  - vm_compute. reflexivity.
  - reflexivity.
Defined.

(** *** Accuracy on jobs of up to 500 tracks *)

Lemma forall_range_sound (P : Z -> bool) (n : nat) : forall a x,
  forall_range P n a = true -> a <= x < a + Z.of_nat n -> P x = true.
Proof.
  induction n as [|n IH]; intros a x H Hx; [lia|].
  simpl in H. apply andb_true_iff in H as [Ha Hrest].
  destruct (Z.eq_dec x a) as [->|Hne]; [exact Ha|].
  apply (IH (a + 1)); [exact Hrest|lia].
Qed.

Lemma percent_chain_sound (total : Z) (n : nat) : forall a prev x,
  percent_chain total n a prev = true -> a <= x < a + Z.of_nat n ->
  percent_ok total x (stored_percent x total) = true /\
  prev <= stored_percent a total /\
  (a < x -> stored_percent (x - 1) total <= stored_percent x total).
Proof.
  induction n as [|n IH]; intros a prev x H Hx; [lia|].
  simpl in H. apply andb_true_iff in H as [H Hrest].
  apply andb_true_iff in H as [Hok Hprev]. apply Z.leb_le in Hprev.
  destruct (Z.eq_dec x a) as [->|Hne].
  - split; [exact Hok|]. split; [exact Hprev|]. lia.
  - destruct (IH (a + 1) (stored_percent a total) x Hrest ltac:(lia))
      as (Hx1 & Hx2 & Hx3).
    split; [exact Hx1|]. split; [exact Hprev|]. intros _.
    destruct (Z.eq_dec x (a + 1)) as [->|Hne'].
    + replace (a + 1 - 1) with a by lia. exact Hx2.
    + apply Hx3. lia.
Qed.

Lemma percent_ok_upto_sound (bound : nat) (total count : Z) :
  percent_ok_upto bound = true ->
  0 < total <= Z.of_nat bound -> 0 <= count <= total ->
  percent_ok total count (stored_percent count total) = true /\
  (0 < count -> stored_percent (count - 1) total <= stored_percent count total).
Proof.
  intros Hall Ht Hc. unfold percent_ok_upto in Hall.
  pose proof (forall_range_sound _ _ 1 total Hall ltac:(lia)) as H.
  destruct (percent_chain_sound total _ 0 0 count H ltac:(lia)) as (H1 & _ & H3).
  auto.
Qed.

Lemma percent_ok_upto_500 : percent_ok_upto 500 = true.
Proof. vm_compute. reflexivity. Qed.

Lemma percent_ok_500 (total count : Z) :
  0 < total <= 500 -> 0 <= count <= total ->
  percent_ok total count (stored_percent count total) = true /\
  (0 < count -> stored_percent (count - 1) total <= stored_percent count total).
Proof.
  intros Ht Hc.
  apply (percent_ok_upto_sound 500 total count percent_ok_upto_500); lia.
Qed.

Lemma progress_percent_sum (c f s total : Z) :
  progress_percent c f s total = progress_percent (c + f + s) 0 0 total.
Proof. unfold progress_percent. rewrite !Z.add_0_r. reflexivity. Qed.

Lemma stored_percent_mono (total : Z) (n : nat) : forall a,
  0 < total <= 500 -> 0 <= a -> a + Z.of_nat n <= total ->
  stored_percent a total <= stored_percent (a + Z.of_nat n) total.
Proof.
  induction n as [|n IH]; intros a Ht Ha Hn.
  - replace (a + Z.of_nat 0) with a by lia. lia.
  - destruct (percent_ok_500 total (a + 1) Ht ltac:(lia)) as [_ Hstep].
    specialize (Hstep ltac:(lia)). replace (a + 1 - 1) with a in Hstep by lia.
    specialize (IH (a + 1) Ht ltac:(lia) ltac:(lia)).
    replace (a + Z.of_nat (S n)) with (a + 1 + Z.of_nat n) by lia. lia.
Qed.

(** X3: for a total of at most 500 tracks and counts that add up to a
    number between 0 and the total, the percentage is computed, is the
    floor of the exact percentage or one below it, lies between 0 and 100,
    and does not decrease when the counts grow. *)
Theorem progress_accuracy (c f s c' f' s' total : Z) :
  0 < total <= 500 ->
  0 <= c + f + s -> c + f + s <= c' + f' + s' -> c' + f' + s' <= total ->
  exists p p',
    progress_percent c f s total = Ok p /\
    progress_percent c' f' s' total = Ok p' /\
    100 * (c + f + s) / total - 1 <= p <= 100 * (c + f + s) / total /\
    0 <= p <= 100 /\ p <= p'.
Proof.
  intros Ht H0 Hle Hmax.
  destruct (progress_percent_returns c f s total ltac:(lia) ltac:(lia)
              ltac:(lia)) as [p Hp].
  destruct (progress_percent_returns c' f' s' total ltac:(lia) ltac:(lia)
              ltac:(lia)) as [p' Hp'].
  exists p, p'. split; [exact Hp|]. split; [exact Hp'|].
  assert (Hsp : stored_percent (c + f + s) total = p).
  { unfold stored_percent. rewrite <- progress_percent_sum, Hp. reflexivity. }
  assert (Hsp' : stored_percent (c' + f' + s') total = p').
  { unfold stored_percent. rewrite <- progress_percent_sum, Hp'. reflexivity. }
  destruct (percent_ok_500 total (c + f + s) Ht ltac:(lia)) as [Hok _].
  unfold percent_ok in Hok. rewrite Hsp in Hok.
  repeat (apply andb_true_iff in Hok as [Hok ?]).
  repeat match goal with
         | H : (_ <=? _) = true |- _ => apply Z.leb_le in H
         end.
  split; [lia|]. split; [lia|].
  pose proof (stored_percent_mono total
                (Z.to_nat (c' + f' + s' - (c + f + s))) (c + f + s) Ht H0
                ltac:(lia)) as Hmono.
  replace (c + f + s + Z.of_nat (Z.to_nat (c' + f' + s' - (c + f + s))))
    with (c' + f' + s') in Hmono by lia.
  lia.
Qed.

Lemma progress_accuracy_witness :
  exists p p',
    progress_percent 29 0 0 100 = Ok p /\
    progress_percent 29 1 0 100 = Ok p' /\ 28 <= p <= 29 /\ p <= p'.
Proof.
  destruct (progress_accuracy 29 0 0 29 1 0 100 ltac:(lia) ltac:(lia)
              ltac:(lia) ltac:(lia))
    as (p & p' & Hp & Hp' & Hfl & _ & Hmono).
  exists p, p'. repeat split; try assumption;
    change (100 * (29 + 0 + 0) / 100) with 29 in Hfl; lia.
Defined.

(** * Further properties

    ** The registry *)

Lemma create_job_job_of_new uuid total path w :
  job_of (fst (create_job uuid total path w)) uuid
  = Some (created_job uuid total path).
Proof.
  unfold job_of, create_job. simpl.
  rewrite lookup_insert_eq. simpl. rewrite lookup_insert_eq. reflexivity.
Qed.

Lemma create_job_job_of_other uuid total path w k :
  well_formed w -> k <> uuid ->
  job_of (fst (create_job uuid total path w)) k = job_of w k.
Proof.
  intros Hwf Hne. unfold job_of, create_job. simpl.
  rewrite lookup_insert_ne by done.
  destruct (jobs w !! k) as [l|] eqn:Hk; simpl; [|reflexivity].
  rewrite lookup_insert_ne; [reflexivity|].
  intros Heq. eapply fresh_loc_unused; eauto.
Qed.

Lemma create_job_well_formed uuid total path w :
  well_formed w -> well_formed (fst (create_job uuid total path w)).
Proof.
  intros Hwf. pose proof Hwf as [Hdom Hinj]. split; simpl.
  - intros k l Hk. destruct (decide (uuid = k)) as [<-|Hne].
    + rewrite lookup_insert_eq in Hk. injection Hk as <-.
      rewrite lookup_insert_eq. eauto.
    + rewrite lookup_insert_ne in Hk by done.
      rewrite lookup_insert_ne; [eauto|].
      intros Heq. eapply fresh_loc_unused; eauto.
  - intros j1 j2 l H1 H2.
    destruct (decide (uuid = j1)) as [<-|Hne1];
      destruct (decide (uuid = j2)) as [<-|Hne2]; [reflexivity| | |].
    + rewrite lookup_insert_eq in H1. injection H1 as <-.
      rewrite lookup_insert_ne in H2 by done.
      exfalso. eapply fresh_loc_unused; eauto.
    + rewrite lookup_insert_eq in H2. injection H2 as <-.
      rewrite lookup_insert_ne in H1 by done.
      exfalso. eapply fresh_loc_unused; eauto.
    + rewrite lookup_insert_ne in H1, H2 by done. eauto.
Qed.

(** X4: [create_job] returns the id it drew; the job read back under that
    id is Pending with progress 0, the given total and directory, zero
    counts, no current track, no message and no files; every other job
    reads as before, also when the id was already taken; the task table is
    untouched and the registry stays well formed. *)
Theorem create_job_registers (w : World) (uuid path : string) (total : Z) :
  well_formed w ->
  snd (create_job uuid total path w) = uuid /\
  job_of (fst (create_job uuid total path w)) uuid
  = Some (created_job uuid total path) /\
  (forall k, k <> uuid ->
     job_of (fst (create_job uuid total path w)) k = job_of w k) /\
  job_tasks (fst (create_job uuid total path w)) = job_tasks w /\
  tasks (fst (create_job uuid total path w)) = tasks w /\
  well_formed (fst (create_job uuid total path w)).
Proof.
  intros Hwf. split; [reflexivity|].
  split; [apply create_job_job_of_new|].
  split; [intros k Hne; apply create_job_job_of_other; assumption|].
  split; [reflexivity|]. split; [reflexivity|].
  apply create_job_well_formed; assumption.
Qed.

Lemma create_job_registers_witness :
  job_of (fst (create_job "job-2" 7 "music" two_tracks_job)) "job-2"
  = Some (created_job "job-2" 7 "music") /\
  job_of (fst (create_job "job-2" 7 "music" two_tracks_job)) "job-1"
  = job_of two_tracks_job "job-1".
Proof.
  destruct (create_job_registers two_tracks_job "job-2" "music" 7
              two_tracks_job_well_formed) as (_ & Hnew & Hother & _).
  split; [exact Hnew|]. apply Hother. discriminate.
Defined.

(** X5: [update_job_status] on a job of the registry sets the status; the
    message is replaced by a non-empty message only, so that [None] and
    the empty string both keep the message the job had; no other field
    changes, and no other job does. *)
Theorem update_job_status_fields (w : World) (jid : string) (s : JobStatus)
    (msg : option string) (job : JobStatusResponse) :
  well_formed w ->
  job_of w jid = Some job ->
  exists job',
    job_of (update_job_status jid s msg w) jid = Some job' /\
    status job' = s /\
    error_message job'
    = match msg with
      | Some m => if String.eqb m "" then error_message job else Some m
      | None => error_message job
      end /\
    same_but_status job job' /\
    (forall k, k <> jid ->
       job_of (update_job_status jid s msg w) k = job_of w k).
Proof.
  intros Hwf Hjob. rewrite update_job_status_touch.
  exists (status_update s msg job).
  split; [rewrite touch_job_of_same, Hjob; reflexivity|].
  unfold status_update, truthy, same_but_status.
  split; [destruct msg as [m|]; [destruct (String.eqb m "")|]; reflexivity|].
  split; [destruct msg as [m|]; [destruct (String.eqb m "")|]; reflexivity|].
  split; [destruct msg as [m|]; [destruct (String.eqb m "")|]; simpl; tauto|].
  intros k Hne. apply touch_job_of_other; assumption.
Qed.

Lemma update_job_status_fields_witness :
  exists job',
    job_of (update_job_status "job-1" COMPLETED (Some "")
              (update_job_status "job-1" FAILED (Some "boom") two_tracks_job))
      "job-1" = Some job' /\
    status job' = COMPLETED /\ error_message job' = Some "boom".
Proof.
  assert (Hwf : well_formed
                  (update_job_status "job-1" FAILED (Some "boom") two_tracks_job)).
  { rewrite update_job_status_touch. apply touch_well_formed.
    exact two_tracks_job_well_formed. }
  assert (Hjob : exists job,
             job_of (update_job_status "job-1" FAILED (Some "boom")
                       two_tracks_job) "job-1" = Some job /\
             error_message job = Some "boom").
  { eexists. split; vm_compute; reflexivity. }
  destruct Hjob as (job & Hjob & Hmsg).
  destruct (update_job_status_fields _ "job-1" COMPLETED (Some "") job Hwf Hjob)
    as (job' & H1 & H2 & H3 & _).
  exists job'. split; [exact H1|]. split; [exact H2|].
  rewrite H3. simpl. exact Hmsg.
Defined.

Lemma add_downloaded_files_touch jid paths : forall w,
  add_downloaded_files jid paths w
  = touch (fun job => fold_left (fun j p => append_file p j) paths job) jid w.
Proof.
  unfold add_downloaded_files.
  induction paths as [|p paths IH]; intros w; simpl.
  - symmetry. apply touch_id.
  - rewrite IH, add_downloaded_file_touch, touch_touch. reflexivity.
Qed.

Lemma append_files_fields paths : forall job,
  downloaded_files (fold_left (fun j p => append_file p j) paths job)
  = (downloaded_files job ++ paths)%list /\
  same_but_files job (fold_left (fun j p => append_file p j) paths job).
Proof.
  induction paths as [|p paths IH]; intros job; simpl.
  - rewrite app_nil_r. unfold same_but_files. tauto.
  - destruct (IH (append_file p job)) as [Hf Hs]. split.
    + rewrite Hf. simpl. rewrite <- app_assoc. reflexivity.
    + unfold same_but_files in *. simpl in Hs. exact Hs.
Qed.

(** X6: files added to a job one after the other are appended to its list
    in the order of the calls, after the files it had, duplicates
    included; no other field of the job changes and no other job does. *)
Theorem add_downloaded_files_appends (w : World) (jid : string)
    (paths : list string) (job : JobStatusResponse) :
  well_formed w ->
  job_of w jid = Some job ->
  exists job',
    job_of (add_downloaded_files jid paths w) jid = Some job' /\
    downloaded_files job' = (downloaded_files job ++ paths)%list /\
    same_but_files job job' /\
    (forall k, k <> jid ->
       job_of (add_downloaded_files jid paths w) k = job_of w k).
Proof.
  intros Hwf Hjob. rewrite add_downloaded_files_touch.
  eexists. split; [rewrite touch_job_of_same, Hjob; reflexivity|].
  destruct (append_files_fields paths job) as [Hf Hs].
  split; [exact Hf|]. split; [exact Hs|].
  intros k Hne. apply touch_job_of_other; assumption.
Qed.

Lemma add_downloaded_files_appends_witness :
  exists job',
    job_of (add_downloaded_files "job-1" ["a.mp3"; "b.mp3"; "a.mp3"]
              two_tracks_job) "job-1" = Some job' /\
    downloaded_files job' = ["a.mp3"; "b.mp3"; "a.mp3"].
Proof.
  assert (Hjob : exists job, job_of two_tracks_job "job-1" = Some job /\
                             downloaded_files job = []).
  { eexists. split; vm_compute; reflexivity. }
  destruct Hjob as (job & Hjob & Hfiles).
  destruct (add_downloaded_files_appends two_tracks_job "job-1"
              ["a.mp3"; "b.mp3"; "a.mp3"] job two_tracks_job_well_formed Hjob)
    as (job' & H1 & H2 & _).
  exists job'. split; [exact H1|]. rewrite H2, Hfiles. reflexivity.
Defined.

(** An unknown id: the file is dropped. *)
Lemma add_downloaded_file_unknown jid path w :
  jobs w !! jid = None -> add_downloaded_file jid path w = w.
Proof. intros H. unfold add_downloaded_file. rewrite H. reflexivity. Qed.

(** X7: cancelling a job whose task is live a second time, before the
    task has been resumed, returns true again and changes nothing more. *)
Theorem cancel_job_twice (w : World) (jid : string) (t : tid) (task : Task) :
  job_tasks w !! jid = Some t ->
  tasks w !! t = Some task ->
  done task = false ->
  cancel_job jid (fst (cancel_job jid w)) = (fst (cancel_job jid w), true).
Proof.
  intros Hjt Ht Hlive.
  set (task1 := {| args := args task; coro := coro task; must_cancel := true |}).
  assert (Hlive1 : done task1 = false) by exact Hlive.
  pose proof (cancel_job_live w jid t task Hjt Ht Hlive) as H1.
  fold task1 in H1.
  assert (Hjt1 : job_tasks (fst (cancel_job jid w)) !! jid = Some t).
  { rewrite H1. simpl. rewrite touch_job_tasks. exact Hjt. }
  assert (Ht1 : tasks (fst (cancel_job jid w)) !! t = Some task1).
  { rewrite H1. simpl. apply lookup_insert_eq. }
  pose proof (cancel_job_live _ jid t task1 Hjt1 Ht1 Hlive1) as H2.
  assert (Hsnd : snd (cancel_job jid (fst (cancel_job jid w))) = true).
  { unfold cancel_job at 1. rewrite Hjt1, Ht1, Hlive1. reflexivity. }
  destruct (cancel_job jid (fst (cancel_job jid w))) as [w2 b] eqn:E.
  simpl in H2, Hsnd. subst b. f_equal.
  rewrite H2, H1. simpl. rewrite insert_insert_eq.
  rewrite touch_with_tasks, touch_touch.
  unfold with_tasks; simpl. rewrite !touch_jobs, !touch_job_tasks.
  reflexivity.
Qed.

Lemma cancel_job_twice_witness :
  let w := start_download "job-1" (sample_batch [sample_track]) JobManager_init in
  cancel_job "job-1" (fst (cancel_job "job-1" w))
  = (fst (cancel_job "job-1" w), true).
Proof.
  intros w.
  assert (Hjt : job_tasks w !! "job-1" = Some 0%nat) by (vm_compute; reflexivity).
  assert (Ht : exists task, tasks w !! 0%nat = Some task /\ done task = false).
  { eexists. split; vm_compute; reflexivity. }
  destruct Ht as [task [Ht Hlive]].
  exact (cancel_job_twice w "job-1" 0%nat task Hjt Ht Hlive).
Defined.

(** ** The sweep of the finished jobs *)

Lemma finished_sweep w k : finished (cleanup_finished_jobs w) k = false.
Proof.
  unfold finished at 1. rewrite sweep_job_of.
  destruct (finished w k) eqn:Hfin; [reflexivity|].
  unfold finished in Hfin. exact Hfin.
Qed.

Lemma filter_keeps_all {A} (P : string -> bool) (m : gmap string A) :
  (forall k, P k = false) ->
  filter (fun kv : string * A => P (fst kv) = false) m = m.
Proof.
  intros HP. apply map_eq. intros k. rewrite map_lookup_filter.
  destruct (m !! k) as [x|]; simpl; [|reflexivity].
  rewrite option_guard_True by apply HP. reflexivity.
Qed.

(** X8: the sweep removes from the registry exactly the jobs that are
    Completed or Failed, together with their task handles; every other
    job and handle stays as it is; the records of the store and the tasks
    of the event loop are not touched, so the task of a swept job is not
    stopped; and a second sweep right after the first removes nothing. *)
Theorem cleanup_finished_jobs_evicts (w : World) :
  (forall k, job_of (cleanup_finished_jobs w) k
             = if finished w k then None else job_of w k) /\
  (forall k, job_tasks (cleanup_finished_jobs w) !! k
             = if finished w k then None else job_tasks w !! k) /\
  objs (cleanup_finished_jobs w) = objs w /\
  tasks (cleanup_finished_jobs w) = tasks w /\
  (well_formed w -> well_formed (cleanup_finished_jobs w)) /\
  cleanup_finished_jobs (cleanup_finished_jobs w) = cleanup_finished_jobs w.
Proof.
  split; [apply sweep_job_of|]. split.
  { intros k. simpl. rewrite map_lookup_filter.
    destruct (job_tasks w !! k) as [t|]; simpl.
    - destruct (finished w k).
      + rewrite option_guard_False by discriminate. reflexivity.
      + rewrite option_guard_True by reflexivity. reflexivity.
    - destruct (finished w k); reflexivity. }
  split; [reflexivity|]. split; [reflexivity|]. split.
  { intros [Hdom Hinj]. split; simpl.
    - intros k l Hk. apply map_lookup_filter_Some in Hk as [Hk _]. eauto.
    - intros j1 j2 l H1 H2.
      apply map_lookup_filter_Some in H1 as [H1 _].
      apply map_lookup_filter_Some in H2 as [H2 _]. eauto. }
  unfold cleanup_finished_jobs at 1.
  rewrite !(filter_keeps_all (finished (cleanup_finished_jobs w)))
    by apply finished_sweep.
  reflexivity.
Qed.

(** ** The deletion of the files of a job *)

Lemma cleanup_files_effect env paths : forall s,
  snd (cleanup_files env paths s) = Ok tt /\
  (forall p, fs (fst (cleanup_files env paths s)) !! p = fs s !! p \/
             (In p paths /\ fs (fst (cleanup_files env paths s)) !! p = None)) /\
  (forall p, In p paths -> remove_error env p = None ->
             fs (fst (cleanup_files env paths s)) !! p = None) /\
  exists evs,
    log (fst (cleanup_files env paths s)) = (log s ++ evs)%list /\
    Forall (fun e => exists p, e = EvRemove p /\ In p paths /\
                               is_Some (fs s !! p)) evs.
Proof.
  induction paths as [|q paths IH]; intros s.
  - simpl. split; [reflexivity|]. split; [auto|]. split; [intros p []|].
    exists []. rewrite app_nil_r. auto.
  - cbn [cleanup_files].
    set (one := mtry (let* there := os_path_exists q in
                      if there then os_remove env q else ret tt)
                     (fun _ => ret tt)).
    assert (Hone : exists s1,
               one s = (s1, Ok tt) /\
               (fs s1 = fs s \/ (is_Some (fs s !! q) /\ fs s1 = delete q (fs s))) /\
               (remove_error env q = None -> fs s1 !! q = None) /\
               exists evs, log s1 = (log s ++ evs)%list /\
                 Forall (fun e => e = EvRemove q /\ is_Some (fs s !! q)) evs).
    { subst one. unfold os_path_exists, os_remove. run_m.
      destruct (fs s !! q) as [f|] eqn:Hq.
      - rewrite bool_decide_eq_true_2 by eauto. simpl.
        destruct (remove_error env q) as [msg|] eqn:Hrm; simpl.
        + eexists. split; [reflexivity|]. simpl. split; [auto|].
          split; [discriminate|]. exists [EvRemove q]. split; [reflexivity|].
          repeat constructor. eauto.
        + rewrite Hq. simpl. eexists. split; [reflexivity|]. simpl.
          split; [right; split; [eauto|reflexivity]|].
          split; [intros _; apply lookup_delete_eq|].
          exists [EvRemove q]. split; [reflexivity|].
          repeat constructor. eauto.
      - rewrite bool_decide_eq_false_2 by (intros [? ?]; discriminate). simpl.
        eexists. split; [reflexivity|]. split; [auto|].
        split; [intros _; exact Hq|]. exists []. rewrite app_nil_r. auto. }
    destruct Hone as (s1 & Hrun & Hfs & Hgone & evs1 & Hlog1 & Hev1).
    assert (Hmb : (one >> cleanup_files env paths) s
                  = cleanup_files env paths s1).
    { unfold mbind. rewrite Hrun. reflexivity. }
    rewrite Hmb.
    destruct (IH s1) as (Hok & Hframe & Hdel & evs2 & Hlog2 & Hev2).
    assert (Hsub : forall p, is_Some (fs s1 !! p) -> is_Some (fs s !! p)).
    { intros p Hp. destruct Hfs as [E|[_ E]]; rewrite E in Hp; [exact Hp|].
      destruct (decide (q = p)) as [->|Hne].
      - rewrite lookup_delete_eq in Hp. destruct Hp; discriminate.
      - rewrite lookup_delete_ne in Hp by done. exact Hp. }
    split; [exact Hok|]. split.
    { intros p. destruct (Hframe p) as [Hp|[Hin Hp]].
      - rewrite Hp. destruct Hfs as [->|[_ ->]]; [auto|].
        destruct (decide (q = p)) as [->|Hne].
        + right. split; [left; reflexivity|apply lookup_delete_eq].
        + left. apply lookup_delete_ne. done.
      - right. split; [right; exact Hin|exact Hp]. }
    split.
    { intros p [<-|Hin] Hrm.
      - destruct (Hframe q) as [Hp|[_ Hp]]; [|exact Hp].
        rewrite Hp. apply Hgone. exact Hrm.
      - apply Hdel; assumption. }
    exists (evs1 ++ evs2)%list. split.
    { rewrite Hlog2, Hlog1, app_assoc. reflexivity. }
    apply Forall_app. split.
    + eapply Forall_impl; [exact Hev1|]. intros e [-> Hq]. simpl.
      exists q. auto.
    + eapply Forall_impl; [exact Hev2|]. intros e (p & -> & Hin & Hp). simpl.
      exists p. auto.
Qed.

(** X9: the deletion of the recorded files of a job returns normally
    whatever the removals raise; a path of the file system is either
    unchanged or a recorded path that is now gone, so that no file is
    created or overwritten and no file outside the list is touched; a
    recorded path whose removal does not fail is gone afterwards; and the
    only effects are removals of recorded paths that were there. *)
Theorem cleanup_job_files_removes_recorded (env : Env) (w : World)
    (jid : string) (job : JobStatusResponse) (s : St) :
  job_of w jid = Some job ->
  snd (cleanup_job_files env jid w s) = Ok tt /\
  (forall p, fs (fst (cleanup_job_files env jid w s)) !! p = fs s !! p \/
             (In p (downloaded_files job) /\
              fs (fst (cleanup_job_files env jid w s)) !! p = None)) /\
  (forall p, In p (downloaded_files job) -> remove_error env p = None ->
             fs (fst (cleanup_job_files env jid w s)) !! p = None) /\
  exists evs,
    log (fst (cleanup_job_files env jid w s)) = (log s ++ evs)%list /\
    Forall (fun e => exists p, e = EvRemove p /\ In p (downloaded_files job) /\
                               is_Some (fs s !! p)) evs.
Proof.
  intros Hjob. unfold cleanup_job_files. rewrite Hjob.
  apply cleanup_files_effect.
Qed.

Lemma cleanup_job_files_removes_recorded_witness :
  let w := add_downloaded_files "job-1" ["a.mp3"; "gone.mp3"] two_tracks_job in
  let s := {| fs := {["a.mp3" := good_mp3; "keep.mp3" := good_mp3]};
              log := [] |} in
  snd (cleanup_job_files (serving good_mp3) "job-1" w s) = Ok tt /\
  fs (fst (cleanup_job_files (serving good_mp3) "job-1" w s)) !! "a.mp3" = None /\
  fs (fst (cleanup_job_files (serving good_mp3) "job-1" w s)) !! "keep.mp3"
  = Some good_mp3.
Proof.
  intros w s.
  assert (Hjob : exists job, job_of w "job-1" = Some job /\
                             downloaded_files job = ["a.mp3"; "gone.mp3"]).
  { eexists. split; vm_compute; reflexivity. }
  destruct Hjob as (job & Hjob & Hfiles).
  destruct (cleanup_job_files_removes_recorded (serving good_mp3) w "job-1"
              job s Hjob) as (Hok & Hframe & Hdel & _).
  split; [exact Hok|]. split.
  - apply Hdel; [rewrite Hfiles; left; reflexivity|reflexivity].
  - destruct (Hframe "keep.mp3") as [Hp|[Hin _]].
    + rewrite Hp. vm_compute. reflexivity.
    + rewrite Hfiles in Hin. simpl in Hin.
      destruct Hin as [Hin|[Hin|[]]]; discriminate.
Defined.

(** ** Serving the files of a job *)

Lemma py_index_nonneg {A} (l : list A) (i : Z) :
  0 <= i < Z.of_nat (List.length l) ->
  exists x, nth_error l (Z.to_nat i) = Some x /\ py_index l i = Ok x.
Proof.
  intros Hi. unfold py_index.
  destruct (i <? 0) eqn:Hneg; [apply Z.ltb_lt in Hneg; lia|].
  replace ((0 <=? i) && (i <? Z.of_nat (List.length l)))%bool with true
    by (symmetry; apply andb_true_iff; split;
        [apply Z.leb_le|apply Z.ltb_lt]; lia).
  destruct (nth_error l (Z.to_nat i)) as [x|] eqn:Hx; [eauto|].
  apply nth_error_None in Hx. lia.
Qed.

Lemma py_index_negative {A} (l : list A) (i : Z) :
  - Z.of_nat (List.length l) <= i < 0 ->
  py_index l i = py_index l (Z.of_nat (List.length l) + i).
Proof.
  intros Hi. unfold py_index.
  destruct (i <? 0) eqn:Hneg; [|apply Z.ltb_ge in Hneg; lia].
  destruct (Z.of_nat (List.length l) + i <? 0) eqn:Hneg';
    [apply Z.ltb_lt in Hneg'; lia|]. reflexivity.
Qed.

Lemma py_index_below {A} (l : list A) (i : Z) :
  i < - Z.of_nat (List.length l) ->
  py_index l i = Raise "list index out of range".
Proof.
  intros Hi. unfold py_index.
  destruct (i <? 0) eqn:Hneg; [|apply Z.ltb_ge in Hneg; lia].
  destruct (0 <=? Z.of_nat (List.length l) + i) eqn:H0;
    [apply Z.leb_le in H0; lia|]. reflexivity.
Qed.

(** X10: the file of a job served by its index.  An index from the
    length of the list on, or any index when the list is empty, is
    answered with 404; an index from 0 below the length serves the file
    recorded at that position, under its base name and with the media type
    read off the [.mp3] suffix, or 404 when the file is gone; a negative
    index down to minus the length is served like the position counted
    from the end of the list; and an index below minus the length raises
    the index error of the list, which no handler catches. *)
Theorem download_single_file_by_index (w : World) (files : gmap string File)
    (jid : string) (job : JobStatusResponse) (i : Z) :
  job_of w jid = Some job ->
  let n := Z.of_nat (List.length (downloaded_files job)) in
  (n <= i \/ n = 0 ->
     download_single_file w files jid i = HTTPException 404 "File not found") /\
  (0 <= i < n ->
     exists p, nth_error (downloaded_files job) (Z.to_nat i) = Some p /\
       download_single_file w files jid i
       = match files !! p with
         | Some _ =>
             Served {| fr_path := p; fr_filename := basename p;
                       fr_media_type := if endswith p ".mp3" then "audio/mpeg"
                                        else "audio/flac" |}
         | None => HTTPException 404 "File no longer exists"
         end) /\
  (- n <= i < 0 ->
     download_single_file w files jid i
     = download_single_file w files jid (n + i)) /\
  (i < - n -> 0 < n ->
     download_single_file w files jid i
     = Unhandled "list index out of range").
Proof.
  intros Hjob n. unfold download_single_file. rewrite Hjob. fold n.
  assert (Hnil : match downloaded_files job with [] => true | _ => false end
                 = (n =? 0)).
  { subst n. destruct (downloaded_files job); reflexivity. }
  rewrite Hnil.
  split; [|split; [|split]].
  - intros [Hi| ->].
    + replace (n <=? i) with true by (symmetry; apply Z.leb_le; lia).
      rewrite orb_true_r. reflexivity.
    + reflexivity.
  - intros Hi.
    replace (n =? 0) with false by (symmetry; apply Z.eqb_neq; lia).
    replace (n <=? i) with false by (symmetry; apply Z.leb_gt; lia).
    destruct (py_index_nonneg (downloaded_files job) i Hi) as (p & Hp & Hidx).
    exists p. split; [exact Hp|]. rewrite Hidx. simpl.
    destruct (files !! p) as [f|] eqn:Hf.
    + rewrite bool_decide_eq_true_2 by eauto. reflexivity.
    + rewrite bool_decide_eq_false_2 by (intros [? ?]; discriminate).
      reflexivity.
  - intros Hi.
    replace (n =? 0) with false by (symmetry; apply Z.eqb_neq; lia).
    replace (n <=? i) with false by (symmetry; apply Z.leb_gt; lia).
    replace (n <=? n + i) with false by (symmetry; apply Z.leb_gt; lia).
    simpl. subst n. rewrite (py_index_negative _ i Hi). reflexivity.
  - intros Hi Hn.
    replace (n =? 0) with false by (symmetry; apply Z.eqb_neq; lia).
    replace (n <=? i) with false by (symmetry; apply Z.leb_gt; lia).
    simpl. subst n. rewrite (py_index_below _ i Hi). reflexivity.
Qed.

Lemma download_single_file_by_index_witness :
  let w := add_downloaded_files "job-1" ["d/a.mp3"; "d/b.flac"] two_tracks_job in
  let files : gmap string File := {["d/b.flac" := good_mp3]} in
  download_single_file w files "job-1" (-1)
  = Served {| fr_path := "d/b.flac"; fr_filename := "b.flac";
              fr_media_type := "audio/flac" |} /\
  download_single_file w files "job-1" 0
  = HTTPException 404 "File no longer exists" /\
  download_single_file w files "job-1" (-3)
  = Unhandled "list index out of range".
Proof.
  intros w files.
  assert (Hjob : exists job, job_of w "job-1" = Some job /\
                             downloaded_files job = ["d/a.mp3"; "d/b.flac"]).
  { eexists. split; vm_compute; reflexivity. }
  destruct Hjob as (job & Hjob & Hfiles).
  split; [|split].
  - destruct (download_single_file_by_index w files "job-1" job (-1) Hjob)
      as (_ & _ & Hneg & _).
    rewrite Hneg by (rewrite Hfiles; simpl; lia).
    rewrite Hfiles. vm_compute. reflexivity.
  - destruct (download_single_file_by_index w files "job-1" job 0 Hjob)
      as (_ & Hin & _ & _).
    destruct Hin as (p & Hp & ->); [rewrite Hfiles; simpl; lia|].
    rewrite Hfiles in Hp. injection Hp as <-. vm_compute. reflexivity.
  - destruct (download_single_file_by_index w files "job-1" job (-3) Hjob)
      as (_ & _ & _ & Hlow).
    apply Hlow; rewrite Hfiles; simpl; lia.
Defined.

Lemma zip_members_gone (files : gmap string File) (paths : list string) :
  (forall p, In p paths -> files !! p = None) -> zip_members files paths = [].
Proof.
  induction paths as [|q paths IH]; intros H; [reflexivity|]. simpl.
  rewrite (H q) by (left; reflexivity).
  apply IH. intros p Hp. apply H. right. exact Hp.
Qed.

Lemma zip_members_spec (files : gmap string File) (paths : list string) :
  zip_members files paths
  = omap (fun p => f ← files !! p; Some (basename p, f)) paths.
Proof.
  induction paths as [|q paths IH]; [reflexivity|]. simpl.
  destruct (files !! q) as [f|]; simpl; rewrite IH; reflexivity.
Qed.

(** X11: the archive of a job is refused with 404 for an unknown job,
    with 400 for a job that is not Completed even when it has files, and
    with 404 for a Completed job without files; otherwise its members are
    the recorded files that still exist, in the order of the list, each
    under its base name, and its name carries the first eight characters
    of the job id. *)
Theorem download_job_files_members (w : World) (files : gmap string File)
    (jid : string) (job : JobStatusResponse) :
  job_of w jid = Some job ->
  (status job <> COMPLETED ->
     forall zip_error,
       download_job_files zip_error w files jid
       = HTTPException 400 "Job not completed yet") /\
  (status job = COMPLETED -> downloaded_files job = [] ->
     forall zip_error,
       download_job_files zip_error w files jid
       = HTTPException 404 "No files to download") /\
  (status job = COMPLETED -> downloaded_files job <> [] ->
     download_job_files None w files jid
     = Served {| zr_filename :=
                   "spotify_download_" +:+ substring 0 8 jid +:+ ".zip";
                 zr_members :=
                   omap (fun p => f ← files !! p; Some (basename p, f))
                     (downloaded_files job) |}).
Proof.
  intros Hjob. unfold download_job_files. rewrite Hjob.
  split; [|split].
  - intros Hs zip_error. rewrite bool_decide_eq_false_2 by exact Hs.
    reflexivity.
  - intros Hs Hnil zip_error. rewrite bool_decide_eq_true_2 by exact Hs.
    rewrite Hnil. reflexivity.
  - intros Hs Hne. rewrite bool_decide_eq_true_2 by exact Hs. simpl.
    rewrite <- zip_members_spec.
    destruct (downloaded_files job); [contradiction|reflexivity].
Qed.

Lemma download_job_files_members_witness :
  let w := update_job_status "job-1" COMPLETED None
             (add_downloaded_files "job-1" ["d/a.mp3"; "d/b.mp3"]
                two_tracks_job) in
  let files : gmap string File := {["d/b.mp3" := good_mp3]} in
  download_job_files None w files "job-1"
  = Served {| zr_filename := "spotify_download_job-1.zip";
              zr_members := [("b.mp3", good_mp3)] |}.
Proof.
  intros w files.
  assert (Hjob : exists job, job_of w "job-1" = Some job /\
                   status job = COMPLETED /\
                   downloaded_files job = ["d/a.mp3"; "d/b.mp3"]).
  { eexists. split; [|split]; vm_compute; reflexivity. }
  destruct Hjob as (job & Hjob & Hs & Hfiles).
  destruct (download_job_files_members w files "job-1" job Hjob)
    as (_ & _ & Hzip).
  rewrite Hzip; [|exact Hs|rewrite Hfiles; discriminate].
  rewrite Hfiles. vm_compute. reflexivity.
Defined.

(** X12: once the files of a job have been deleted, none of the removals
    failing, the job still lists them: every index that was served before
    is now answered with 404 because the file no longer exists, and the
    archive of a Completed job is still built, with no member. *)
Theorem files_gone_after_cleanup (env : Env) (w : World) (jid : string)
    (job : JobStatusResponse) (s : St) :
  job_of w jid = Some job ->
  (forall p, In p (downloaded_files job) -> remove_error env p = None) ->
  let files' := fs (fst (cleanup_job_files env jid w s)) in
  let n := Z.of_nat (List.length (downloaded_files job)) in
  (forall i, - n <= i < n ->
     download_single_file w files' jid i
     = HTTPException 404 "File no longer exists") /\
  (status job = COMPLETED -> downloaded_files job <> [] ->
     exists name,
       download_job_files None w files' jid
       = Served {| zr_filename := name; zr_members := [] |}).
Proof.
  intros Hjob Hrm files' n.
  assert (Hgone : forall p, In p (downloaded_files job) -> files' !! p = None).
  { intros p Hp. subst files'. unfold cleanup_job_files. rewrite Hjob.
    destruct (cleanup_files_effect env (downloaded_files job) s)
      as (_ & _ & Hdel & _).
    apply Hdel; [exact Hp|apply Hrm; exact Hp]. }
  assert (Hpos : forall i, 0 <= i < n ->
            download_single_file w files' jid i
            = HTTPException 404 "File no longer exists").
  { intros i Hi. unfold download_single_file. rewrite Hjob. fold n.
    replace (n <=? i) with false by (symmetry; apply Z.leb_gt; lia).
    assert (Hnil : match downloaded_files job with [] => true | _ => false end
                   = false).
    { destruct (downloaded_files job); [simpl in n; lia|reflexivity]. }
    rewrite Hnil. simpl.
    destruct (py_index_nonneg (downloaded_files job) i Hi) as (p & Hp & ->).
    apply nth_error_In in Hp. rewrite (Hgone p Hp).
    rewrite bool_decide_eq_false_2 by (intros [? ?]; discriminate).
    reflexivity. }
  split.
  - intros i Hi. destruct (Z.neg_nonneg_cases i) as [Hneg|Hnn].
    + assert (E : download_single_file w files' jid i
                  = download_single_file w files' jid (n + i)).
      { unfold download_single_file. rewrite Hjob. fold n.
        replace (n <=? i) with false by (symmetry; apply Z.leb_gt; lia).
        replace (n <=? n + i) with false by (symmetry; apply Z.leb_gt; lia).
        subst n. rewrite (py_index_negative _ i) by lia. reflexivity. }
      rewrite E. apply Hpos. lia.
    + apply Hpos. lia.
  - intros Hs Hne. unfold download_job_files. rewrite Hjob.
    rewrite bool_decide_eq_true_2 by exact Hs. simpl.
    rewrite (zip_members_gone files' _ Hgone).
    destruct (downloaded_files job); [contradiction|]. eauto.
Qed.

Lemma files_gone_after_cleanup_witness :
  let w := add_downloaded_files "job-1" ["d/a.mp3"] two_tracks_job in
  let s := {| fs := {["d/a.mp3" := good_mp3]}; log := [] |} in
  download_single_file w (fs s) "job-1" 0
  = Served {| fr_path := "d/a.mp3"; fr_filename := "a.mp3";
              fr_media_type := "audio/mpeg" |} /\
  download_single_file w
    (fs (fst (cleanup_job_files (serving good_mp3) "job-1" w s))) "job-1" 0
  = HTTPException 404 "File no longer exists".
Proof.
  intros w s. split; [vm_compute; reflexivity|].
  assert (Hjob : exists job, job_of w "job-1" = Some job /\
                             downloaded_files job = ["d/a.mp3"]).
  { eexists. split; vm_compute; reflexivity. }
  destruct Hjob as (job & Hjob & Hfiles).
  destruct (files_gone_after_cleanup (serving good_mp3) w "job-1" job s Hjob)
    as [Hidx _]; [reflexivity|].
  apply Hidx. rewrite Hfiles. simpl. lia.
Defined.

(** ** File names *)

Lemma occurs_app (c : ascii) (a b : string) :
  occurs c (a +:+ b) = (occurs c a || occurs c b)%bool.
Proof.
  induction a as [|d a IH]; simpl; [reflexivity|].
  rewrite IH, orb_assoc. reflexivity.
Qed.

Lemma sanitize_char_clean (c d : ascii) :
  In d forbidden_chars -> Ascii.eqb d (sanitize_char c) = false.
Proof.
  intros Hd. unfold forbidden_chars in Hd. simpl in Hd.
  repeat (destruct Hd as [<-|Hd]);
    try (destruct c as [[] [] [] [] [] [] [] []]; vm_compute; reflexivity).
  destruct Hd.
Qed.

Lemma sanitize_clean (s : string) (d : ascii) :
  In d forbidden_chars -> occurs d (sanitize s) = false.
Proof.
  intros Hd. induction s as [|c s IH]; simpl; [reflexivity|].
  rewrite (sanitize_char_clean c d Hd), IH. reflexivity.
Qed.

Lemma sanitize_app (a b : string) :
  sanitize (a +:+ b) = sanitize a +:+ sanitize b.
Proof. induction a as [|c a IH]; simpl; [reflexivity|]. rewrite IH. reflexivity. Qed.

Lemma sanitize_length (s : string) :
  String.length (sanitize s) = String.length s.
Proof. induction s as [|c s IH]; simpl; [reflexivity|]. rewrite IH. reflexivity. Qed.

Lemma digits_no_slash (d : Decimal.uint) :
  occurs "/" (NilEmpty.string_of_uint d) = false.
Proof. induction d; simpl; try rewrite IHd; reflexivity. Qed.

Lemma string_of_uint_no_slash (d : Decimal.uint) :
  occurs "/" (NilZero.string_of_uint d) = false.
Proof.
  unfold NilZero.string_of_uint.
  destruct d; try reflexivity; apply digits_no_slash.
Qed.

Lemma str_of_int_no_slash (n : Z) : occurs "/" (str_of_int n) = false.
Proof.
  unfold str_of_int, NilZero.string_of_int.
  destruct (Z.to_int n) as [d|d]; simpl; apply string_of_uint_no_slash.
Qed.

Lemma format_02d_no_slash (n : Z) : occurs "/" (format_02d n) = false.
Proof.
  unfold format_02d.
  destruct (String.length (str_of_int n) <? 2)%nat; simpl;
    apply str_of_int_no_slash.
Qed.

Lemma track_filename_no_slash track ext fmt nums :
  occurs "/" (track_filename track ext fmt nums) = false.
Proof.
  assert (Hname : occurs "/" (get_formatted_filename track ext fmt) = false).
  { apply sanitize_clean. unfold forbidden_chars. simpl. tauto. }
  unfold track_filename. destruct nums; [|exact Hname].
  rewrite !occurs_app, format_02d_no_slash, Hname. reflexivity.
Qed.

Lemma basename_from_app (acc a b : string) :
  basename_from acc (a +:+ b) = basename_from (basename_from acc a) b.
Proof.
  revert acc. induction a as [|c a IH]; intros acc; simpl; [reflexivity|].
  destruct (Ascii.eqb c "/"); apply IH.
Qed.

Lemma append_assoc (a b c : string) : (a +:+ b) +:+ c = a +:+ (b +:+ c).
Proof.
  induction a as [|x a IH]; [reflexivity|].
  change (String x ((a +:+ b) +:+ c) = String x (a +:+ (b +:+ c))).
  f_equal. exact IH.
Qed.

Lemma append_nil_r (a : string) : a +:+ "" = a.
Proof.
  induction a as [|x a IH]; [reflexivity|].
  change (String x (a +:+ "") = String x a). f_equal. exact IH.
Qed.

Lemma basename_from_no_slash (acc s : string) :
  occurs "/" s = false -> basename_from acc s = acc +:+ s.
Proof.
  revert acc. induction s as [|c s IH]; intros acc Hs.
  - symmetry. apply append_nil_r.
  - cbn [occurs] in Hs. apply orb_false_iff in Hs as [Hc Hs].
    cbn [basename_from]. rewrite Ascii.eqb_sym, Hc, IH by exact Hs.
    rewrite append_assoc. reflexivity.
Qed.

Lemma startswith_slash (s : string) :
  occurs "/" s = false -> startswith s "/" = false.
Proof.
  destruct s as [|c s]; [reflexivity|]. cbn [occurs]. intros H.
  apply orb_false_iff in H as [Hc _].
  unfold startswith. cbn [String.prefix].
  destruct (Ascii.ascii_dec "/" c) as [<-|Hne]; [|reflexivity].
  rewrite Ascii.eqb_refl in Hc. discriminate.
Qed.

Lemma path_join_no_slash (a b : string) :
  occurs "/" b = false ->
  path_join a b
  = a +:+ (if (String.eqb a "" || endswith a "/")%bool then "" else "/") +:+ b /\
  basename (path_join a b) = b.
Proof.
  intros Hb. unfold path_join. rewrite (startswith_slash b Hb).
  destruct (String.eqb a "") eqn:Ha; simpl.
  - apply String.eqb_eq in Ha. subst a. split; [reflexivity|].
    apply (basename_from_no_slash "" b Hb).
  - destruct (endswith a "/") eqn:He.
    + split; [reflexivity|]. apply endswith_app in He as [pre ->].
      unfold basename. rewrite !basename_from_app. simpl.
      apply (basename_from_no_slash "" b Hb).
    + split; [reflexivity|]. unfold basename.
      rewrite basename_from_app. simpl.
      apply (basename_from_no_slash "" b Hb).
Qed.

Lemma substring_app_right (a b : string) :
  substring (String.length a) (String.length b) (a +:+ b) = b.
Proof.
  induction a as [|c a IH]; simpl; [apply substring_whole|exact IH].
Qed.

Lemma endswith_append (a b : string) : endswith (a +:+ b) b = true.
Proof.
  unfold endswith. rewrite length_app. apply andb_true_iff. split.
  - apply Nat.leb_le. lia.
  - replace (String.length a + String.length b - String.length b)%nat
      with (String.length a) by lia.
    rewrite substring_app_right. apply String.eqb_refl.
Qed.

Lemma flac_is_not_mp3 (p : string) : endswith (p +:+ ".flac") ".mp3" = false.
Proof.
  destruct (endswith (p +:+ ".flac") ".mp3") eqn:E; [|reflexivity].
  apply endswith_app in E as [pre Hpre].
  pose proof (f_equal String.length Hpre) as Hlen.
  rewrite !length_app in Hlen. simpl in Hlen.
  pose proof (get_app_right p ".flac" 4) as H1.
  pose proof (get_app_right pre ".mp3" 3) as H2.
  rewrite Hpre in H1.
  replace (String.length p + 4)%nat with (String.length pre + 3)%nat in H1 by lia.
  rewrite H2 in H1. simpl in H1. discriminate.
Qed.

Lemma track_filepath_name track outpath ext fmt nums :
  track_filepath track outpath ext fmt nums
  = path_join outpath (track_filename track ext fmt nums).
Proof. unfold track_filepath, track_filename. destruct nums; reflexivity. Qed.

Lemma track_filename_ext track ext fmt nums :
  sanitize ext = ext ->
  exists stem, track_filename track ext fmt nums = stem +:+ ext.
Proof.
  intros Hext. unfold track_filename, get_formatted_filename.
  destruct nums;
    destruct (String.eqb fmt "artist_title");
    try destruct (String.eqb fmt "title_only");
    rewrite ?sanitize_app, ?Hext, <- ?append_assoc; eauto.
Qed.

Lemma app_suffix_eq (u v : string) : forall a b,
  String.length a = String.length b -> a +:+ u = b +:+ v -> u = v.
Proof.
  induction a as [|c a IH]; intros [|d b] Hlen H; try discriminate.
  - exact H.
  - simpl in Hlen. injection Hlen as Hlen.
    change (String c (a +:+ u) = String d (b +:+ v)) in H.
    injection H as _ H. eapply IH; eauto.
Qed.

Lemma app_suffix_neq (a b u v : string) :
  String.length u = String.length v -> u <> v -> a +:+ u <> b +:+ v.
Proof.
  intros Hlen Hne H. apply Hne. apply (app_suffix_eq u v a b); [|exact H].
  apply (f_equal String.length) in H. rewrite !length_app in H. lia.
Qed.

Lemma track_filepath_ext track outpath ext fmt nums :
  sanitize ext = ext ->
  exists stem, track_filepath track outpath ext fmt nums = stem +:+ ext.
Proof.
  intros Hext. rewrite track_filepath_name.
  destruct (path_join_no_slash outpath (track_filename track ext fmt nums)
              (track_filename_no_slash track ext fmt nums)) as [-> _].
  destruct (track_filename_ext track ext fmt nums Hext) as [stem ->].
  rewrite <- !append_assoc. eauto.
Qed.

(** X13: the path of a track.  The formatted file name holds none of the
    characters of [forbidden_chars] (the separators of paths among them),
    whatever the title and the artists; the
    path is the directory, a separator unless the directory is empty or
    ends with one, and the file name with its optional two-digit number, so
    that the file lies directly in the directory and the name offered on
    download is this file name; and the name ends with [.mp3] for the
    primary format and does not for the lossless one. *)
Theorem track_filepath_shape (track : TrackInfo) (outpath fmt : string)
    (nums : bool) (ext : string) :
  (forall c, In c forbidden_chars ->
     occurs c (get_formatted_filename track ext fmt) = false) /\
  track_filepath track outpath ext fmt nums
  = outpath +:+
    (if (String.eqb outpath "" || endswith outpath "/")%bool then "" else "/")
    +:+ track_filename track ext fmt nums /\
  basename (track_filepath track outpath ext fmt nums)
  = track_filename track ext fmt nums /\
  endswith (track_filepath track outpath ".mp3" fmt nums) ".mp3" = true /\
  endswith (track_filepath track outpath ".flac" fmt nums) ".mp3" = false.
Proof.
  split; [intros c Hc; apply sanitize_clean; exact Hc|].
  rewrite !track_filepath_name.
  destruct (path_join_no_slash outpath (track_filename track ext fmt nums)
              (track_filename_no_slash track ext fmt nums)) as [Hjoin Hbase].
  split; [exact Hjoin|]. split; [exact Hbase|]. split.
  - destruct (path_join_no_slash outpath (track_filename track ".mp3" fmt nums)
                (track_filename_no_slash track ".mp3" fmt nums)) as [-> _].
    destruct (track_filename_ext track ".mp3" fmt nums eq_refl) as [stem ->].
    rewrite <- !append_assoc. apply endswith_append.
  - destruct (path_join_no_slash outpath (track_filename track ".flac" fmt nums)
                (track_filename_no_slash track ".flac" fmt nums)) as [-> _].
    destruct (track_filename_ext track ".flac" fmt nums eq_refl) as [stem ->].
    rewrite <- !append_assoc. apply flac_is_not_mp3.
Qed.

(** ** Failures of a fetch before anything is written *)

Lemma checker_missing (files : gmap string File) (path : string) :
  files !! path = None ->
  is_valid_existing_file (probe_fs files) path = Ok false.
Proof.
  intros H. unfold is_valid_existing_file, probe_fs. rewrite H. reflexivity.
Qed.

(** X14: when the destination holds a file that fails the check and its
    deletion raises, the fetch fails with the message of the failed
    removal, the file stays as it is, and no request is sent: the only
    events are the check and the attempt to remove the file. *)
Theorem corrupted_file_blocks_fetch
    (fmt : option Z -> string -> string -> string -> string) (env : Env)
    (track : TrackInfo) (outpath token : string) (prefer_flac : bool)
    (filename_format : string) (use_track_numbers : bool)
    (files : gmap string File) (f : File) (e : string) :
  let filepath :=
    track_filepath track outpath ".mp3" filename_format use_track_numbers in
  files !! filepath = Some f ->
  is_valid_existing_file (probe_fs files) filepath = Ok false ->
  remove_error env filepath = Some e ->
  download_track_async fmt env track outpath token prefer_flac filename_format
    use_track_numbers {| fs := files; log := [] |}
  = ({| fs := files; log := [EvValidate filepath false; EvRemove filepath] |},
     (false, "Failed to remove corrupted file: " +:+ e)).
Proof.
  intros filepath Hf Hv Hrm.
  unfold download_track_async, download_track_body, check_valid,
    remove_corrupted, os_path_exists, os_remove. run_m.
  fold filepath. rewrite Hv. simpl. rewrite Hf.
  rewrite bool_decide_eq_true_2 by eauto. simpl. rewrite Hrm. reflexivity.
Qed.

Lemma corrupted_file_blocks_fetch_witness :
  let env :=
    {| net := net (serving good_mp3);
       remove_error := fun _ => Some "Permission denied";
       rename_error := fun _ _ => None; write_error := fun _ _ => None;
       save_result := fun _ f => (f, None); mkdir_error := fun _ => None |} in
  snd (download_track_async plain_translator env sample_track "downloads"
         "tok" false "title_artist" true
         {| fs := {["downloads/03 - Song - Ann, Bob.mp3" := truncated_file]};
            log := [] |})
  = (false, "Failed to remove corrupted file: Permission denied").
Proof.
  intros env.
  rewrite (corrupted_file_blocks_fetch plain_translator env sample_track
             "downloads" "tok" false "title_artist" true
             {["downloads/03 - Song - Ann, Bob.mp3" := truncated_file]}
             truncated_file "Permission denied");
    vm_compute; reflexivity.
Defined.

(** X15: when the destination fails the check and can be removed, and the
    answer to the request for the link carries no link (the request
    raises, the status is not 200, the body is not JSON, [success] is
    false, or the link is missing or empty), the fetch fails after this
    one request; nothing is written, the lossless format is not asked
    for, and the only change to the files is the removal of the rejected
    destination file.  The message is the translated error when the
    request raises, the status is not 200 or the body is not JSON, and the
    fixed text about the missing link when [success] holds; when
    [success] is false it is what the answer holds under [error], which
    is pinned here for an answer that holds a string there. *)
Theorem no_link_no_download
    (fmt : option Z -> string -> string -> string -> string) (env : Env)
    (track : TrackInfo) (outpath token : string) (prefer_flac : bool)
    (filename_format : string) (use_track_numbers : bool)
    (files : gmap string File) :
  let filepath :=
    track_filepath track outpath ".mp3" filename_format use_track_numbers in
  let run :=
    download_track_async fmt env track outpath token prefer_flac
      filename_format use_track_numbers {| fs := files; log := [] |} in
  is_valid_existing_file (probe_fs files) filepath = Ok false ->
  remove_error env filepath = None ->
  link_of (net env (link_request token track)) = None ->
  fst (snd run) = false /\
  fs (fst run) = delete filepath files /\
  log (fst run)
  = (EvValidate filepath false ::
     match files !! filepath with
     | Some _ => [EvRemove filepath]
     | None => []
     end ++ [EvRequest (link_request token track)])%list /\
  match net env (link_request token track) with
  | Raise e => snd (snd run) = fmt None "" e "Track Download"
  | Ok response =>
      if status_code response =? 200 then
        match json response with
        | Raise e => snd (snd run) = fmt None "" e "Track Download"
        | Ok data =>
            if j_success data
            then snd (snd run) = "No download link provided by API"
            else forall e, j_error data = Some e -> snd (snd run) = e
        end
      else
        snd (snd run)
        = fmt (Some (status_code response)) (text response) ""
            "Download API Request"
  end.
Proof.
  intros filepath run Hv Hrm Hlink. subst run.
  unfold download_track_async, download_track_body, check_valid,
    remove_corrupted, os_path_exists, os_remove, request_link, request.
  run_m. fold filepath. rewrite Hv. simpl.
  unfold link_of, link_request in *.
  destruct (files !! filepath) as [f|] eqn:Hf.
  - rewrite bool_decide_eq_true_2 by eauto. simpl. rewrite Hrm. simpl.
    rewrite Hf. simpl.
    destruct (net env _) as [resp|e]; simpl; [|auto].
    destruct (status_code resp =? 200); simpl; [|auto].
    destruct (json resp) as [data|e]; simpl; [|auto].
    destruct (j_success data); simpl.
    + destruct (j_link data) as [link|]; [|auto].
      destruct (String.eqb link ""); [auto|discriminate].
    + repeat split. intros e He. unfold json_error_msg. rewrite He.
      reflexivity.
  - rewrite bool_decide_eq_false_2 by (intros [? ?]; discriminate). simpl.
    rewrite (delete_id _ _ Hf).
    destruct (net env _) as [resp|e]; simpl; [|auto].
    destruct (status_code resp =? 200); simpl; [|auto].
    destruct (json resp) as [data|e]; simpl; [|auto].
    destruct (j_success data); simpl.
    + destruct (j_link data) as [link|]; [|auto].
      destruct (String.eqb link ""); [auto|discriminate].
    + repeat split. intros e He. unfold json_error_msg. rewrite He.
      reflexivity.
Qed.

Lemma no_link_no_download_witness :
  let run :=
    download_track_async plain_translator unreachable_provider sample_track
      "downloads" "tok" true "title_artist" true
      {| fs := {["downloads/03 - Song - Ann, Bob.mp3" := truncated_file]};
         log := [] |} in
  snd run = (false, "Track Download: connection refused") /\
  fs (fst run) = ∅.
Proof.
  intros run.
  destruct (no_link_no_download plain_translator unreachable_provider
              sample_track "downloads" "tok" true "title_artist" true
              {["downloads/03 - Song - Ann, Bob.mp3" := truncated_file]})
    as (Hfail & Hfs & _ & Hmsg); try (vm_compute; reflexivity).
  fold run in Hfail, Hfs, Hmsg. split.
  - destruct (snd run) as [b m]. simpl in *. subst b. rewrite Hmsg.
    reflexivity.
  - rewrite Hfs. vm_compute. reflexivity.
Defined.

(** ** The negotiation of the lossless format *)

Lemma negotiate_flac_cases (env : Env) (token : string) (track : TrackInfo)
    (download_url : string) (s : St) :
  exists s' asset,
    negotiate_flac env token track download_url s = (s', Ok asset) /\
    (asset = (download_url, ".mp3") \/ exists link, asset = (link, ".flac")).
Proof.
  unfold negotiate_flac, request. run_m.
  destruct (net env (Post flac_url_api _ _ _)) as [probe|e]; simpl; [|eauto].
  destruct (status_code probe =? 200); simpl; [|eauto].
  destruct (json probe) as [d|e]; simpl; [|eauto].
  destruct (j_flacAvailable d); simpl; [|eauto].
  destruct (net env (Post download_url_api _ _ _)) as [answer|e]; simpl;
    [|eauto].
  destruct (status_code answer =? 200); simpl; [|eauto].
  destruct (json answer) as [data|e]; simpl; [|eauto].
  destruct (j_success data); simpl; [|eauto].
  destruct (j_link data) as [link|]; simpl; [|eauto].
  destruct (String.eqb link ""); simpl; eauto 6.
Qed.

(** The case at hand hands back the primary link. *)
Ltac primary_link :=
  do 2 eexists; split; [reflexivity|]; split; [reflexivity|];
  split; [|left; reflexivity];
  intros;
  repeat match goal with
         | H : (_ =? _) = false |- _ => apply Z.eqb_neq in H
         | H : String.eqb _ _ = true |- _ => apply String.eqb_eq in H
         end;
  congruence.

(** X16: the negotiation never raises and leaves the files alone.  When
    the provider says that the lossless format is there and answers the
    second request with status 200, [success] and a non-empty link, the
    negotiation hands back that link with the extension [.flac]; in every
    other case it hands back the primary link with the extension
    [.mp3]. *)
Theorem negotiate_flac_falls_back (env : Env) (token : string)
    (track : TrackInfo) (download_url : string) (s : St) :
  exists s' asset,
    negotiate_flac env token track download_url s = (s', Ok asset) /\
    fs s' = fs s /\
    (forall probe d answer data link,
       net env (Post flac_url_api (api_headers token) (id track) false)
       = Ok probe ->
       status_code probe = 200 -> json probe = Ok d ->
       j_flacAvailable d = true ->
       net env (Post download_url_api (api_headers token) (id track) true)
       = Ok answer ->
       status_code answer = 200 -> json answer = Ok data ->
       j_success data = true -> j_link data = Some link -> link <> "" ->
       asset = (link, ".flac")) /\
    (asset = (download_url, ".mp3") \/
     exists link probe answer data,
       asset = (link, ".flac") /\ link <> "" /\
       net env (Post flac_url_api (api_headers token) (id track) false)
       = Ok probe /\ status_code probe = 200 /\
       (exists d, json probe = Ok d /\ j_flacAvailable d = true) /\
       net env (Post download_url_api (api_headers token) (id track) true)
       = Ok answer /\ status_code answer = 200 /\
       json answer = Ok data /\ j_success data = true /\
       j_link data = Some link).
Proof.
  unfold negotiate_flac, request. run_m.
  destruct (net env (Post flac_url_api _ _ _)) as [probe|e] eqn:Hprobe; simpl;
    [|primary_link].
  destruct (status_code probe =? 200) eqn:Hcode; simpl; [|primary_link].
  destruct (json probe) as [d|e] eqn:Hd; simpl; [|primary_link].
  destruct (j_flacAvailable d) eqn:Hav; simpl; [|primary_link].
  destruct (net env (Post download_url_api _ _ _)) as [answer|e] eqn:Hans;
    simpl; [|primary_link].
  destruct (status_code answer =? 200) eqn:Hcode2; simpl; [|primary_link].
  destruct (json answer) as [data|e] eqn:Hdata; simpl; [|primary_link].
  destruct (j_success data) eqn:Hsucc; simpl; [|primary_link].
  destruct (j_link data) as [link|] eqn:Hlink; simpl; [|primary_link].
  destruct (String.eqb link "") eqn:Hempty; simpl; [primary_link|].
  do 2 eexists. split; [reflexivity|]. split; [reflexivity|].
  apply Z.eqb_eq in Hcode, Hcode2. apply String.eqb_neq in Hempty.
  split.
  - intros probe' d' answer' data' link' H1 H2 H3 H4 H5 H6 H7 H8 H9 H10.
    congruence.
  - right. exists link, probe, answer, data.
    repeat match goal with |- _ /\ _ => split end; eauto.
Qed.

(** A provider that has the lossless format is asked for it. *)
Lemma negotiate_flac_falls_back_witness :
  snd (negotiate_flac (lossless_provider good_flac) "tok" sample_track
         "https://cdn.example.com/a" {| fs := ∅; log := [] |})
  = Ok ("https://cdn.example.com/a.flac", ".flac").
Proof.
  destruct (negotiate_flac_falls_back (lossless_provider good_flac) "tok" sample_track
              "https://cdn.example.com/a" {| fs := ∅; log := [] |})
    as (s' & asset & Hrun & _ & Hflac & _).
  rewrite Hrun. simpl. f_equal.
  eapply Hflac; try reflexivity. discriminate.
Defined.

(** ** What a successful fetch has downloaded *)

Lemma save_file_success env filepath ext track payload s s1 res :
  save_file env filepath ext track payload s = (s1, Ok (true, res)) ->
  res = filepath /\
  is_valid_existing_file
    (probe_fs (<[filepath +:+ ".tmp" := payload]> (fs s)))
    (filepath +:+ ".tmp") = Ok true.
Proof.
  unfold save_file.
  pose proof (embed_metadata_effect env filepath track) as Hem.
  generalize dependent (embed_metadata env filepath track). intros em Hem.
  set (tmp := filepath +:+ ".tmp").
  unfold write_file, check_valid, os_path_exists, os_rename, os_remove. run_m.
  destruct (write_error env tmp payload) as [[msg leftover]|] eqn:Hw.
  - intros Hrun. exfalso.
    destruct leftover as [f|]; simpl in Hrun;
      destruct (bool_decide _); simpl in Hrun;
      try destruct (remove_error env tmp); simpl in Hrun;
      try destruct (_ !! tmp); simpl in Hrun;
      discriminate.
  - simpl.
    destruct (checker_never_raises (probe_fs (<[tmp:=payload]> (fs s))) tmp)
      as [[|] Hv]; rewrite Hv; simpl.
    + destruct (rename_error env tmp filepath) as [e|] eqn:Hren; simpl.
      * rewrite bool_decide_eq_true_2 by (rewrite lookup_insert_eq; eauto).
        simpl. intros Hrun. exfalso.
        destruct (remove_error env tmp); simpl in Hrun;
          try rewrite lookup_insert_eq in Hrun; simpl in Hrun; discriminate.
      * rewrite lookup_insert_eq. simpl.
        destruct (String.eqb ext ".mp3").
        -- match goal with
           | |- context [em ?st] =>
               destruct (Hem st) as (evs & Hok & _); destruct (em st) as [sE rE]
           end.
           simpl in Hok. subst rE. intros Hrun. injection Hrun as _ <-.
           auto.
        -- intros Hrun. injection Hrun as _ <-. auto.
    + rewrite bool_decide_eq_true_2 by (rewrite lookup_insert_eq; eauto).
      simpl. intros Hrun. exfalso.
      destruct (remove_error env tmp) as [e|] eqn:Hrm; simpl in Hrun.
      * rewrite bool_decide_eq_true_2 in Hrun
          by (rewrite lookup_insert_eq; eauto).
        simpl in Hrun. discriminate.
      * rewrite lookup_insert_eq in Hrun. simpl in Hrun. discriminate.
Qed.

Lemma download_track_body_success fmt env track outpath token prefer_flac
    filename_format use_track_numbers s s1 res :
  download_track_body fmt env track outpath token prefer_flac filename_format
    use_track_numbers s = (s1, Ok (true, res)) ->
  (res = "File already exists - skipped" /\
   is_valid_existing_file (probe_fs (fs s))
     (track_filepath track outpath ".mp3" filename_format use_track_numbers)
   = Ok true) \/
  exists ext url headers resp sm,
    net env (Get url headers) = Ok resp /\
    status_code resp = 200 /\
    (ext = ".mp3" \/ (ext = ".flac" /\ prefer_flac = true)) /\
    save_file env
      (track_filepath track outpath ext filename_format use_track_numbers)
      ext track (content resp) sm = (s1, Ok (true, res)).
Proof.
  unfold download_track_body. intros Hrun.
  apply mbind_inv in Hrun as [(sa & valid & Ha & Hrun)|(msg & _ & [=])].
  destruct valid.
  { injection Hrun as _ <-. left. split; [reflexivity|].
    unfold check_valid, mbind, get_fs, lift, emit, ret in Ha.
    destruct (is_valid_existing_file _ _) as [v|e]; [|discriminate].
    simpl in Ha. injection Ha as _ ->. reflexivity. }
  apply mbind_inv in Hrun as [(sb & removed & Hb & Hrun)|(msg & _ & [=])].
  destruct removed as [r|[]].
  { exfalso. injection Hrun as _ ->.
    unfold remove_corrupted, os_path_exists, os_remove in Hb.
    revert Hb. run_m. destruct (bool_decide _); simpl; [|discriminate].
    destruct (remove_error env _); simpl; [discriminate|].
    destruct (_ !! _); simpl; discriminate. }
  apply mbind_inv in Hrun as [(sc & linked & Hc & Hrun)|(msg & _ & [=])].
  destruct linked as [r|link].
  { exfalso. injection Hrun as _ ->.
    unfold request_link, request in Hc. revert Hc. run_m.
    destruct (net env _) as [resp|e]; simpl; [|discriminate].
    destruct (negb (status_code resp =? 200)); simpl; [discriminate|].
    destruct (json resp) as [data|e]; simpl; [|discriminate].
    destruct (negb (j_success data)); simpl; [discriminate|].
    destruct (j_link data) as [l|]; [|discriminate].
    destruct (String.eqb l ""); discriminate. }
  apply mbind_inv in Hrun as [(sd & asset & Hd & Hrun)|(msg & _ & [=])].
  apply mbind_inv in Hrun as [(se & host & He & Hrun)|(msg & _ & [=])].
  apply mbind_inv in Hrun as [(sf & resp & Hf & Hrun)|(msg & _ & [=])].
  destruct (negb (status_code resp =? 200)) eqn:Hcode; [discriminate|].
  right. exists asset.2. do 2 eexists. exists resp, sf.
  split.
  { unfold request, mbind, emit, lift in Hf. simpl in Hf.
    destruct (net env _) eqn:Hnet; [|discriminate].
    injection Hf as _ <-. exact Hnet. }
  split.
  { apply negb_false_iff in Hcode. apply Z.eqb_eq in Hcode. exact Hcode. }
  split; [|exact Hrun].
  destruct prefer_flac.
  - destruct (negotiate_flac_cases env token track link sc)
      as (s' & asset' & Hn & [->|(l' & ->)]);
      rewrite Hn in Hd; injection Hd as _ <-; simpl; auto.
  - injection Hd as _ <-. simpl. auto.
Qed.

(** X17: a fetch that reports success has either skipped the track, or
    received, with status 200, a payload of at least 100,000 bytes that the
    MP3 parser reads with a positive duration, and reports the path of the
    track for the negotiated extension.  This holds for the lossless format
    as well: the payload is checked under its temporary name, which never
    has the [.flac] extension, so a payload that does not parse as MP3 is
    never promoted. *)
Theorem success_means_mp3
    (fmt : option Z -> string -> string -> string -> string) (env : Env)
    (track : TrackInfo) (outpath token : string) (prefer_flac : bool)
    (filename_format : string) (use_track_numbers : bool)
    (files : gmap string File) (res : string) :
  snd (download_track_async fmt env track outpath token prefer_flac
         filename_format use_track_numbers {| fs := files; log := [] |})
  = (true, res) ->
  res = "File already exists - skipped" \/
  exists ext url headers resp len,
    (ext = ".mp3" \/ (ext = ".flac" /\ prefer_flac = true)) /\
    res = track_filepath track outpath ext filename_format use_track_numbers /\
    net env (Get url headers) = Ok resp /\
    status_code resp = 200 /\
    mp3_length (content resp) = Ok len /\
    float_gt_zero len = true /\
    100000 <= size (content resp).
Proof.
  unfold download_track_async.
  destruct (download_track_body fmt env track outpath token prefer_flac
              filename_format use_track_numbers {| fs := files; log := [] |})
    as [s1 [r|e]] eqn:Hrun; simpl; [|discriminate].
  intros ->.
  apply download_track_body_success in Hrun
    as [[-> _]|(ext & url & headers & resp & sm & Hnet & Hcode & Hext & Hsave)];
    [left; reflexivity|].
  right. apply save_file_success in Hsave as [-> Hvalid].
  apply checker_accepts in Hvalid as (_ & sz & Hsz & Hmin & Hparse).
  unfold probe_fs in Hsz, Hparse. rewrite lookup_insert_eq in Hsz, Hparse.
  simpl in Hsz, Hparse. injection Hsz as <-.
  destruct Hparse as [(len & Hlen & Hpos)|(msg & _ & Hflac & _)].
  - exists ext, url, headers, resp, len.
    apply Z.ltb_ge in Hmin. auto 10.
  - rewrite tmp_is_not_flac in Hflac. discriminate.
Qed.

Lemma success_means_mp3_witness :
  exists ext url headers resp len,
    "downloads/03 - Song - Ann, Bob.mp3"
    = track_filepath sample_track "downloads" ext "title_artist" true /\
    net (serving good_mp3) (Get url headers) = Ok resp /\
    mp3_length (content resp) = Ok len /\ float_gt_zero len = true.
Proof.
  destruct (success_means_mp3 plain_translator (serving good_mp3)
              sample_track "downloads" "tok" false "title_artist" true ∅
              "downloads/03 - Song - Ann, Bob.mp3")
    as [Hskip|(ext & url & headers & resp & len & _ & Hres & Hnet & _ & Hlen
               & Hpos & _)].
  - vm_compute. reflexivity.
  - discriminate.
  - exists ext, url, headers, resp, len. auto.
Defined.

(** ** A batch run from its start to its end *)

Lemma count_cons (P : Outcome -> bool) (o : Outcome) (l : list Outcome) :
  Z.of_nat (List.length (List.filter P (o :: l)))
  = (if P o then 1 else 0) + Z.of_nat (List.length (List.filter P l)).
Proof. simpl. destruct (P o); simpl; lia. Qed.

Lemma same_static_refl j : same_static j j.
Proof. unfold same_static. tauto. Qed.

Lemma same_static_trans j1 j2 j3 :
  same_static j1 j2 -> same_static j2 j3 -> same_static j1 j3.
Proof. unfold same_static. intuition congruence. Qed.

(** The report at the head of the loop. *)
Lemma run_loop_next env a track rest c f s w job :
  (forall p, mkdir_error env p = None) ->
  job_of w (b_job_id a) = Some job ->
  0 < total_tracks job -> 0 <= c + f + s -> c + f + s <= total_tracks job ->
  run_loop env a (track :: rest) c f s w
  = (touch (progress_update (title track +:+ " - " +:+ artists track) c f s)
       (b_job_id a) w,
     AwaitFetch track (track_outpath a track) rest c f s).
Proof.
  intros Hmk Hjob Hpos H0 Hle. cbn [run_loop].
  replace (if b_is_playlist a then mkdir_error env (track_outpath a track)
           else None) with (@None string)
    by (destruct (b_is_playlist a); [rewrite Hmk|]; reflexivity).
  rewrite (update_job_progress_in_range _ _ _ _ _ _ job Hjob H0 Hle Hpos).
  reflexivity.
Qed.

(** The return of a fetch. *)
Lemma resume_fetch fmt env files a track rest c f s w :
  resume fmt env files
    {| args := a;
       coro := AwaitFetch track (track_outpath a track) rest c f s;
       must_cancel := false |} w
  = match fetch_outcome fmt a track (env, files) with
    | TrackDone p =>
        (touch (append_file p) (b_job_id a) w, AwaitSleep rest (c + 1) f s)
    | TrackSkipped => (w, AwaitSleep rest c f (s + 1))
    | TrackFailed => (w, AwaitSleep rest c (f + 1) s)
    end.
Proof.
  unfold resume, fetch_outcome, outcome_of. simpl.
  destruct (snd (download_track_async fmt env track (track_outpath a track)
                   (b_token a) (b_prefer_flac a) (b_filename_format a)
                   (b_use_track_numbers a) {| fs := files; log := [] |}))
    as [success result].
  destruct success; [destruct (String.eqb result _)|]; reflexivity.
Qed.

Lemma run_coro_cons fmt env files sched a co w :
  run_coro fmt ((env, files) :: sched) a co w
  = run_coro fmt sched a
      (snd (resume fmt env files {| args := a; coro := co; must_cancel := false |} w))
      (fst (resume fmt env files {| args := a; coro := co; must_cancel := false |} w)).
Proof. simpl. destruct (resume _ _ _ _ _); reflexivity. Qed.

Lemma resume_sleep fmt env files a rest c f s w :
  resume fmt env files
    {| args := a; coro := AwaitSleep rest c f s; must_cancel := false |} w
  = run_loop env a rest c f s w.
Proof. reflexivity. Qed.

Lemma run_coro_from_head fmt env0 a rest : forall fetches c f s w job,
  (forall p, mkdir_error env0 p = None) ->
  job_of w (b_job_id a) = Some job ->
  0 < total_tracks job -> 0 <= c -> 0 <= f -> 0 <= s ->
  c + f + s + Z.of_nat (List.length rest) = total_tracks job ->
  List.length fetches = List.length rest ->
  exists F,
    run_coro fmt (flat_map (fun ef => [ef; (env0, ∅)]) fetches) a
      (snd (run_loop env0 a rest c f s w)) (fst (run_loop env0 a rest c f s w))
    = (touch F (b_job_id a) w, Returned) /\
    status (F job) = COMPLETED /\ progress (F job) = 100 /\
    current_track (F job) = Some "Completed" /\
    completed_tracks (F job)
    = c + Z.of_nat (List.length
                      (done_paths (zip_with (fetch_outcome fmt a) rest fetches))) /\
    failed_tracks (F job)
    = f + count_failed (zip_with (fetch_outcome fmt a) rest fetches) /\
    skipped_tracks (F job)
    = s + count_skipped (zip_with (fetch_outcome fmt a) rest fetches) /\
    downloaded_files (F job)
    = (downloaded_files job
       ++ done_paths (zip_with (fetch_outcome fmt a) rest fetches))%list /\
    same_static job (F job).
Proof.
  induction rest as [|track rest IH];
    intros fetches c f s w job Hmk Hjob Hpos Hc Hf Hs Hsum Hlen.
  - destruct fetches; [|discriminate]. simpl in Hsum.
    rewrite (run_loop_end env0 a c f s w job Hjob Hpos) by lia.
    eexists. split; [reflexivity|].
    destruct (progress_update_static "Completed" c f s job)
      as (Hst & _ & Hfiles & Hcc & Hff & Hss).
    unfold compose, status_update, count_failed, count_skipped. simpl.
    rewrite Hfiles, Hcc, Hff, Hss, app_nil_r.
    rewrite progress_update_full by lia.
    destruct (progress_update_fields "Completed" c f s job) as (_ & _ & _ & Hl).
    rewrite Hl.
    repeat match goal with |- _ /\ _ => split end;
      try reflexivity; try lia.
    unfold same_static in *. simpl. tauto.
  - destruct fetches as [|ef fetches]; [discriminate|].
    simpl in Hsum, Hlen. injection Hlen as Hlen.
    rewrite (run_loop_next env0 a track rest c f s w job Hmk Hjob Hpos)
      by lia.
    set (label := title track +:+ " - " +:+ artists track).
    destruct ef as [env files]. cbn [fst snd flat_map app].
    rewrite run_coro_cons, resume_fetch.
    destruct (progress_update_static label c f s job)
      as (Hst & _ & Hfiles & Hcc & Hff & Hss).
    assert (Hjob1 : job_of (touch (progress_update label c f s) (b_job_id a) w)
                      (b_job_id a) = Some (progress_update label c f s job)).
    { rewrite touch_job_of_same, Hjob. reflexivity. }
    assert (Htot1 : total_tracks (progress_update label c f s job)
                    = total_tracks job) by apply Hst.
    cbn [zip_with].
    destruct (fetch_outcome fmt a track (env, files)) as [p| |] eqn:Hout;
      cbn [fst snd]; rewrite run_coro_cons, resume_sleep.
    + (* downloaded *)
      set (w2 := touch (append_file p) (b_job_id a)
                   (touch (progress_update label c f s) (b_job_id a) w)).
      assert (Hjob2 : job_of w2 (b_job_id a)
                      = Some (append_file p (progress_update label c f s job))).
      { subst w2. rewrite touch_job_of_same, Hjob1. reflexivity. }
      destruct (IH fetches (c + 1) f s w2 _ Hmk Hjob2)
        as (F & Hrun & H1 & H2 & H3 & H4 & H5 & H6 & H7 & H8);
        try (simpl; rewrite ?Htot1; lia).
      rewrite Hrun. subst w2. rewrite !touch_touch.
      eexists. split; [reflexivity|]. unfold compose.
      rewrite H1, H2, H3, H4, H5, H6, H7. simpl. rewrite Hfiles.
      unfold count_failed, count_skipped.
      rewrite !count_cons. simpl.
      rewrite <- app_assoc. simpl.
      repeat match goal with |- _ /\ _ => split end;
        try reflexivity; try lia.
      eapply same_static_trans; [exact Hst|].
      eapply same_static_trans; [|exact H8].
      unfold same_static. simpl. tauto.
    + (* skipped *)
      destruct (IH fetches c f (s + 1)
                  (touch (progress_update label c f s) (b_job_id a) w) _
                  Hmk Hjob1)
        as (F & Hrun & H1 & H2 & H3 & H4 & H5 & H6 & H7 & H8);
        try (rewrite ?Htot1; lia).
      rewrite Hrun. rewrite !touch_touch.
      eexists. split; [reflexivity|]. unfold compose.
      rewrite H1, H2, H3, H4, H5, H6, H7. rewrite Hfiles.
      unfold count_failed, count_skipped.
      rewrite !count_cons. simpl.
      repeat match goal with |- _ /\ _ => split end;
        try reflexivity; try lia.
      eapply same_static_trans; [exact Hst|exact H8].
    + (* failed *)
      destruct (IH fetches c (f + 1) s
                  (touch (progress_update label c f s) (b_job_id a) w) _
                  Hmk Hjob1)
        as (F & Hrun & H1 & H2 & H3 & H4 & H5 & H6 & H7 & H8);
        try (rewrite ?Htot1; lia).
      rewrite Hrun. rewrite !touch_touch.
      eexists. split; [reflexivity|]. unfold compose.
      rewrite H1, H2, H3, H4, H5, H6, H7. rewrite Hfiles.
      unfold count_failed, count_skipped.
      rewrite !count_cons. simpl.
      repeat match goal with |- _ /\ _ => split end;
        try reflexivity; try lia.
      eapply same_static_trans; [exact Hst|exact H8].
Qed.

Lemma run_coro_start fmt env0 fetches a w :
  (forall p, mkdir_error env0 p = None) ->
  run_coro fmt (schedule env0 fetches) a NotStarted w
  = run_coro fmt (flat_map (fun ef => [ef; (env0, ∅)]) fetches) a
      (snd (run_loop env0 a (b_tracks a) 0 0 0
              (touch (status_update RUNNING None) (b_job_id a) w)))
      (fst (run_loop env0 a (b_tracks a) 0 0 0
              (touch (status_update RUNNING None) (b_job_id a) w))).
Proof.
  intros Hmk. unfold schedule. rewrite run_coro_cons.
  unfold resume. cbn [coro args]. rewrite Hmk, update_job_status_touch.
  reflexivity.
Qed.

(** X18: a batch that is not cancelled, whose directories can all be
    created, run from its start against any providers and files: the
    coroutine returns, and the job is then Completed with progress 100
    and the label Completed; its three counters are the numbers of tracks
    whose fetch downloaded a file, failed, and skipped, so that they add
    up to the total; its list of files is the one it had followed by the
    paths of the downloaded tracks, in the order of the tracks; and its
    id, total, message and directory, the other jobs and the task tables
    are as they were. *)
Theorem batch_run_tally
    (fmt : option Z -> string -> string -> string -> string) (env0 : Env)
    (fetches : list (Env * gmap string File)) (a : BatchArgs) (w : World)
    (job : JobStatusResponse) :
  well_formed w ->
  job_of w (b_job_id a) = Some job ->
  total_tracks job = Z.of_nat (List.length (b_tracks a)) ->
  b_tracks a <> [] ->
  List.length fetches = List.length (b_tracks a) ->
  (forall p, mkdir_error env0 p = None) ->
  let outcomes := zip_with (fetch_outcome fmt a) (b_tracks a) fetches in
  let final := run_coro fmt (schedule env0 fetches) a NotStarted w in
  snd final = Returned /\
  (exists job',
     job_of (fst final) (b_job_id a) = Some job' /\
     status job' = COMPLETED /\ progress job' = 100 /\
     current_track job' = Some "Completed" /\
     completed_tracks job' = Z.of_nat (List.length (done_paths outcomes)) /\
     failed_tracks job' = count_failed outcomes /\
     skipped_tracks job' = count_skipped outcomes /\
     counted job' = total_tracks job /\
     downloaded_files job'
     = (downloaded_files job ++ done_paths outcomes)%list /\
     same_static job job') /\
  (forall k, k <> b_job_id a -> job_of (fst final) k = job_of w k) /\
  tasks (fst final) = tasks w /\ job_tasks (fst final) = job_tasks w.
Proof.
  intros Hwf Hjob Htot Hne Hlen Hmk outcomes final. subst final.
  rewrite (run_coro_start fmt env0 fetches a w Hmk).
  set (w1 := touch (status_update RUNNING None) (b_job_id a) w).
  assert (Hjob1 : job_of w1 (b_job_id a) = Some (status_update RUNNING None job)).
  { subst w1. rewrite touch_job_of_same, Hjob. reflexivity. }
  assert (Hpos : 0 < total_tracks job).
  { rewrite Htot. destruct (b_tracks a); [contradiction|simpl; lia]. }
  destruct (run_coro_from_head fmt env0 a (b_tracks a) fetches 0 0 0 w1 _
              Hmk Hjob1)
    as (F & Hrun & H1 & H2 & H3 & H4 & H5 & H6 & H7 & H8);
    try (simpl; lia).
  rewrite Hrun. subst w1. rewrite touch_touch. cbn [fst snd].
  split; [reflexivity|]. split.
  - exists (F (status_update RUNNING None job)).
    rewrite touch_job_of_same, Hjob. unfold compose.
    fold outcomes in H4, H5, H6, H7.
    assert (Hall : Z.of_nat (List.length (done_paths outcomes))
                   + count_failed outcomes + count_skipped outcomes
                   = Z.of_nat (List.length (b_tracks a))).
    { subst outcomes. clear -Hlen. revert fetches Hlen.
      induction (b_tracks a) as [|t l IH]; intros [|ef fetches] Hlen;
        try discriminate; [reflexivity|].
      injection Hlen as Hlen. specialize (IH fetches Hlen).
      cbn [zip_with]. unfold count_failed, count_skipped in *.
      rewrite !count_cons.
      destruct (fetch_outcome fmt a t ef); simpl in *; lia. }
    split; [reflexivity|].
    repeat match goal with |- _ /\ _ => split end;
      try assumption; try lia.
    unfold counted. lia.
  - split; [|rewrite touch_tasks, touch_job_tasks; auto].
    intros k Hk. apply touch_job_of_other; assumption.
Qed.

Lemma batch_run_tally_witness :
  let a := args (new_task "job-1"
                   (sample_batch [sample_track; sample_track])) in
  let file := "downloads/03 - Song - Ann, Bob.mp3" in
  let final :=
    run_coro plain_translator
      (schedule (serving good_mp3)
         [(serving good_mp3, ∅);
          (unreachable_provider, {[file := good_mp3]})])
      a NotStarted submitted_two in
  exists job',
    job_of (fst final) "job-1" = Some job' /\
    status job' = COMPLETED /\
    completed_tracks job' = 1 /\ failed_tracks job' = 0 /\
    skipped_tracks job' = 1 /\ downloaded_files job' = [file].
Proof.
  intros a file final.
  assert (Hwf : well_formed submitted_two).
  { apply (inv_wf _ (reachable_Inv plain_translator _
                       (reachable_step _ _ _ _ (reachable_init _)
                          (step_submit _ _ "job-1"
                             (sample_batch [sample_track; sample_track])
                             (unused_init "job-1"))))). }
  assert (Hjob : exists job, job_of submitted_two (b_job_id a) = Some job /\
                   total_tracks job = 2 /\ downloaded_files job = []).
  { eexists. split; [|split]; vm_compute; reflexivity. }
  destruct Hjob as (job & Hjob & Htot & Hfiles).
  destruct (batch_run_tally plain_translator (serving good_mp3)
              [(serving good_mp3, ∅);
               (unreachable_provider, {[file := good_mp3]})]
              a submitted_two job Hwf Hjob)
    as (_ & (job' & Hj & Hs & _ & _ & Hc & Hf & Hk & _ & Hd & _) & _).
  - rewrite Htot. reflexivity.
  - discriminate.
  - reflexivity.
  - intros p. reflexivity.
  - exists job'. split; [exact Hj|]. split; [exact Hs|].
    rewrite Hc, Hf, Hk, Hd, Hfiles. vm_compute. auto.
Defined.

Lemma valid_file_outcome fmt a track env files :
  is_valid_existing_file (probe_fs files)
    (track_filepath track (track_outpath a track) ".mp3"
       (b_filename_format a) (b_use_track_numbers a)) = Ok true ->
  fetch_outcome fmt a track (env, files) = TrackSkipped.
Proof.
  intros Hvalid.
  unfold fetch_outcome, download_track_async, download_track_body,
    check_valid, mbind, get_fs, lift, emit, ret.
  simpl. rewrite Hvalid. reflexivity.
Qed.

Lemma skipped_only (n : nat) :
  done_paths (replicate n TrackSkipped) = [] /\
  count_failed (replicate n TrackSkipped) = 0 /\
  count_skipped (replicate n TrackSkipped) = Z.of_nat n.
Proof.
  induction n as [|n (IH1 & IH2 & IH3)]; [auto|].
  split; [exact IH1|]. unfold count_failed, count_skipped in *.
  cbn [replicate]. rewrite !count_cons. cbn [is_failed is_skipped].
  split; lia.
Qed.

Lemma skip_message_is_no_path (stem ext : string) :
  ext = ".mp3" \/ ext = ".flac" ->
  stem +:+ ext <> "File already exists - skipped".
Proof.
  intros [->| ->].
  - change "File already exists - skipped"
      with ("File already exists - ski" +:+ "pped").
    apply app_suffix_neq; [reflexivity|discriminate].
  - change "File already exists - skipped"
      with ("File already exists - sk" +:+ "ipped").
    apply app_suffix_neq; [reflexivity|discriminate].
Qed.

(** A fetch skips the track exactly when the path of the track under the
    primary extension holds a valid file. *)
Lemma fetch_outcome_skipped fmt a track ef :
  fetch_outcome fmt a track ef = TrackSkipped <->
  is_valid_existing_file (probe_fs (snd ef))
    (track_filepath track (track_outpath a track) ".mp3"
       (b_filename_format a) (b_use_track_numbers a)) = Ok true.
Proof.
  destruct ef as [env files]. split; [|apply valid_file_outcome].
  unfold fetch_outcome, download_track_async. cbn [fst snd].
  destruct (download_track_body fmt env track (track_outpath a track)
              (b_token a) (b_prefer_flac a) (b_filename_format a)
              (b_use_track_numbers a) {| fs := files; log := [] |})
    as [s1 [[success res]|e]] eqn:Hrun; cbn [snd outcome_of];
    [|discriminate].
  destruct success; [|discriminate].
  destruct (String.eqb res "File already exists - skipped") eqn:Hres;
    [|discriminate].
  intros _. apply String.eqb_eq in Hres.
  apply download_track_body_success in Hrun
    as [[_ Hvalid]|(ext & url & headers & resp & sm & _ & _ & Hext & Hsave)];
    [exact Hvalid|].
  exfalso. apply save_file_success in Hsave as [Hpath _].
  destruct (track_filepath_ext track (track_outpath a track) ext
              (b_filename_format a) (b_use_track_numbers a)) as [stem Hstem].
  { destruct Hext as [->|[-> _]]; reflexivity. }
  rewrite Hstem in Hpath. rewrite Hpath in Hres.
  revert Hres. apply skip_message_is_no_path. tauto.
Qed.

(** X19: a fetch skips its track exactly when the path of the track under
    the primary extension [.mp3] holds a valid file; a file under the
    [.flac] name, left by a lossless download, does not count.  So a
    batch run again from its start to its end, with no cancellation and
    all its directories being creatable, while the [.mp3] paths of all
    its tracks hold valid files, skips every track: the job ends
    Completed with as many skipped tracks as it has tracks, none
    downloaded and none failed, its list of files is as it was, and this
    holds whatever the provider answers. *)
Theorem batch_rerun_skips_all
    (fmt : option Z -> string -> string -> string -> string) (env0 : Env)
    (fetches : list (Env * gmap string File)) (a : BatchArgs) (w : World)
    (job : JobStatusResponse) :
  job_of w (b_job_id a) = Some job ->
  total_tracks job = Z.of_nat (List.length (b_tracks a)) ->
  b_tracks a <> [] ->
  (forall p, mkdir_error env0 p = None) ->
  Forall2
    (fun track ef =>
       is_valid_existing_file (probe_fs (snd ef))
         (track_filepath track (track_outpath a track) ".mp3"
            (b_filename_format a) (b_use_track_numbers a)) = Ok true)
    (b_tracks a) fetches ->
  let final := run_coro fmt (schedule env0 fetches) a NotStarted w in
  (forall track ef,
     fetch_outcome fmt a track ef = TrackSkipped <->
     is_valid_existing_file (probe_fs (snd ef))
       (track_filepath track (track_outpath a track) ".mp3"
          (b_filename_format a) (b_use_track_numbers a)) = Ok true) /\
  snd final = Returned /\
  exists job',
    job_of (fst final) (b_job_id a) = Some job' /\
    status job' = COMPLETED /\
    skipped_tracks job' = total_tracks job /\
    completed_tracks job' = 0 /\ failed_tracks job' = 0 /\
    downloaded_files job' = downloaded_files job.
Proof.
  intros Hjob Htot Hne Hmk Hvalid final. subst final.
  split; [intros track ef; apply fetch_outcome_skipped|].
  rewrite (run_coro_start fmt env0 fetches a w Hmk).
  set (w1 := touch (status_update RUNNING None) (b_job_id a) w).
  assert (Hjob1 : job_of w1 (b_job_id a) = Some (status_update RUNNING None job)).
  { subst w1. rewrite touch_job_of_same, Hjob. reflexivity. }
  assert (Hpos : 0 < total_tracks job).
  { rewrite Htot. destruct (b_tracks a); [contradiction|simpl; lia]. }
  assert (Hlen : List.length fetches = List.length (b_tracks a)).
  { symmetry. eapply Forall2_length. exact Hvalid. }
  destruct (run_coro_from_head fmt env0 a (b_tracks a) fetches 0 0 0 w1 _
              Hmk Hjob1)
    as (F & Hrun & H1 & _ & _ & H4 & H5 & H6 & H7 & _);
    try (simpl; lia).
  rewrite Hrun. subst w1. rewrite touch_touch. cbn [fst snd].
  split; [reflexivity|].
  exists (F (status_update RUNNING None job)).
  rewrite touch_job_of_same, Hjob. unfold compose.
  assert (Hall : zip_with (fetch_outcome fmt a) (b_tracks a) fetches
                 = replicate (List.length (b_tracks a)) TrackSkipped).
  { clear -Hvalid. induction Hvalid as [|t [env files] l fs' Hv _ IH];
      [reflexivity|].
    cbn [zip_with]. rewrite (valid_file_outcome fmt a t env files Hv), IH.
    reflexivity. }
  rewrite Hall in H4, H5, H6, H7.
  destruct (skipped_only (List.length (b_tracks a))) as (Hd & Hf & Hs).
  rewrite Hd in H4, H7. rewrite Hf in H5. rewrite Hs in H6.
  rewrite app_nil_r in H7. simpl in H7.
  split; [reflexivity|]. split; [exact H1|].
  split; [lia|]. split; [simpl in H4; lia|]. split; [lia|]. exact H7.
Qed.

Lemma batch_rerun_skips_all_witness :
  let a := args (new_task "job-1"
                   (sample_batch [sample_track; sample_track])) in
  let files : gmap string File :=
    {["downloads/03 - Song - Ann, Bob.mp3" := good_mp3]} in
  let final :=
    run_coro plain_translator
      (schedule (serving good_mp3)
         [(unreachable_provider, files); (unreachable_provider, files)])
      a NotStarted submitted_two in
  exists job',
    job_of (fst final) "job-1" = Some job' /\
    status job' = COMPLETED /\ skipped_tracks job' = 2 /\
    downloaded_files job' = [].
Proof.
  intros a files final.
  assert (Hjob : exists job, job_of submitted_two (b_job_id a) = Some job /\
                   total_tracks job = 2 /\ downloaded_files job = []).
  { eexists. split; [|split]; vm_compute; reflexivity. }
  destruct Hjob as (job & Hjob & Htot & Hfiles).
  destruct (batch_rerun_skips_all plain_translator (serving good_mp3)
              [(unreachable_provider, files); (unreachable_provider, files)]
              a submitted_two job Hjob)
    as (_ & _ & job' & Hj & Hs & Hk & _ & _ & Hd).
  - rewrite Htot. reflexivity.
  - discriminate.
  - intros p. reflexivity.
  - repeat constructor; vm_compute; reflexivity.
  - exists job'. split; [exact Hj|]. split; [exact Hs|].
    rewrite Hk, Hd, Htot, Hfiles. auto.
Defined.

(** A valid file under the lossless name does not make the fetch skip the
    track: the track is asked for and downloaded again, with four
    requests. *)
Example rerun_after_lossless_download :
  let files : gmap string File :=
    {["downloads/03 - Song - Ann, Bob.flac" := good_mp3]} in
  let run :=
    download_track_async plain_translator (lossless_provider good_mp3)
      sample_track "downloads" "tok" true "title_artist" true
      {| fs := files; log := [] |} in
  is_valid_existing_file (probe_fs files) "downloads/03 - Song - Ann, Bob.flac"
  = Ok true /\
  snd run = (true, "downloads/03 - Song - Ann, Bob.flac") /\
  List.length (List.filter is_network (log (fst run))) = 4%nat.
Proof. vm_compute. repeat split. Qed.

(** ** The files of a job and its counters *)

Lemma files_ok_weak co job :
  files_ok co job ->
  0 <= completed_tracks job /\ 0 <= failed_tracks job /\
  0 <= skipped_tracks job /\
  completed_tracks job <= Z.of_nat (List.length (downloaded_files job))
  <= completed_tracks job + 1.
Proof.
  unfold files_ok. intros (Hc & Hf & Hs & H).
  split; [exact Hc|]. split; [exact Hf|]. split; [exact Hs|].
  destruct co; lia.
Qed.

Lemma files_ok_status co job s msg :
  (forall e, co <> Crashed e) ->
  files_ok co job -> files_ok co (status_update s msg job).
Proof.
  intros Hco. unfold files_ok, status_update.
  destruct (truthy msg); destruct co; simpl; try tauto;
    exfalso; eapply Hco; reflexivity.
Qed.

Lemma run_loop_files env a rest : forall c f s w job,
  job_of w (b_job_id a) = Some job ->
  status job = RUNNING ->
  0 <= c -> 0 <= f -> 0 <= s ->
  Z.of_nat (List.length (downloaded_files job)) = c ->
  exists F,
    fst (run_loop env a rest c f s w) = touch F (b_job_id a) w /\
    files_ok (snd (run_loop env a rest c f s w)) (F job).
Proof.
  induction rest as [|track rest IH]; intros c f s w job Hjob Hst Hc Hf Hs Hn.
  - simpl.
    pose proof (update_job_progress_touch (b_job_id a) "Completed" c f s w) as Hw1.
    destruct (progress_update_static "Completed" c f s job)
      as (_ & Hst1 & Hfiles & Hcc & Hff & Hss).
    destruct (update_job_progress (b_job_id a) "Completed" c f s w)
      as [w1 [[]|msg]]; simpl in Hw1; subst w1; simpl.
    + rewrite update_job_status_touch, touch_touch.
      eexists. split; [reflexivity|].
      unfold files_ok, compose, status_update. simpl.
      rewrite Hfiles, Hcc, Hff, Hss. lia.
    + eexists. split; [reflexivity|].
      unfold files_ok. rewrite Hfiles, Hcc, Hff, Hss, Hst1, Hst.
      repeat split; lia.
  - simpl.
    destruct (if b_is_playlist a then mkdir_error env (track_outpath a track)
              else None) as [msg|].
    + apply IH; try assumption. lia.
    + set (label := title track +:+ " - " +:+ artists track).
      pose proof (update_job_progress_touch (b_job_id a) label c f s w) as Hw1.
      destruct (progress_update_static label c f s job)
        as (_ & Hst1 & Hfiles & Hcc & Hff & Hss).
      destruct (update_job_progress (b_job_id a) label c f s w)
        as [w1 [[]|msg]]; simpl in Hw1; subst w1; simpl.
      * eexists. split; [reflexivity|].
        unfold files_ok. rewrite Hfiles, Hcc, Hff, Hss. lia.
      * destruct (IH c (f + 1) s
                    (touch (progress_update label c f s) (b_job_id a) w)
                    (progress_update label c f s job))
          as (F & HF & Hok); try assumption; try lia.
        { rewrite touch_job_of_same, Hjob. reflexivity. }
        { rewrite Hst1. exact Hst. }
        { rewrite Hfiles. exact Hn. }
        rewrite touch_touch in HF. exists (F ∘ progress_update label c f s).
        auto.
Qed.

(** One step of the coroutine of a live task keeps the files of its job
    in line with its counters. *)
Lemma resume_files fmt env files task w job :
  job_of w (b_job_id (args task)) = Some job ->
  live_ok (n_tracks task) (coro task) job ->
  files_ok (coro task) job ->
  done task = false ->
  exists F,
    fst (resume fmt env files task w) = touch F (b_job_id (args task)) w /\
    files_ok (snd (resume fmt env files task w)) (F job).
Proof.
  intros Hjob [_ Hlive] Hok Hdone. unfold resume. unfold done in Hdone.
  destruct (coro task) as [|track dir rest c f s|rest c f s| |msg|] eqn:Hco;
    try discriminate; simpl in Hlive.
  - destruct (mkdir_error env (b_outpath (args task))) as [msg|].
    + exists (fun j => j). rewrite touch_id. simpl.
      split; [reflexivity|]. unfold files_ok in *.
      rewrite Hlive. repeat split; lia.
    + rewrite update_job_status_touch.
      destruct (run_loop_files env (args task) (b_tracks (args task)) 0 0 0
                  (touch (status_update RUNNING None) (b_job_id (args task)) w)
                  (status_update RUNNING None job))
        as (F & HF & HFok); try lia.
      { rewrite touch_job_of_same, Hjob. reflexivity. }
      { reflexivity. }
      { unfold files_ok in Hok. simpl. lia. }
      rewrite touch_touch in HF. exists (F ∘ status_update RUNNING None).
      auto.
  - destruct (download_track_async fmt env track dir (b_token (args task))
                (b_prefer_flac (args task)) (b_filename_format (args task))
                (b_use_track_numbers (args task)) {| fs := files; log := [] |})
      as [s1 [success result]]; simpl.
    unfold files_ok in Hok.
    destruct success; [destruct (String.eqb result _)|].
    + exists (fun j => j). rewrite touch_id. simpl.
      split; [reflexivity|]. unfold files_ok. lia.
    + exists (append_file result). simpl.
      split; [reflexivity|]. unfold files_ok. simpl.
      rewrite List.length_app. simpl. lia.
    + exists (fun j => j). rewrite touch_id. simpl.
      split; [reflexivity|]. unfold files_ok. lia.
  - destruct Hlive as [Hst _]. unfold files_ok in Hok.
    apply run_loop_files; try assumption; lia.
Qed.

Lemma Acc_init : Acc JobManager_init.
Proof. intros t task job Ht. simpl in Ht. rewrite lookup_empty in Ht. discriminate. Qed.

Lemma Acc_update w t task task' F :
  Inv w -> Acc w ->
  tasks w !! t = Some task ->
  args task' = args task ->
  (forall job, job_of w (b_job_id (args task)) = Some job ->
               files_ok (coro task') (F job)) ->
  Acc (with_tasks (<[t := task']> (tasks w)) (touch F (b_job_id (args task)) w)).
Proof.
  intros HI HA Ht Hargs Hnew t2 task2 job H2 Hjob.
  change (job_of (touch F (b_job_id (args task)) w) (b_job_id (args task2))
          = Some job) in Hjob.
  simpl in H2. destruct (decide (t = t2)) as [<-|Hne].
  - rewrite lookup_insert_eq in H2. injection H2 as <-.
    rewrite Hargs, touch_job_of_same in Hjob.
    destruct (job_of w (b_job_id (args task))) as [job0|] eqn:Hj0;
      [|discriminate].
    injection Hjob as <-. apply Hnew. reflexivity.
  - rewrite lookup_insert_ne in H2 by done.
    rewrite touch_job_of_other in Hjob.
    + eapply HA; eauto.
    + apply (inv_wf w HI).
    + intros Heq. apply Hne.
      eapply (inv_unique w HI); [exact Ht|exact H2|]. symmetry. exact Heq.
Qed.

Lemma Acc_sweep w : Acc w -> Acc (cleanup_finished_jobs w).
Proof.
  intros HA t task job Ht Hjob.
  apply sweep_job_of_Some in Hjob as [Hjob _]. eapply HA; eauto.
Qed.

Lemma Acc_cancel w jid : Inv w -> Acc w -> Acc (fst (cancel_job jid w)).
Proof.
  intros HI HA.
  destruct (job_tasks w !! jid) as [t|] eqn:Hjt;
    [|rewrite cancel_job_idle; [exact HA|intros; congruence]].
  destruct (tasks w !! t) as [task|] eqn:Ht;
    [|rewrite cancel_job_idle; [exact HA|intros; congruence]].
  destruct (done task) eqn:Hdone;
    [rewrite cancel_job_idle; [exact HA|intros; congruence]|].
  rewrite (cancel_job_live w jid t task Hjt Ht Hdone).
  destruct (inv_job_tasks w HI jid t Hjt) as (task0 & Ht0 & Hjid).
  rewrite Ht in Ht0. injection Ht0 as <-. subst jid.
  apply Acc_update; try assumption; try reflexivity.
  intros job Hjob. simpl. apply files_ok_status; [|eapply HA; eauto].
  intros e He. unfold done in Hdone. rewrite He in Hdone. discriminate.
Qed.

Lemma Acc_run_task fmt env files t w :
  Inv w -> Acc w -> Acc (run_task fmt env files t w).
Proof.
  intros HI HA.
  destruct (tasks w !! t) as [task|] eqn:Ht;
    [|rewrite run_task_idle; [exact HA|intros; congruence]].
  destruct (done task) eqn:Hdone;
    [rewrite run_task_idle; [exact HA|intros; congruence]|].
  destruct (must_cancel task) eqn:Hc.
  - rewrite (run_task_cancelled fmt env files t w task Ht Hdone Hc).
    apply Acc_update; try assumption; try reflexivity.
    intros job Hjob. simpl.
    pose proof (files_ok_weak _ _ (HA t task job Ht Hjob)) as Hw.
    unfold files_ok. lia.
  - destruct (live_job_exists w t task HI Ht Hdone Hc) as (job & Hjob & Hl).
    destruct (resume_files fmt env files task w job Hjob Hl
                (HA t task job Ht Hjob) Hdone) as (F & HF & HFok).
    unfold run_task. rewrite Ht, Hdone, Hc.
    destruct (resume fmt env files task w) as [w1 co]. simpl in HF, HFok.
    subst w1. rewrite touch_tasks.
    apply (Acc_update w t task
             {| args := args task; coro := co; must_cancel := false |} F);
      try assumption; try reflexivity.
    intros job' Hjob'. rewrite Hjob in Hjob'. injection Hjob' as <-.
    exact HFok.
Qed.

Lemma Acc_start_download uuid a w :
  Inv w -> Acc w -> unused w uuid -> Acc (start_download uuid a w).
Proof.
  intros HI HA (Hnojob & Hnojt & Hnotask).
  destruct (b_tracks a) as [|x xs] eqn:Htr.
  { rewrite start_download_empty by assumption. exact HA. }
  assert (Hne : b_tracks a <> []) by (rewrite Htr; discriminate).
  pose proof (start_download_job_of_new uuid a w Hne) as Hnew.
  pose proof (fun k => start_download_job_of_other uuid a w k (inv_wf w HI))
    as Hold.
  intros t task job Ht Hjob.
  rewrite start_download_fields in Ht by assumption. simpl in Ht.
  apply lookup_insert_Some in Ht as [[_ <-]|[_ Ht]].
  - simpl in Hjob. rewrite Hnew in Hjob. injection Hjob as <-.
    unfold files_ok, new_job. simpl. lia.
  - rewrite Hold in Hjob by (eapply Hnotask; eauto). eapply HA; eauto.
Qed.

Lemma Acc_step fmt w l w' : Inv w -> Acc w -> step fmt w l w' -> Acc w'.
Proof.
  intros HI HA Hstep. destruct Hstep.
  - apply Acc_start_download; assumption.
  - apply Acc_run_task; assumption.
  - apply Acc_cancel; assumption.
  - apply Acc_sweep; assumption.
Qed.

Lemma reachable_Acc fmt w : reachable fmt w -> Acc w.
Proof.
  induction 1 as [|w l w' Hr IH Hstep]; [apply Acc_init|].
  eapply Acc_step; eauto. eapply reachable_Inv; eauto.
Qed.

(** X20: in every state the running system can reach, the counters of a
    job are not negative, and the number of files recorded for it is its
    counter of completed tracks, or one more while the pipeline has
    recorded the file of the track just downloaded and not yet reported
    it; once the job is Completed the two are equal. *)
Theorem files_match_completed
    (fmt : option Z -> string -> string -> string -> string)
    (w : World) (jid : string) (job : JobStatusResponse) :
  reachable fmt w ->
  job_of w jid = Some job ->
  0 <= completed_tracks job /\ 0 <= failed_tracks job /\
  0 <= skipped_tracks job /\
  completed_tracks job <= Z.of_nat (List.length (downloaded_files job))
  <= completed_tracks job + 1 /\
  (status job = COMPLETED ->
   Z.of_nat (List.length (downloaded_files job)) = completed_tracks job).
Proof.
  intros Hr Hjob.
  pose proof (reachable_Inv fmt w Hr) as HI.
  pose proof (reachable_Acc fmt w Hr) as HA.
  assert (Hown : exists t task, tasks w !! t = Some task /\
                                b_job_id (args task) = jid).
  { unfold job_of in Hjob. destruct (jobs w !! jid) as [l|] eqn:Hl;
      [|discriminate]. eapply (inv_owner w HI); eauto. }
  destruct Hown as (t & task & Ht & <-).
  pose proof (HA t task job Ht Hjob) as Hok.
  destruct (files_ok_weak _ _ Hok) as (H1 & H2 & H3 & H4).
  split; [exact H1|]. split; [exact H2|]. split; [exact H3|].
  split; [exact H4|]. intros Hst.
  destruct (inv_tasks w HI t task Ht) as [_ Htask].
  unfold files_ok in Hok.
  destruct (coro task) as [|track dir rest c f s|rest c f s| |msg|] eqn:Hco.
  - lia.
  - lia.
  - exfalso. destruct (must_cancel task).
    + rewrite (Htask job Hjob) in Hst. discriminate.
    + destruct Htask as (job' & Hjob' & _ & Hrun & _).
      rewrite Hjob in Hjob'. injection Hjob' as <-.
      rewrite Hrun in Hst. discriminate.
  - lia.
  - exfalso. rewrite Hst in Hok. simpl in Hok. lia.
  - exfalso. rewrite (Htask job Hjob) in Hst. discriminate.
Qed.

Lemma files_match_completed_witness :
  exists job,
    job_of fetching_second "job-1" = Some job /\
    completed_tracks job = 1 /\
    Z.of_nat (List.length (downloaded_files job)) = 1.
Proof.
  assert (Hjob : exists job, job_of fetching_second "job-1" = Some job /\
                             completed_tracks job = 1).
  { eexists. split; vm_compute; reflexivity. }
  destruct Hjob as (job & Hjob & Hc).
  destruct (files_match_completed plain_translator fetching_second "job-1" job
              reachable_fetching_second Hjob) as (_ & _ & _ & Hn & _).
  exists job. split; [exact Hjob|]. split; [exact Hc|].
  assert (Hlen : (List.length (downloaded_files job) = 1)%nat).
  { revert Hjob. vm_compute. intros [= <-]. reflexivity. }
  rewrite Hlen. reflexivity.
Defined.

(** ** The end of a cancelled task *)

(** X21: after the cancellation of a job whose task is live, the next
    resumption of the task ends it without running any of the pipeline:
    the task is Cancelled and done, the records of all jobs, the registry
    and the task handles are as the cancellation left them, so the job
    stays Failed with the counts it had; resuming the task again changes
    nothing, and a second cancellation is refused. *)
Theorem cancelled_task_stops
    (fmt : option Z -> string -> string -> string -> string) (env : Env)
    (files : gmap string File) (w : World) (jid : string) (t : tid)
    (task : Task) :
  job_tasks w !! jid = Some t ->
  tasks w !! t = Some task ->
  done task = false ->
  let w1 := fst (cancel_job jid w) in
  let w2 := run_task fmt env files t w1 in
  tasks w2 !! t
  = Some {| args := args task; coro := Cancelled; must_cancel := false |} /\
  (forall t', t' <> t -> tasks w2 !! t' = tasks w !! t') /\
  objs w2 = objs w1 /\ jobs w2 = jobs w /\ job_tasks w2 = job_tasks w /\
  job_of w2 jid
  = status_update FAILED (Some "Job cancelled by user") <$> job_of w jid /\
  (forall env' files', run_task fmt env' files' t w2 = w2) /\
  cancel_job jid w2 = (w2, false).
Proof.
  intros Hjt Ht Hlive w1 w2.
  set (task1 := {| args := args task; coro := coro task; must_cancel := true |}).
  assert (Hw1 : w1 = with_tasks (<[t := task1]> (tasks w))
                       (touch (status_update FAILED (Some "Job cancelled by user"))
                          jid w)).
  { apply cancel_job_live; assumption. }
  assert (Ht1 : tasks w1 !! t = Some task1).
  { rewrite Hw1. simpl. apply lookup_insert_eq. }
  assert (Hw2 : w2 = with_tasks
                       (<[t := {| args := args task; coro := Cancelled;
                                  must_cancel := false |}]> (tasks w1)) w1).
  { subst w2. unfold run_task. rewrite Ht1.
    replace (done task1) with false by (symmetry; exact Hlive).
    reflexivity. }
  assert (Ht2 : tasks w2 !! t
                = Some {| args := args task; coro := Cancelled;
                          must_cancel := false |}).
  { rewrite Hw2. simpl. apply lookup_insert_eq. }
  split; [exact Ht2|]. split.
  { intros t' Hne. rewrite Hw2, Hw1. simpl.
    rewrite !lookup_insert_ne by done. reflexivity. }
  split; [rewrite Hw2; reflexivity|].
  split; [rewrite Hw2, Hw1; simpl; apply touch_jobs|].
  split; [rewrite Hw2, Hw1; simpl; apply touch_job_tasks|].
  split.
  { rewrite Hw2, Hw1.
    change (job_of (touch (status_update FAILED (Some "Job cancelled by user"))
                      jid w) jid
            = status_update FAILED (Some "Job cancelled by user")
              <$> job_of w jid).
    apply touch_job_of_same. }
  split.
  - intros env' files'. unfold run_task. rewrite Ht2. reflexivity.
  - unfold cancel_job.
    replace (job_tasks w2 !! jid) with (Some t)
      by (rewrite Hw2, Hw1; simpl; rewrite touch_job_tasks; symmetry; exact Hjt).
    rewrite Ht2. reflexivity.
Qed.

Lemma cancelled_task_stops_witness :
  let w2 := run_task plain_translator (serving good_mp3) ∅ 0%nat
              cancelled_midway in
  (coro <$> tasks w2 !! 0%nat) = Some Cancelled /\
  cancel_job "job-1" w2 = (w2, false).
Proof.
  intros w2.
  assert (Hjt : job_tasks fetching_second !! "job-1" = Some 0%nat)
    by (vm_compute; reflexivity).
  assert (Ht : exists task, tasks fetching_second !! 0%nat = Some task /\
                            done task = false).
  { eexists. split; vm_compute; reflexivity. }
  destruct Ht as (task & Ht & Hlive).
  destruct (cancelled_task_stops plain_translator (serving good_mp3) ∅
              fetching_second "job-1" 0%nat task Hjt Ht Hlive)
    as (Ht2 & _ & _ & _ & _ & _ & _ & Hagain).
  split; [|exact Hagain].
  change (run_task plain_translator (serving good_mp3) ∅ 0%nat
            (fst (cancel_job "job-1" fetching_second))) with w2 in Ht2.
  exact (f_equal (fmap coro) Ht2).
Defined.

(** ** Jobs and their task handles *)

Lemma handles_step fmt w l w' :
  (forall jid, is_Some (jobs w !! jid) <-> is_Some (job_tasks w !! jid)) ->
  step fmt w l w' ->
  forall jid, is_Some (jobs w' !! jid) <-> is_Some (job_tasks w' !! jid).
Proof.
  intros H Hstep jid. destruct Hstep as [w uuid a _|w t env files|w k|w].
  - destruct (b_tracks a) as [|x xs] eqn:Htr.
    { rewrite start_download_empty by assumption. apply H. }
    rewrite start_download_fields by (rewrite Htr; discriminate). simpl.
    destruct (decide (uuid = jid)) as [<-|Hne].
    + rewrite !lookup_insert_eq. split; eauto.
    + rewrite !lookup_insert_ne by done. apply H.
  - assert (E : jobs (run_task fmt env files t w) = jobs w /\
                job_tasks (run_task fmt env files t w) = job_tasks w).
    { unfold run_task. destruct (tasks w !! t) as [task|]; [|auto].
      destruct (done task); [auto|]. destruct (must_cancel task); [auto|].
      destruct (resume_tasks fmt env files task w) as [F HF].
      destruct (resume fmt env files task w) as [w1 co]. simpl in HF.
      subst w1. simpl. rewrite touch_jobs, touch_job_tasks. auto. }
    destruct E as [-> ->]. apply H.
  - assert (E : jobs (fst (cancel_job k w)) = jobs w /\
                job_tasks (fst (cancel_job k w)) = job_tasks w).
    { unfold cancel_job. destruct (job_tasks w !! k) as [t|]; [|auto].
      destruct (tasks w !! t) as [task|]; [|auto].
      destruct (done task); [auto|]. simpl.
      rewrite update_job_status_touch, touch_jobs, touch_job_tasks. auto. }
    destruct E as [-> ->]. apply H.
  - simpl. rewrite !map_lookup_filter.
    destruct (finished w jid) eqn:Hfin.
    + destruct (jobs w !! jid), (job_tasks w !! jid); simpl;
        rewrite ?option_guard_False by (rewrite Hfin; discriminate);
        split; intros [? ?]; discriminate.
    + specialize (H jid).
      destruct (jobs w !! jid), (job_tasks w !! jid); simpl;
        rewrite ?option_guard_True by exact Hfin; exact H.
Qed.

(** X22: in every state the running system can reach, a job is in the
    registry exactly when a task handle is registered under its id, the
    handle is the task that runs this job, and so a cancellation that is
    accepted always finds the job it sets to Failed. *)
Theorem handles_match_jobs
    (fmt : option Z -> string -> string -> string -> string)
    (w : World) (jid : string) :
  reachable fmt w ->
  (is_Some (job_of w jid) <-> is_Some (job_tasks w !! jid)) /\
  (forall t, job_tasks w !! jid = Some t ->
     exists task, tasks w !! t = Some task /\ b_job_id (args task) = jid) /\
  (snd (cancel_job jid w) = true ->
   exists job, job_of w jid = Some job /\
     job_of (fst (cancel_job jid w)) jid
     = Some (status_update FAILED (Some "Job cancelled by user") job)).
Proof.
  intros Hr.
  assert (Hdom : forall k, is_Some (jobs w !! k) <-> is_Some (job_tasks w !! k)).
  { induction Hr as [|w l w' Hr IH Hstep].
    - intros k. simpl. rewrite !lookup_empty. split; intros [? ?]; discriminate.
    - eapply handles_step; eauto. }
  pose proof (reachable_Inv fmt w Hr) as HI.
  assert (Hjob : is_Some (job_of w jid) <-> is_Some (jobs w !! jid)).
  { unfold job_of. destruct (jobs w !! jid) as [l|] eqn:Hl; simpl.
    - split; [eauto|]. intros _.
      destruct (inv_wf w HI) as [Hst _]. eapply Hst; eauto.
    - split; intros [? ?]; discriminate. }
  split; [rewrite Hjob; apply Hdom|]. split.
  { intros t Ht. apply (inv_job_tasks w HI jid t Ht). }
  intros Hc.
  assert (Hh : is_Some (job_tasks w !! jid)).
  { unfold cancel_job in Hc.
    destruct (job_tasks w !! jid); [eauto|discriminate]. }
  apply Hdom in Hh. apply Hjob in Hh. destruct Hh as [job Hj].
  exists job. split; [exact Hj|].
  unfold cancel_job in *.
  destruct (job_tasks w !! jid) as [t|]; [|discriminate].
  destruct (tasks w !! t) as [task|]; [|discriminate].
  destruct (done task); [discriminate|]. simpl.
  rewrite update_job_status_touch, touch_with_tasks.
  change (job_of (touch (status_update FAILED (Some "Job cancelled by user"))
                    jid w) jid
          = Some (status_update FAILED (Some "Job cancelled by user") job)).
  rewrite touch_job_of_same, Hj. reflexivity.
Qed.

Lemma handles_match_jobs_witness :
  is_Some (job_of fetching_second "job-1") /\
  is_Some (job_tasks fetching_second !! "job-1") /\
  exists job,
    job_of (fst (cancel_job "job-1" fetching_second)) "job-1"
    = Some (status_update FAILED (Some "Job cancelled by user") job).
Proof.
  destruct (handles_match_jobs plain_translator fetching_second "job-1"
              reachable_fetching_second) as (Hiff & _ & Hcancel).
  assert (Hh : is_Some (job_tasks fetching_second !! "job-1")).
  { vm_compute. eauto. }
  split; [apply Hiff; exact Hh|]. split; [exact Hh|].
  destruct Hcancel as (job & _ & Hj); [vm_compute; reflexivity|].
  exists job. exact Hj.
Defined.

(** ** A job whose task has crashed *)

Lemma steps_reachable fmt w w' :
  steps fmt w w' -> reachable fmt w -> reachable fmt w'.
Proof.
  induction 1 as [|w l w1 w2 Hstep _ IH]; intros Hr; [exact Hr|].
  apply IH. eapply reachable_step; eauto.
Qed.

Lemma crashed_step fmt w l w' t task job msg :
  Inv w -> Acc w ->
  tasks w !! t = Some task -> coro task = Crashed msg ->
  job_of w (b_job_id (args task)) = Some job ->
  step fmt w l w' ->
  tasks w' !! t = Some task /\ job_of w' (b_job_id (args task)) = Some job.
Proof.
  intros HI HA Ht Hco Hjob Hstep.
  set (jid := b_job_id (args task)) in *.
  assert (Hdone : done task = true) by (unfold done; rewrite Hco; reflexivity).
  assert (Hlive : is_terminal (status job) = false).
  { pose proof (HA t task job Ht Hjob) as Hok. unfold files_ok in Hok.
    rewrite Hco in Hok. apply Hok. }
  destruct Hstep as [w uuid a (Hnojob & _ & _)|w t2 env files|w k|w].
  - assert (Hne : jid <> uuid).
    { intros ->. unfold job_of in Hjob. rewrite Hnojob in Hjob. discriminate. }
    split.
    + destruct (b_tracks a) as [|x xs] eqn:Htr.
      { rewrite start_download_empty by assumption. exact Ht. }
      rewrite start_download_fields by (rewrite Htr; discriminate). simpl.
      rewrite lookup_insert_ne; [exact Ht|].
      intros Heq. symmetry in Heq. revert Heq. eapply fresh_tid_unused; eauto.
    + rewrite start_download_job_of_other; [exact Hjob|apply HI|exact Hne].
  - destruct (decide (t2 = t)) as [->|Hne].
    { rewrite run_task_idle; [auto|]. intros task' Ht'.
      rewrite Ht in Ht'. injection Ht' as <-. exact Hdone. }
    destruct (tasks w !! t2) as [task2|] eqn:Ht2;
      [|rewrite run_task_idle; [auto|intros; congruence]].
    destruct (done task2) eqn:Hdone2;
      [rewrite run_task_idle; [auto|intros; congruence]|].
    assert (Hid : jid <> b_job_id (args task2)).
    { intros Heq. apply Hne. eapply (inv_unique w HI); eauto. }
    assert (Hshape : exists F co mc,
              run_task fmt env files t2 w
              = with_tasks (<[t2 := {| args := args task2; coro := co;
                                       must_cancel := mc |}]> (tasks w))
                  (touch F (b_job_id (args task2)) w)).
    { destruct (must_cancel task2) eqn:Hc.
      - rewrite (run_task_cancelled fmt env files t2 w task2 Ht2 Hdone2 Hc).
        eauto.
      - unfold run_task. rewrite Ht2, Hdone2, Hc.
        destruct (resume_tasks fmt env files task2 w) as [F HF].
        destruct (resume fmt env files task2 w) as [w1 co]. simpl in HF.
        subst w1. rewrite touch_tasks. eauto. }
    destruct Hshape as (F & co & mc & ->). split.
    + simpl. rewrite lookup_insert_ne by done. exact Ht.
    + change (job_of (touch F (b_job_id (args task2)) w) jid = Some job).
      rewrite touch_job_of_other; [exact Hjob|apply HI|exact Hid].
  - destruct (job_tasks w !! k) as [t0|] eqn:Hjt;
      [|rewrite cancel_job_idle; [auto|intros; congruence]].
    destruct (tasks w !! t0) as [task0|] eqn:Ht0;
      [|rewrite cancel_job_idle; [auto|intros; congruence]].
    destruct (done task0) eqn:Hdone0;
      [rewrite cancel_job_idle; [auto|intros; congruence]|].
    destruct (inv_job_tasks w HI k t0 Hjt) as (task0' & Ht0' & Hk).
    rewrite Ht0 in Ht0'. injection Ht0' as <-.
    assert (Hne : t0 <> t).
    { intros ->. rewrite Ht in Ht0. injection Ht0 as Heq.
      rewrite <- Heq, Hdone in Hdone0. discriminate. }
    assert (Hid : jid <> k).
    { intros Heq. apply Hne. eapply (inv_unique w HI); eauto.
      rewrite Hk. symmetry. exact Heq. }
    rewrite (cancel_job_live w k t0 task0 Hjt Ht0 Hdone0). split.
    + simpl. rewrite lookup_insert_ne by done. exact Ht.
    + change (job_of (touch (status_update FAILED (Some "Job cancelled by user"))
                        k w) jid = Some job).
      rewrite touch_job_of_other; [exact Hjob|apply HI|exact Hid].
  - split; [exact Ht|]. rewrite sweep_job_of.
    unfold finished. rewrite Hjob, Hlive. reflexivity.
Qed.

(** No job is ever given the status Skipped. *)
Lemma never_skipped fmt w jid job :
  reachable fmt w -> job_of w jid = Some job -> status job <> SKIPPED.
Proof.
  intros Hr. revert jid job.
  induction Hr as [|w l w' Hr IH Hstep]; intros jid job Hjob Hs.
  - unfold job_of in Hjob. simpl in Hjob. rewrite lookup_empty in Hjob.
    discriminate.
  - destruct (step_status fmt w l w' jid job (reachable_Inv fmt w Hr) Hstep
                Hjob) as [(job0 & Hjob0 & Hfw & _)|(_ & Hnew & _)].
    + rewrite Hs in Hfw. apply (IH jid job0 Hjob0).
      destruct (status job0); try discriminate. reflexivity.
    + rewrite Hnew in Hs. discriminate.
Qed.

(** X23: a job whose task has ended with an exception (the output
    directory could not be created when the batch started) is stuck:
    whatever happens next in the running system, its record is never
    changed again, so it stays Pending or Running, it is never swept, and
    a cancellation of it is always refused. *)
Theorem crashed_job_is_stuck
    (fmt : option Z -> string -> string -> string -> string)
    (w w' : World) (t : tid) (task : Task) (job : JobStatusResponse)
    (msg : string) :
  reachable fmt w ->
  tasks w !! t = Some task ->
  coro task = Crashed msg ->
  job_of w (b_job_id (args task)) = Some job ->
  steps fmt w w' ->
  job_of w' (b_job_id (args task)) = Some job /\
  (status job = PENDING \/ status job = RUNNING) /\
  finished w' (b_job_id (args task)) = false /\
  cancel_job (b_job_id (args task)) w' = (w', false).
Proof.
  intros Hr Ht Hco Hjob Hsteps.
  assert (Hkeep : tasks w' !! t = Some task /\
                  job_of w' (b_job_id (args task)) = Some job /\
                  reachable fmt w').
  { induction Hsteps as [|w l w1 w2 Hstep _ IH]; [auto|].
    destruct (crashed_step fmt w l w1 t task job msg
                (reachable_Inv fmt w Hr) (reachable_Acc fmt w Hr)
                Ht Hco Hjob Hstep) as [Ht1 Hjob1].
    apply IH; try assumption. eapply reachable_step; eauto. }
  destruct Hkeep as (Ht' & Hjob' & Hr').
  pose proof (reachable_Inv fmt w' Hr') as HI.
  pose proof (reachable_Acc fmt w' Hr' t task job Ht' Hjob') as Hok.
  unfold files_ok in Hok. rewrite Hco in Hok.
  destruct Hok as (_ & _ & _ & _ & Hlive).
  destruct (inv_tasks w' HI t task Ht') as [_ Htask].
  split; [exact Hjob'|]. split.
  { pose proof (never_skipped fmt w' _ job Hr' Hjob') as Hns.
    destruct (status job); try discriminate; auto. contradiction. }
  split; [unfold finished; rewrite Hjob', Hlive; reflexivity|].
  unfold cancel_job.
  destruct (job_tasks w' !! b_job_id (args task)) as [t0|] eqn:Hjt;
    [|reflexivity].
  destruct (inv_job_tasks w' HI _ t0 Hjt) as (task0 & Ht0 & Hk).
  assert (t0 = t) by (eapply (inv_unique w' HI); eauto).
  subst t0. rewrite Ht'. unfold done. rewrite Hco. reflexivity.
Qed.

Lemma crashed_job_is_stuck_witness :
  let env :=
    {| net := net (serving good_mp3);
       remove_error := fun _ => None; rename_error := fun _ _ => None;
       write_error := fun _ _ => None; save_result := fun _ f => (f, None);
       mkdir_error := fun _ => Some "Read-only file system" |} in
  let w := run_task plain_translator env ∅ 0%nat submitted_one in
  (status <$> job_of (cleanup_finished_jobs
                        (run_task plain_translator (serving good_mp3) ∅ 0%nat w))
                "job-1") = Some PENDING.
Proof.
  intros env w.
  assert (Hr : reachable plain_translator w).
  { eapply reachable_step; [|apply step_resume].
    eapply reachable_step; [apply reachable_init|].
    apply (step_submit _ _ "job-1" (sample_batch [sample_track])).
    apply unused_init. }
  assert (Ht : exists task, tasks w !! 0%nat = Some task /\
                 coro task = Crashed "Read-only file system" /\
                 b_job_id (args task) = "job-1").
  { eexists. split; [|split]; vm_compute; reflexivity. }
  destruct Ht as (task & Ht & Hco & Hid).
  assert (Hjob : exists job, job_of w (b_job_id (args task)) = Some job /\
                             status job = PENDING).
  { rewrite Hid. eexists. split; vm_compute; reflexivity. }
  destruct Hjob as (job & Hjob & Hst).
  destruct (crashed_job_is_stuck plain_translator w
              (cleanup_finished_jobs
                 (run_task plain_translator (serving good_mp3) ∅ 0%nat w))
              0%nat task job "Read-only file system" Hr Ht Hco Hjob)
    as (Hjob' & _).
  { eapply steps_cons; [apply step_resume|].
    eapply steps_cons; [apply step_sweep|]. apply steps_refl. }
  rewrite Hid in Hjob'. rewrite Hjob'. simpl. rewrite Hst. reflexivity.
Defined.

(** ** The paths a fetch works on *)

Section Frame.

Variable P : string -> Prop.

Lemma frame_refl s : frame P s s.
Proof. intros p _. reflexivity. Qed.

Lemma frame_trans s1 s2 s3 : frame P s1 s2 -> frame P s2 s3 -> frame P s1 s3.
Proof. intros H1 H2 p Hp. rewrite (H2 p Hp). apply H1. exact Hp. Qed.

Lemma keeps_ret {A} (a : A) : keeps P (ret a).
Proof. intros s. apply frame_refl. Qed.

Lemma keeps_raise {A} msg : keeps P (@raise A msg).
Proof. intros s. apply frame_refl. Qed.

Lemma keeps_lift {A} (r : result A) : keeps P (lift r).
Proof. intros s. apply frame_refl. Qed.

Lemma keeps_get_fs : keeps P get_fs.
Proof. intros s. apply frame_refl. Qed.

Lemma keeps_emit e : keeps P (emit e).
Proof. intros s p _. reflexivity. Qed.

Lemma keeps_set_fs f :
  (forall m p, ~ P p -> f m !! p = m !! p) -> keeps P (set_fs f).
Proof. intros Hf s p Hp. simpl. apply Hf. exact Hp. Qed.

Lemma keeps_bind_post {A B} (m : M A) (k : A -> M B) :
  keeps P m ->
  (forall s s1 a, m s = (s1, Ok a) -> keeps P (k a)) ->
  keeps P (mbind m k).
Proof.
  intros Hm Hk s. unfold mbind. specialize (Hm s).
  destruct (m s) as [s1 [a|msg]] eqn:E; simpl in Hm; [|exact Hm].
  eapply frame_trans; [exact Hm|]. eapply Hk; eauto.
Qed.

Lemma keeps_bind {A B} (m : M A) (k : A -> M B) :
  keeps P m -> (forall a, keeps P (k a)) -> keeps P (mbind m k).
Proof. intros Hm Hk. apply keeps_bind_post; auto. Qed.

Lemma keeps_mtry {A} (m : M A) (h : string -> M A) :
  keeps P m -> (forall e, keeps P (h e)) -> keeps P (mtry m h).
Proof.
  intros Hm Hh s. unfold mtry. specialize (Hm s).
  destruct (m s) as [s1 [a|msg]]; simpl in Hm; [exact Hm|].
  eapply frame_trans; [exact Hm|]. apply Hh.
Qed.

Lemma keeps_check_valid path : keeps P (check_valid path).
Proof.
  unfold check_valid.
  apply keeps_bind; [apply keeps_get_fs|]. intros cur.
  apply keeps_bind; [apply keeps_lift|]. intros v.
  apply keeps_bind; [apply keeps_emit|]. intros _. apply keeps_ret.
Qed.

Lemma keeps_os_path_exists path : keeps P (os_path_exists path).
Proof.
  unfold os_path_exists.
  apply keeps_bind; [apply keeps_get_fs|]. intros cur. apply keeps_ret.
Qed.

Lemma keeps_os_remove env path : P path -> keeps P (os_remove env path).
Proof.
  intros Hpath. unfold os_remove.
  apply keeps_bind; [apply keeps_emit|]. intros _.
  destruct (remove_error env path); [apply keeps_raise|].
  apply keeps_bind; [apply keeps_get_fs|]. intros cur.
  destruct (cur !! path); [|apply keeps_raise].
  apply keeps_set_fs. intros m p Hp. apply lookup_delete_ne.
  intros ->. contradiction.
Qed.

Lemma keeps_os_rename env src dst :
  P src -> P dst -> keeps P (os_rename env src dst).
Proof.
  intros Hsrc Hdst. unfold os_rename.
  apply keeps_bind; [apply keeps_emit|]. intros _.
  destruct (rename_error env src dst); [apply keeps_raise|].
  apply keeps_bind; [apply keeps_get_fs|]. intros cur.
  destruct (cur !! src); [|apply keeps_raise].
  apply keeps_set_fs. intros m p Hp.
  rewrite lookup_insert_ne by (intros ->; contradiction).
  apply lookup_delete_ne. intros ->. contradiction.
Qed.

Lemma keeps_write_file env path data : P path -> keeps P (write_file env path data).
Proof.
  intros Hpath. unfold write_file.
  assert (Hins : forall f, keeps P (set_fs (insert path f))).
  { intros f. apply keeps_set_fs. intros m p Hp.
    apply lookup_insert_ne. intros ->. contradiction. }
  apply keeps_bind; [apply keeps_emit|]. intros _.
  destruct (write_error env path data) as [[msg leftover]|]; [|apply Hins].
  apply keeps_bind; [|intros _; apply keeps_raise].
  destruct leftover; [apply Hins|apply keeps_ret].
Qed.

Lemma keeps_request env r : keeps P (request env r).
Proof.
  unfold request. apply keeps_bind; [apply keeps_emit|]. intros _.
  apply keeps_lift.
Qed.

Lemma keeps_embed_metadata env path track :
  P path -> keeps P (embed_metadata env path track).
Proof.
  intros Hpath. unfold embed_metadata.
  apply keeps_mtry; [|intros; apply keeps_ret].
  apply keeps_bind; [apply keeps_get_fs|]. intros cur.
  destruct (cur !! path) as [f|]; [|apply keeps_raise].
  apply keeps_bind; [apply keeps_lift|]. intros _.
  apply keeps_bind.
  { destruct (negb _); [|apply keeps_ret].
    apply keeps_mtry; [|intros; apply keeps_ret].
    apply keeps_bind; [apply keeps_request|]. intros _. apply keeps_ret. }
  intros _. apply keeps_bind; [apply keeps_emit|]. intros _.
  apply keeps_bind.
  { apply keeps_set_fs. intros m p Hp.
    apply lookup_insert_ne. intros ->. contradiction. }
  intros _. destruct (snd (save_result env path f));
    [apply keeps_raise|apply keeps_ret].
Qed.

Lemma keeps_save_file env filepath ext track payload :
  P filepath -> P (filepath +:+ ".tmp") ->
  keeps P (save_file env filepath ext track payload).
Proof.
  intros Hfinal Htmp. unfold save_file.
  apply keeps_mtry.
  - apply keeps_bind; [apply keeps_write_file; exact Htmp|]. intros _.
    apply keeps_bind; [apply keeps_check_valid|]. intros [|].
    + apply keeps_bind; [apply keeps_os_rename; assumption|]. intros _.
      apply keeps_bind; [|intros _; apply keeps_ret].
      destruct (String.eqb ext ".mp3");
        [apply keeps_embed_metadata; exact Hfinal|apply keeps_ret].
    + apply keeps_bind; [apply keeps_os_path_exists|]. intros there.
      apply keeps_bind; [|intros _; apply keeps_ret].
      destruct there; [apply keeps_os_remove; exact Htmp|apply keeps_ret].
  - intros e. apply keeps_bind; [apply keeps_os_path_exists|]. intros there.
    apply keeps_bind; [|intros _; apply keeps_raise].
    destruct there; [|apply keeps_ret].
    apply keeps_mtry; [apply keeps_os_remove; exact Htmp|].
    intros; apply keeps_ret.
Qed.

Lemma keeps_remove_corrupted env path :
  P path -> keeps P (remove_corrupted env path).
Proof.
  intros Hpath. unfold remove_corrupted.
  apply keeps_bind; [apply keeps_os_path_exists|]. intros [|];
    [|apply keeps_ret].
  apply keeps_mtry; [|intros; apply keeps_ret].
  apply keeps_bind; [apply keeps_os_remove; exact Hpath|]. intros _.
  apply keeps_ret.
Qed.

Lemma keeps_request_link fmt env token track :
  keeps P (request_link fmt env token track).
Proof.
  unfold request_link.
  apply keeps_bind; [apply keeps_request|]. intros resp.
  destruct (negb _); [apply keeps_ret|].
  apply keeps_bind; [apply keeps_lift|]. intros data.
  destruct (negb _); [apply keeps_ret|].
  destruct (j_link data) as [l|]; [|apply keeps_ret].
  destruct (String.eqb l ""); apply keeps_ret.
Qed.

Lemma keeps_negotiate_flac env token track link :
  keeps P (negotiate_flac env token track link).
Proof.
  unfold negotiate_flac.
  apply keeps_mtry; [|intros; apply keeps_ret].
  apply keeps_bind; [apply keeps_request|]. intros resp.
  destruct (status_code resp =? 200); [|apply keeps_ret].
  apply keeps_bind; [apply keeps_lift|]. intros data.
  destruct (j_flacAvailable data); [|apply keeps_ret].
  apply keeps_bind; [apply keeps_request|]. intros resp2.
  destruct (status_code resp2 =? 200); [|apply keeps_ret].
  apply keeps_bind; [apply keeps_lift|]. intros d.
  destruct (j_success d && truthy (j_link d))%bool; [|apply keeps_ret].
  destruct (j_link d); apply keeps_ret.
Qed.

End Frame.

Lemma download_track_body_keeps fmt env track outpath token prefer_flac
    filename_format use_track_numbers :
  keeps (fetch_paths track outpath filename_format use_track_numbers prefer_flac)
    (download_track_body fmt env track outpath token prefer_flac
       filename_format use_track_numbers).
Proof.
  set (P := fetch_paths track outpath filename_format use_track_numbers
              prefer_flac).
  assert (Hmp3 : P (track_filepath track outpath ".mp3" filename_format
                      use_track_numbers)).
  { left. reflexivity. }
  unfold download_track_body.
  apply keeps_bind; [apply keeps_check_valid|]. intros [|];
    [apply keeps_ret|].
  apply keeps_bind; [apply keeps_remove_corrupted; exact Hmp3|].
  intros [r|[]]; [apply keeps_ret|].
  apply keeps_bind; [apply keeps_request_link|].
  intros [r|link]; [apply keeps_ret|].
  apply keeps_bind_post.
  { destruct prefer_flac; [apply keeps_negotiate_flac|apply keeps_ret]. }
  intros s s1 asset Hasset.
  assert (Hext : snd asset = ".mp3" \/
                 (snd asset = ".flac" /\ prefer_flac = true)).
  { destruct prefer_flac.
    - destruct (negotiate_flac_cases env token track link s)
        as (s' & asset' & Hn & [->|(l' & ->)]);
        rewrite Hn in Hasset; injection Hasset as _ <-; simpl; auto.
    - injection Hasset as _ <-. simpl. auto. }
  apply keeps_bind; [apply keeps_lift|]. intros host.
  apply keeps_bind; [apply keeps_request|]. intros resp.
  destruct (negb _); [apply keeps_ret|].
  destruct Hext as [->|[-> Hflac]].
  - apply keeps_save_file; [exact Hmp3|right; left; reflexivity].
  - apply keeps_save_file; right; right; (split; [exact Hflac|]); auto.
Qed.

(** X24: a fetch changes no path of the file system other than the
    destination of the track and its temporary sibling, for the primary
    format and, when the lossless format is preferred, for that one: every
    other file, of this track's directory or of any other, is after the
    fetch what it was before, whatever the provider answers and whatever
    fails. *)
Theorem fetch_touches_its_paths_only
    (fmt : option Z -> string -> string -> string -> string) (env : Env)
    (track : TrackInfo) (outpath token : string) (prefer_flac : bool)
    (filename_format : string) (use_track_numbers : bool)
    (files : gmap string File) (p : string) :
  ~ fetch_paths track outpath filename_format use_track_numbers prefer_flac p ->
  fs (fst (download_track_async fmt env track outpath token prefer_flac
             filename_format use_track_numbers {| fs := files; log := [] |}))
    !! p = files !! p.
Proof.
  intros Hp. unfold download_track_async.
  pose proof (download_track_body_keeps fmt env track outpath token
                prefer_flac filename_format use_track_numbers
                {| fs := files; log := [] |} p Hp) as H.
  destruct (download_track_body fmt env track outpath token prefer_flac
              filename_format use_track_numbers {| fs := files; log := [] |})
    as [s1 [r|e]]; exact H.
Qed.

Lemma fetch_touches_its_paths_only_witness :
  fs (fst (download_track_async plain_translator (serving good_mp3)
             sample_track "downloads" "tok" false "title_artist" true
             {| fs := {["downloads/other.mp3" := truncated_file]};
                log := [] |}))
    !! "downloads/other.mp3" = Some truncated_file.
Proof.
  rewrite (fetch_touches_its_paths_only plain_translator (serving good_mp3)
             sample_track "downloads" "tok" false "title_artist" true
             {["downloads/other.mp3" := truncated_file]}
             "downloads/other.mp3").
  - reflexivity.
  - unfold fetch_paths. vm_compute.
    intros [H|[H|[H _]]]; discriminate.
Defined.

(** *** No temporary file is left behind *)







(** ** Steps of one task and the jobs of the others *)

(** X26: a step of the task of a job changes nothing of the other jobs:
    the registry and the task handles are the same, every other task is
    the same, every job with another id reads as before, and the task
    keeps the arguments it was created with. *)
Theorem run_task_isolated
    (fmt : option Z -> string -> string -> string -> string) (env : Env)
    (files : gmap string File) (t : tid) (w : World) (task : Task) :
  well_formed w ->
  tasks w !! t = Some task ->
  jobs (run_task fmt env files t w) = jobs w /\
  job_tasks (run_task fmt env files t w) = job_tasks w /\
  (forall t', t' <> t ->
     tasks (run_task fmt env files t w) !! t' = tasks w !! t') /\
  (forall k, k <> b_job_id (args task) ->
     job_of (run_task fmt env files t w) k = job_of w k) /\
  (exists task', tasks (run_task fmt env files t w) !! t = Some task' /\
                 args task' = args task) /\
  well_formed (run_task fmt env files t w).
Proof.
  intros Hwf Ht.
  assert (Hshape : run_task fmt env files t w = w \/
            exists F co,
              run_task fmt env files t w
              = with_tasks (<[t := {| args := args task; coro := co;
                                      must_cancel := false |}]> (tasks w))
                  (touch F (b_job_id (args task)) w)).
  { unfold run_task. rewrite Ht.
    destruct (done task); [left; reflexivity|]. right.
    destruct (must_cancel task).
    - exists (fun j => j), Cancelled. rewrite touch_id. reflexivity.
    - destruct (resume_tasks fmt env files task w) as [F HF].
      destruct (resume fmt env files task w) as [w1 co]. simpl in HF.
      subst w1. rewrite touch_tasks. eauto. }
  destruct Hshape as [->|(F & co & ->)].
  { repeat match goal with |- _ /\ _ => split end; eauto. }
  simpl. rewrite touch_jobs, touch_job_tasks.
  split; [reflexivity|]. split; [reflexivity|]. split.
  { intros t' Hne. rewrite lookup_insert_ne by done. reflexivity. }
  split.
  { intros k Hk.
    change (job_of (touch F (b_job_id (args task)) w) k = job_of w k).
    apply touch_job_of_other; assumption. }
  split.
  { rewrite lookup_insert_eq. eauto. }
  apply (touch_well_formed F (b_job_id (args task)) w Hwf).
Qed.

Lemma run_task_isolated_witness :
  let w := fst (create_job "job-2" 7 "music" submitted_two) in
  job_of (run_task plain_translator (serving good_mp3) ∅ 0%nat w) "job-2"
  = Some (created_job "job-2" 7 "music").
Proof.
  intros w.
  assert (Hwf : well_formed w).
  { apply create_job_well_formed.
    apply (inv_wf _ (reachable_Inv plain_translator _
                       (reachable_step _ _ _ _ (reachable_init _)
                          (step_submit _ _ "job-1"
                             (sample_batch [sample_track; sample_track])
                             (unused_init "job-1"))))). }
  assert (Ht : exists task, tasks w !! 0%nat = Some task /\
                            b_job_id (args task) = "job-1").
  { eexists. split; vm_compute; reflexivity. }
  destruct Ht as (task & Ht & Hid).
  destruct (run_task_isolated plain_translator (serving good_mp3) ∅ 0%nat w
              task Hwf Ht) as (_ & _ & _ & Hother & _).
  rewrite Hother by (rewrite Hid; discriminate).
  apply create_job_job_of_new.
Defined.

(** ** The embedding of the tags *)

(** X27: the embedding of the tags never raises, whatever the parser, the
    download of the cover or the saving of the file do; it changes no
    path other than the one of the file, which it neither creates nor
    deletes; the file stays as it is when it does not parse as MP3, and
    otherwise the path holds whatever [audio.save()] has left there, also
    when the saving raised midway, since that failure is swallowed like
    the others; it sends at most one request, for the cover, and none
    when the track has no cover address or the file is missing or does
    not parse as MP3. *)
Theorem embed_metadata_is_harmless (env : Env) (filepath : string)
    (track : TrackInfo) (s : St) :
  let run := embed_metadata env filepath track s in
  snd run = Ok tt /\
  (forall p, p <> filepath -> fs (fst run) !! p = fs s !! p) /\
  (is_Some (fs (fst run) !! filepath) <-> is_Some (fs s !! filepath)) /\
  exists evs,
    log (fst run) = (log s ++ evs)%list /\
    (fs s !! filepath = None \/
     (exists f e, fs s !! filepath = Some f /\ mp3_length f = Raise e) ->
     fs (fst run) = fs s /\ ~ In (EvSave filepath) evs) /\
    (forall f len,
       fs s !! filepath = Some f -> mp3_length f = Ok len ->
       fs (fst run)
       = <[filepath := fst (save_result env filepath f)]> (fs s)) /\
    (List.length (List.filter is_network evs) <= 1)%nat /\
    (image_url track = "" \/ fs s !! filepath = None \/
     (exists f e, fs s !! filepath = Some f /\ mp3_length f = Raise e) ->
     List.filter is_network evs = []).
Proof.
  intros run. subst run. unfold embed_metadata. run_m.
  destruct (fs s !! filepath) as [f|] eqn:Hf; simpl.
  2:{ split; [reflexivity|]. split; [auto|]. rewrite ?Hf.
      split; [tauto|].
      exists []. rewrite app_nil_r. simpl.
      split; [reflexivity|]. split; [auto|]. split; [discriminate|]. auto. }
  destruct (mp3_length f) as [len|msg] eqn:Hlen; simpl.
  2:{ split; [reflexivity|]. split; [auto|]. rewrite ?Hf.
      split; [tauto|].
      exists []. rewrite app_nil_r. simpl.
      split; [reflexivity|]. split; [auto|].
      split; [|auto]. intros f0 len0 [= <-]. rewrite Hlen. discriminate. }
  assert (Hnot : Some f = None \/
                 (exists (f0 : File) (e : string),
                    Some f = Some f0 /\ mp3_length f0 = Raise e) -> False).
  { intros [H|(f0 & e & Hf0 & He)]; [discriminate|].
    injection Hf0 as <-. rewrite Hlen in He. discriminate. }
  assert (Hsome : is_Some (<[filepath := fst (save_result env filepath f)]>
                             (fs s) !! filepath)
                  <-> is_Some (Some f)).
  { rewrite lookup_insert_eq. split; eauto. }
  assert (Hframe : forall p, p <> filepath ->
            <[filepath := fst (save_result env filepath f)]> (fs s) !! p
            = fs s !! p).
  { intros p Hp. apply lookup_insert_ne. congruence. }
  destruct (String.eqb (image_url track) "") eqn:Himg; simpl.
  - destruct (snd (save_result env filepath f)) as [msg'|]; simpl;
      rewrite ?Hf.
    all: split; [reflexivity|]; split; [apply Hframe|];
      split; [apply Hsome|];
      exists [EvSave filepath]; split; [reflexivity|];
      split; [intros H; exfalso; apply Hnot; exact H|];
      split; [|simpl; auto].
    all: intros f0 len0 [= <-] _; reflexivity.
  - apply String.eqb_neq in Himg.
    destruct (net env _) as [resp|e]; simpl;
      destruct (snd (save_result env filepath f)) as [msg'|]; simpl;
      rewrite ?Hf.
    all: split; [reflexivity|]; split; [apply Hframe|];
      split; [apply Hsome|];
      eexists; split; [rewrite <- !app_assoc; reflexivity|];
      split; [intros H; exfalso; apply Hnot; exact H|];
      split;
        [|simpl; split; [lia|];
          intros [H|H]; [contradiction|exfalso; apply Hnot; exact H]].
    all: intros f0 len0 [= <-] _; reflexivity.
Qed.

(** A saving that fails midway: the embedding returns normally and the
    file is what the saving has left. *)
Lemma embed_metadata_is_harmless_witness :
  let s := {| fs := {["a.mp3" := good_mp3]}; log := [] |} in
  snd (embed_metadata failing_save "a.mp3" sample_track s) = Ok tt /\
  fs (fst (embed_metadata failing_save "a.mp3" sample_track s)) !! "a.mp3"
  = Some truncated_file.
Proof.
  intros s.
  destruct (embed_metadata_is_harmless failing_save "a.mp3" sample_track s)
    as (Hok & _ & _ & evs & _ & _ & Hsaved & _).
  split; [exact Hok|].
  rewrite (Hsaved good_mp3 (S754_finite false 1 2) eq_refl eq_refl).
  reflexivity.
Defined.
